(** * RenderScreenshot Node SDK: signed URLs and webhook verification

    A shallow embedding of [src/client.ts] ([Client.generateUrl]) and of the
    webhook module ([verifyWebhook], [parseWebhook]) together with the
    JavaScript built-ins those functions call.

    Conventions.
    - A JavaScript string is modelled by the bytes of its UTF-8 encoding
      ([string] of the Standard Library), which is what [Buffer.from] and
      [Hmac.update] consume.  Every string the code inspects character by
      character (keys, digits, signs, the hexadecimal digest) is ASCII.
    - A call that may throw returns a [Result]; [try_catch] is the
      [try { ... } catch { ... }] block.
    - The wall clock is an explicit argument: the value of [Date.now()]. *)

From Stdlib Require Import ZArith List String Ascii Bool Lia.
From Stdlib Require Import Sorting.Sorted Sorting.Permutation Sorting.Mergesort.
From Stdlib Require Import Orders Eqdep_dec.
Import ListNotations.

Local Open Scope string_scope.
Local Open Scope Z_scope.

(* ================================================================= *)
(** ** Exceptions *)

Inductive JSError : Type :=
| SyntaxError                      (* JSON.parse on malformed text *)
| RangeError                       (* timingSafeEqual, unequal byte lengths *)
| TypeError_property_of_nullish    (* reading a property of undefined or null *)
| TypeError_not_primitive          (* ToPrimitive found no callable method *)
| Error (message : string).        (* throw new Error(message) *)

Inductive Result (A : Type) : Type :=
| Ok (a : A)
| Throw (e : JSError).
Arguments Ok {A} a.
Arguments Throw {A} e.

Definition bind {A B} (m : Result A) (k : A -> Result B) : Result B :=
  match m with
  | Ok a => k a
  | Throw e => Throw e
  end.

Definition try_catch {A} (body : Result A) (handler : JSError -> Result A)
  : Result A :=
  match body with
  | Ok a => Ok a
  | Throw e => handler e
  end.

Notation "x <- m ;; k" := (bind m (fun x => k))
  (at level 61, m at next level, right associativity).

(* ================================================================= *)
(** ** Bytes and strings *)

Definition byte_of_ascii (c : ascii) : Z := Z.of_N (N_of_ascii c).
Definition ascii_of_byte (b : Z) : ascii := ascii_of_N (Z.to_N b).

Fixpoint bytes_of_string (s : string) : list Z :=
  match s with
  | EmptyString => []
  | String c r => byte_of_ascii c :: bytes_of_string r
  end.

(** [Buffer.from(s)]: the UTF-8 bytes of [s]. *)
Definition Buffer_from (s : string) : list Z := bytes_of_string s.

(** [s === ''] *)
Definition is_empty (s : string) : bool :=
  match s with
  | EmptyString => true
  | String _ _ => false
  end.

(** The double quote character, for JSON text. *)
Definition dquote : string := String (ascii_of_nat 34) EmptyString.

(* ================================================================= *)
(** ** HMAC-SHA256 ([node:crypto])

    [createHmac('sha256', key).update(msg).digest('hex')], following
    FIPS 180-4 and RFC 2104 on 32-bit words kept in [Z]. *)

Module SHA256.

Definition mask32 : Z := 0xFFFFFFFF.
Definition w32 (x : Z) : Z := Z.land x mask32.
Definition add32 (x y : Z) : Z := w32 (x + y).
Definition not32 (x : Z) : Z := Z.lxor x mask32.
Definition rotr (n x : Z) : Z :=
  Z.lor (Z.shiftr x n) (w32 (Z.shiftl x (32 - n))).

Definition Ch (x y z : Z) : Z := Z.lxor (Z.land x y) (Z.land (not32 x) z).
Definition Maj (x y z : Z) : Z :=
  Z.lxor (Z.lxor (Z.land x y) (Z.land x z)) (Z.land y z).
Definition bsig0 (x : Z) : Z := Z.lxor (Z.lxor (rotr 2 x) (rotr 13 x)) (rotr 22 x).
Definition bsig1 (x : Z) : Z := Z.lxor (Z.lxor (rotr 6 x) (rotr 11 x)) (rotr 25 x).
Definition ssig0 (x : Z) : Z := Z.lxor (Z.lxor (rotr 7 x) (rotr 18 x)) (Z.shiftr x 3).
Definition ssig1 (x : Z) : Z := Z.lxor (Z.lxor (rotr 17 x) (rotr 19 x)) (Z.shiftr x 10).

(** The constants are derived as FIPS 180-4 defines them: the first 32
    bits of the fractional parts of the cube roots (for [K]) and of the
    square roots (for [H0]) of the first primes. *)
Definition is_prime (p : Z) : bool :=
  forallb (fun d => negb (p mod Z.of_nat d =? 0)) (seq 2 (Z.to_nat p - 2)).

Definition primes_upto (n : nat) : list Z :=
  filter is_prime (map Z.of_nat (seq 2 (n - 1))).

(** Integer cube root, one bit at a time. *)
Fixpoint cube_root (bits : nat) (n r : Z) : Z :=
  match bits with
  | O => r
  | S bits' =>
      let r' := r + 2 ^ Z.of_nat bits' in
      if r' * r' * r' <=? n then cube_root bits' n r' else cube_root bits' n r
  end.

Definition K : list Z :=
  Eval vm_compute in
    map (fun p => w32 (cube_root 36 (p * 2 ^ 96) 0)) (primes_upto 311).

Definition H0 : list Z :=
  Eval vm_compute in
    map (fun p => w32 (Z.sqrt (p * 2 ^ 64))) (primes_upto 19).

(** Big-endian encoding of [x] on [n] bytes. *)
Fixpoint be_bytes (n : nat) (x : Z) : list Z :=
  match n with
  | O => []
  | S n' => Z.land (Z.shiftr x (8 * Z.of_nat n')) 0xFF :: be_bytes n' x
  end.

(** Padding: a 1 bit, zeros up to 56 mod 64, then the bit length on 8 bytes. *)
Definition pad (msg : list Z) : list Z :=
  let len := Z.of_nat (List.length msg) in
  let zeros := Z.to_nat ((55 - len) mod 64) in
  msg ++ 0x80 :: repeat 0 zeros ++ be_bytes 8 (8 * len).

Fixpoint words_of_bytes (bs : list Z) : list Z :=
  match bs with
  | b0 :: b1 :: b2 :: b3 :: r =>
      Z.lor (Z.shiftl b0 24) (Z.lor (Z.shiftl b1 16) (Z.lor (Z.shiftl b2 8) b3))
      :: words_of_bytes r
  | _ => []
  end.

(** Message schedule, most recent word first. *)
Fixpoint schedule (n : nat) (rw : list Z) : list Z :=
  match n with
  | O => rw
  | S n' =>
      let w := add32 (add32 (ssig1 (nth 1 rw 0)) (nth 6 rw 0))
                     (add32 (ssig0 (nth 14 rw 0)) (nth 15 rw 0)) in
      schedule n' (w :: rw)
  end.

Definition round (st : list Z) (kw : Z * Z) : list Z :=
  match st with
  | [a; b; c; d; e; f; g; h] =>
      let t1 := add32 (add32 (add32 h (bsig1 e)) (add32 (Ch e f g) (fst kw))) (snd kw) in
      let t2 := add32 (bsig0 a) (Maj a b c) in
      [add32 t1 t2; a; b; c; add32 d t1; e; f; g]
  | _ => st
  end.

Definition compress (h : list Z) (block : list Z) : list Z :=
  let w := rev (schedule 48 (rev block)) in
  let st := fold_left round (combine K w) h in
  map (fun p => add32 (fst p) (snd p)) (combine h st).

(** [blocks fuel h ws]: absorb the 16-word blocks of [ws]. *)
Fixpoint blocks (fuel : nat) (h : list Z) (ws : list Z) : list Z :=
  match fuel with
  | O => h
  | S fuel' =>
      match ws with
      | [] => h
      | _ => blocks fuel' (compress h (firstn 16 ws)) (skipn 16 ws)
      end
  end.

Definition digest (msg : list Z) : list Z :=
  let ws := words_of_bytes (pad msg) in
  flat_map (be_bytes 4) (blocks (List.length ws) H0 ws).

End SHA256.

Module HMAC.

Definition block_size : nat := 64.

Definition block_key (key : list Z) : list Z :=
  let k := if Nat.ltb block_size (List.length key) then SHA256.digest key else key in
  k ++ repeat 0 (block_size - List.length k).

Definition hmac_sha256 (key msg : list Z) : list Z :=
  let k := block_key key in
  let ipad := map (Z.lxor 0x36) k in
  let opad := map (Z.lxor 0x5c) k in
  SHA256.digest (opad ++ SHA256.digest (ipad ++ msg)).

End HMAC.

(** [digest('hex')]: two lowercase hexadecimal digits per byte. *)
Definition hex_digit (n : Z) : ascii :=
  if n <? 10 then ascii_of_byte (48 + n) else ascii_of_byte (87 + n).

Fixpoint hex (bs : list Z) : string :=
  match bs with
  | [] => EmptyString
  | b :: r => String (hex_digit (Z.shiftr b 4)) (String (hex_digit (Z.land b 15)) (hex r))
  end.

(** [createHmac('sha256', key).update(message).digest('hex')] *)
Definition createHmac_sha256_hex (key message : string) : string :=
  hex (HMAC.hmac_sha256 (bytes_of_string key) (bytes_of_string message)).

(* ================================================================= *)
(** ** Decimal numerals *)

Definition digit_char (d : Z) : ascii := ascii_of_byte (48 + d).

Fixpoint string_of_digits (ds : list Z) : string :=
  match ds with
  | [] => EmptyString
  | d :: r => String (digit_char d) (string_of_digits r)
  end.

(** Digits of [n >= 0], most significant first; [fuel] bounds the length. *)
Fixpoint digits_fuel (fuel : nat) (n : Z) (acc : list Z) : list Z :=
  match fuel with
  | O => acc
  | S fuel' =>
      let acc' := n mod 10 :: acc in
      if n / 10 =? 0 then acc' else digits_fuel fuel' (n / 10) acc'
  end.

Definition digits (n : Z) : list Z :=
  digits_fuel (S (Z.to_nat (Z.log2 n))) n [].

Definition decimal (n : Z) : string := string_of_digits (digits n).

(** Decimal numeral of an integer, with a minus sign when negative. *)
Definition decimal_int (z : Z) : string :=
  if z <? 0 then "-" ++ decimal (- z) else decimal z.

(* ================================================================= *)
(** ** Number values and [Number::toString]

    ECMA-262 defines the string form of a finite non-zero Number [x] from
    the integers [n], [k], [s] with [k >= 1], [10^(k-1) <= s < 10^k],
    [s * 10^(n-k) = x] and [k] as small as possible.  A Number is
    represented here by exactly that data: its sign, the digit integer [s]
    and the decimal exponent [n].  Every double has one such
    representation, so a statement about all [JSNumber]s covers all
    doubles. *)

Inductive JSNumber : Type :=
| NaN
| Infinity (neg : bool)
| Zero (neg : bool)
| Finite (neg : bool) (s : positive) (n : Z).

(** [k] is as small as possible: [s] has no trailing zero. *)
Definition canonical (x : JSNumber) : Prop :=
  match x with
  | Finite _ s _ => Zpos s mod 10 <> 0
  | _ => True
  end.

Definition zeros (n : Z) : list Z := repeat 0 (Z.to_nat n).

Definition Number_toString (x : JSNumber) : string :=
  match x with
  | NaN => "NaN"
  | Zero _ => "0"
  | Infinity neg => (if neg then "-" else "") ++ "Infinity"
  | Finite neg s n =>
      let ds := digits (Zpos s) in
      let k := Z.of_nat (List.length ds) in
      (if neg then "-" else "") ++
      if (-5 <=? n) && (n <=? 21) then
        if k <=? n then string_of_digits (ds ++ zeros (n - k))
        else if 0 <? n then
          string_of_digits (firstn (Z.to_nat n) ds) ++ "." ++
          string_of_digits (skipn (Z.to_nat n) ds)
        else "0." ++ string_of_digits (zeros (- n) ++ ds)
      else
        let e := n - 1 in
        let exponent := (if e <? 0 then "-" else "+") ++ decimal (Z.abs e) in
        if k =? 1 then string_of_digits ds ++ "e" ++ exponent
        else string_of_digits (firstn 1 ds) ++ "." ++
             string_of_digits (skipn 1 ds) ++ "e" ++ exponent
  end.

(** Strip the trailing decimal zeros of [m > 0]. *)
Fixpoint strip_zeros (fuel : nat) (m : Z) : Z :=
  match fuel with
  | O => m
  | S fuel' => if m mod 10 =? 0 then strip_zeros fuel' (m / 10) else m
  end.

(** The Number whose value is the integer [z] (exact for the safe integers,
    [|z| < 2^53], all of which are doubles). *)
Definition Number_of_Z (z : Z) : JSNumber :=
  match z with
  | Z0 => Zero false
  | _ =>
      let m := Z.abs z in
      let fuel := S (Z.to_nat (Z.log2 m)) in
      Finite (z <? 0) (Z.to_pos (strip_zeros fuel m))
             (Z.of_nat (List.length (digits m)))
  end.

(** [String(b)] for a boolean. *)
Definition Boolean_toString (b : bool) : string :=
  if b then "true" else "false".

(* ================================================================= *)
(** ** [parseInt(string, 10)] *)

(** Single-byte [StrWhiteSpaceChar]: TAB, LF, VT, FF, CR, SP. *)
Definition is_ascii_space (b : Z) : bool :=
  ((9 <=? b) && (b <=? 13)) || (b =? 32).

(** U+00A0, in UTF-8. *)
Definition is_space2 (b0 b1 : Z) : bool :=
  (b0 =? 0xC2) && (b1 =? 0xA0).

(** U+1680, U+2000..U+200A, U+2028, U+2029, U+202F, U+205F, U+3000 and
    U+FEFF, in UTF-8. *)
Definition is_space3 (b0 b1 b2 : Z) : bool :=
  ((b0 =? 0xE1) && (b1 =? 0x9A) && (b2 =? 0x80))
  || ((b0 =? 0xE2) && (b1 =? 0x80) &&
      (((0x80 <=? b2) && (b2 <=? 0x8A)) || (b2 =? 0xA8) || (b2 =? 0xA9) || (b2 =? 0xAF)))
  || ((b0 =? 0xE2) && (b1 =? 0x81) && (b2 =? 0x9F))
  || ((b0 =? 0xE3) && (b1 =? 0x80) && (b2 =? 0x80))
  || ((b0 =? 0xEF) && (b1 =? 0xBB) && (b2 =? 0xBF)).

(** Remove leading white space and line terminators. *)
Fixpoint trim_start (s : string) : string :=
  match s with
  | EmptyString => s
  | String c0 r0 =>
      if is_ascii_space (byte_of_ascii c0) then trim_start r0
      else
        match r0 with
        | EmptyString => s
        | String c1 r1 =>
            if is_space2 (byte_of_ascii c0) (byte_of_ascii c1) then trim_start r1
            else
              match r1 with
              | EmptyString => s
              | String c2 r2 =>
                  if is_space3 (byte_of_ascii c0) (byte_of_ascii c1) (byte_of_ascii c2)
                  then trim_start r2
                  else s
              end
        end
  end.

Definition is_digit (c : ascii) : bool :=
  (48 <=? byte_of_ascii c) && (byte_of_ascii c <=? 57).

Definition digit_value (c : ascii) : Z := byte_of_ascii c - 48.

(** Value of the longest prefix of decimal digits, [acc] being the value
    of the digits already read. *)
Fixpoint parse_digits (acc : Z) (s : string) : Z :=
  match s with
  | EmptyString => acc
  | String c r =>
      if is_digit c then parse_digits (10 * acc + digit_value c) r else acc
  end.

Definition starts_with_digit (s : string) : bool :=
  match s with
  | EmptyString => false
  | String c _ => is_digit c
  end.

(** [parseInt(s, 10)]; [None] is NaN.  The result is the exact integer:
    the only later use is a comparison of its distance from a clock value
    below 2^53 with 300, which rounding to a double (or to Infinity)
    cannot change. *)
Definition parseInt (s : string) : option Z :=
  let t := trim_start s in
  let '(sign, body) :=
    match t with
    | String "-" r => (-1, r)
    | String "+" r => (1, r)
    | _ => (1, t)
    end in
  if starts_with_digit body then Some (sign * parse_digits 0 body) else None.

(* ================================================================= *)
(** ** Dates

    A Date holds a time value: an integral number of milliseconds with
    magnitude at most 8.64e15, or NaN for an invalid Date ([None]). *)

Definition Date : Type := option Z.

Definition getTime (d : Date) : option Z := d.

Definition max_time_value : Z := 8640000000000000.

Definition time_value (ms : Z) : Prop := Z.abs ms <= max_time_value.

Definition valid_date (d : Date) : Prop :=
  match d with
  | Some ms => time_value ms
  | None => True
  end.

(** [Math.floor(t / 1000)] for a time value [t] or NaN.  The quotient of a
    time value by 1000 is below 2^44, where doubles are spaced less than
    1/1000 apart, so the floor of the rounded quotient is the floor of the
    exact one. *)
Definition floor_div_1000 (t : option Z) : option Z :=
  option_map (fun ms => ms / 1000) t.

(** Template-literal conversion of an integral-or-NaN number. *)
Definition String_integral (x : option Z) : string :=
  match x with
  | None => Number_toString NaN
  | Some z => Number_toString (Number_of_Z z)
  end.

(* ================================================================= *)
(** ** [crypto.timingSafeEqual] *)

(** OR of the byte-wise XORs: every byte is visited, whatever the data. *)
Fixpoint xor_fold (acc : Z) (a b : list Z) : Z :=
  match a, b with
  | x :: a', y :: b' => xor_fold (Z.lor acc (Z.lxor x y)) a' b'
  | _, _ => acc
  end.

Definition timingSafeEqual (a b : list Z) : Result bool :=
  if Nat.eqb (List.length a) (List.length b)
  then Ok (xor_fold 0 a b =? 0)
  else Throw RangeError.

(* ================================================================= *)
(** ** [verifyWebhook] *)

Definition tolerance : Z := 5 * 60.

Definition verifyWebhook (Date_now : Z)
    (payload signature timestamp secret : string) : Result bool :=
  (* Validate inputs *)
  if is_empty payload || is_empty signature || is_empty timestamp || is_empty secret
  then Ok false
  else
    (* Check timestamp to prevent replay attacks *)
    match parseInt timestamp with
    | None => Ok false
    | Some timestampNum =>
        let now := Date_now / 1000 in
        if tolerance <? Z.abs (now - timestampNum) then Ok false
        else
          (* Compute expected signature *)
          let message := timestamp ++ "." ++ payload in
          let expected := "sha256=" ++ createHmac_sha256_hex secret message in
          (* Timing-safe comparison *)
          try_catch
            (timingSafeEqual (Buffer_from expected) (Buffer_from signature))
            (fun _ => Ok false)
    end.

(** The signature of a payload, as the tests' [createValidSignature]
    computes it. *)
Definition createValidSignature (secret payload timestamp : string) : string :=
  let message := timestamp ++ "." ++ payload in
  "sha256=" ++ createHmac_sha256_hex secret message.

(* ================================================================= *)
(** ** Screenshot options ([types.ts]) *)

Module ImageFormat.
Inductive t := png | jpeg | webp | pdf.
Definition to_string (x : t) : string :=
  match x with
  | png => "png" | jpeg => "jpeg" | webp => "webp" | pdf => "pdf"
  end.
End ImageFormat.

Module WaitCondition.
Inductive t := load | networkidle | domcontentloaded.
Definition to_string (x : t) : string :=
  match x with
  | load => "load" | networkidle => "networkidle"
  | domcontentloaded => "domcontentloaded"
  end.
End WaitCondition.

Module BlockableResource.
Inductive t := font | media | image | script | stylesheet.
End BlockableResource.

Module MediaType.
Inductive t := screen | print.
End MediaType.

Module StorageAcl.
Inductive t := public_read | private.
End StorageAcl.

Module Preset.
Inductive t :=
| og_card | twitter_card | twitter_card_large | full_page | mobile
| mobile_landscape | desktop_hd | desktop_4k | link_preview | pdf_document.
Definition to_string (x : t) : string :=
  match x with
  | og_card => "og_card" | twitter_card => "twitter_card"
  | twitter_card_large => "twitter_card_large" | full_page => "full_page"
  | mobile => "mobile" | mobile_landscape => "mobile_landscape"
  | desktop_hd => "desktop_hd" | desktop_4k => "desktop_4k"
  | link_preview => "link_preview" | pdf_document => "pdf_document"
  end.
End Preset.

Module Device.
Inductive t :=
| iphone_14_pro | iphone_14 | iphone_se | pixel_7 | pixel_7_pro
| samsung_galaxy_s23 | ipad_pro_12 | ipad_air | macbook_pro_16
| macbook_air_15 | imac_24 | desktop_1080p | desktop_1440p | desktop_4k
| surface_pro.
Definition to_string (x : t) : string :=
  match x with
  | iphone_14_pro => "iphone_14_pro" | iphone_14 => "iphone_14"
  | iphone_se => "iphone_se" | pixel_7 => "pixel_7"
  | pixel_7_pro => "pixel_7_pro" | samsung_galaxy_s23 => "samsung_galaxy_s23"
  | ipad_pro_12 => "ipad_pro_12" | ipad_air => "ipad_air"
  | macbook_pro_16 => "macbook_pro_16" | macbook_air_15 => "macbook_air_15"
  | imac_24 => "imac_24" | desktop_1080p => "desktop_1080p"
  | desktop_1440p => "desktop_1440p" | desktop_4k => "desktop_4k"
  | surface_pro => "surface_pro"
  end.
End Device.

Module PdfPaperSize.
Inductive t := a0 | a1 | a2 | a3 | a4 | a5 | a6 | letter | legal | tabloid.
End PdfPaperSize.

Module SameSite.
Inductive t := Strict | Lax | None.
End SameSite.

Record Cookie : Type := {
  cookie_name : string;
  cookie_value : string;
  cookie_domain : option string;
  cookie_path : option string;
  cookie_expires : option JSNumber;
  cookie_httpOnly : option bool;
  cookie_secure : option bool;
  cookie_sameSite : option SameSite.t
}.

Record Geolocation : Type := {
  latitude : JSNumber;
  longitude : JSNumber;
  accuracy : option JSNumber
}.

Record BasicAuth : Type := {
  username : string;
  password : string
}.

(** The keys of [TakeOptionsConfig] and the type of the value under each.
    The interface has only optional members, so a configuration is a
    function from keys to optional values: [config Field.width] is
    [config.width], and [None] is [undefined]. *)
Module Field.

Inductive t :=
(* Target *)
| url | html
(* Viewport *)
| width | height | scale | mobile
(* Capture *)
| fullPage | element | format | quality
(* Wait *)
| waitFor | delay | waitForSelector | waitForTimeout
(* Presets *)
| preset | device
(* Blocking *)
| blockAds | blockTrackers | blockCookieBanners | blockChatWidgets
| blockUrls | blockResources
(* Page manipulation *)
| injectScript | injectStyle | click | hide | remove
(* Browser emulation *)
| darkMode | reducedMotion | mediaType | userAgent | timezone | locale
| geolocation
(* Network *)
| headers | cookies | authBasic | authBearer | bypassCsp
(* Cache *)
| cacheTtl | cacheRefresh
(* PDF options *)
| pdfPaperSize | pdfWidth | pdfHeight | pdfLandscape | pdfMargin
| pdfMarginTop | pdfMarginRight | pdfMarginBottom | pdfMarginLeft
| pdfScale | pdfPrintBackground | pdfPageRanges | pdfHeader | pdfFooter
| pdfFitOnePage | pdfPreferCssPageSize
(* Storage *)
| storageEnabled | storagePath | storageAcl.

Definition type (f : t) : Type :=
  match f with
  | url | html | element | waitForSelector | injectScript | injectStyle
  | click | userAgent | timezone | locale | authBearer | pdfWidth
  | pdfHeight | pdfMargin | pdfMarginTop | pdfMarginRight | pdfMarginBottom
  | pdfMarginLeft | pdfPageRanges | pdfHeader | pdfFooter | storagePath =>
      string
  | width | height | scale | quality | delay | waitForTimeout | cacheTtl
  | pdfScale =>
      JSNumber
  | mobile | fullPage | blockAds | blockTrackers | blockCookieBanners
  | blockChatWidgets | darkMode | reducedMotion | bypassCsp | cacheRefresh
  | pdfLandscape | pdfPrintBackground | pdfFitOnePage | pdfPreferCssPageSize
  | storageEnabled =>
      bool
  | format => ImageFormat.t
  | waitFor => WaitCondition.t
  | preset => Preset.t
  | device => Device.t
  | blockUrls | hide | remove => list string
  | blockResources => list BlockableResource.t
  | mediaType => MediaType.t
  | geolocation => Geolocation
  | headers => list (string * string)
  | cookies => list Cookie
  | authBasic => BasicAuth
  | pdfPaperSize => PdfPaperSize.t
  | storageAcl => StorageAcl.t
  end.

Definition eq_dec (f g : t) : {f = g} + {f <> g}.
Proof. decide equality. Defined.

End Field.

Definition TakeOptionsConfig : Type := forall f : Field.t, option (Field.type f).

(** The object literal [{}]. *)
Definition empty_config : TakeOptionsConfig := fun _ => None.

(** [{ ...config, f: v }]: [config] with member [f] replaced by [v]. *)
Definition with_field (f : Field.t) (v : option (Field.type f))
    (config : TakeOptionsConfig) : TakeOptionsConfig :=
  fun g =>
    match Field.eq_dec f g with
    | left e => eq_rect f (fun x => option (Field.type x)) v g e
    | right _ => config g
    end.

(** The fluent builder ([options.ts]) wraps a configuration. *)
Record TakeOptions : Type := { builder_config : TakeOptionsConfig }.

Definition toConfig (o : TakeOptions) : TakeOptionsConfig := builder_config o.

(* ================================================================= *)
(** ** Objects used as string maps, and [Array.prototype.sort] *)

(** A [Record<string, string>]: own properties in insertion order. *)
Definition StringRecord : Type := list (string * string).

Fixpoint lookup (k : string) (o : StringRecord) : option string :=
  match o with
  | [] => None
  | (k', v) :: r => if String.eqb k' k then Some v else lookup k r
  end.

(** [o[k] = v]: replace in place, or append a new property. *)
Fixpoint assign (k v : string) (o : StringRecord) : StringRecord :=
  match o with
  | [] => [(k, v)]
  | (k', v') :: r =>
      if String.eqb k' k then (k', v) :: r else (k', v') :: assign k v r
  end.

(** [if (value !== undefined) o[k] = value] *)
Definition assign_if_defined (k : string) (value : option string)
    (o : StringRecord) : StringRecord :=
  match value with
  | Some v => assign k v o
  | None => o
  end.

Definition Object_keys (o : StringRecord) : list string := map fst o.

(** [`${o[k]}`] *)
Definition get_string (o : StringRecord) (k : string) : string :=
  match lookup k o with
  | Some v => v
  | None => "undefined"
  end.

(** The default order of [sort()]: lexicographic on code units. *)
Module StringOrder <: TotalLeBool.
Definition t := string.
Definition leb (x y : string) : bool := String.leb x y.
Definition leb_total : forall x y, leb x y = true \/ leb y x = true :=
  String.leb_total.
End StringOrder.

Module StringSort := Sort StringOrder.

Definition sort (l : list string) : list string := StringSort.sort l.

(** [xs.join(sep)] *)
Fixpoint join (sep : string) (xs : list string) : string :=
  match xs with
  | [] => ""
  | [x] => x
  | x :: r => x ++ sep ++ join sep r
  end.

(* ================================================================= *)
(** ** [Client] ([client.ts]) *)

Definition DEFAULT_BASE_URL : string := "https://api.renderscreenshot.com".
Definition DEFAULT_TIMEOUT : JSNumber := Finite false 3 5.
Definition API_VERSION : string := "v1".

Record ClientOptions : Type := {
  opt_baseUrl : option string;
  opt_timeout : option JSNumber
}.

Record Client : Type := {
  apiKey : string;
  baseUrl : string;
  timeout : JSNumber
}.

(** [a ?? b] on an optional member. *)
Definition nullish {A} (a : option A) (b : A) : A :=
  match a with
  | Some x => x
  | None => b
  end.

(** [new Client(apiKey, options)] *)
Definition new_Client (key : string) (options : ClientOptions) : Result Client :=
  if is_empty key then Throw (Error "API key is required")
  else Ok {| apiKey := key;
             baseUrl := nullish (opt_baseUrl options) DEFAULT_BASE_URL;
             timeout := nullish (opt_timeout options) DEFAULT_TIMEOUT |}.

(** The query parameters [generateUrl] collects from a configuration, in
    the order of its assignments. *)
Definition build_params (config : TakeOptionsConfig) : StringRecord :=
  let params : StringRecord := [] in
  let params := assign_if_defined "url" (config Field.url) params in
  let params := assign_if_defined "width"
                  (option_map Number_toString (config Field.width)) params in
  let params := assign_if_defined "height"
                  (option_map Number_toString (config Field.height)) params in
  let params := assign_if_defined "scale"
                  (option_map Number_toString (config Field.scale)) params in
  let params := assign_if_defined "mobile"
                  (option_map Boolean_toString (config Field.mobile)) params in
  let params := assign_if_defined "full_page"
                  (option_map Boolean_toString (config Field.fullPage)) params in
  let params := assign_if_defined "element" (config Field.element) params in
  let params := assign_if_defined "format"
                  (option_map ImageFormat.to_string (config Field.format)) params in
  let params := assign_if_defined "quality"
                  (option_map Number_toString (config Field.quality)) params in
  let params := assign_if_defined "preset"
                  (option_map Preset.to_string (config Field.preset)) params in
  let params := assign_if_defined "device"
                  (option_map Device.to_string (config Field.device)) params in
  let params := assign_if_defined "wait_for"
                  (option_map WaitCondition.to_string (config Field.waitFor)) params in
  let params := assign_if_defined "delay"
                  (option_map Number_toString (config Field.delay)) params in
  let params := assign_if_defined "block_ads"
                  (option_map Boolean_toString (config Field.blockAds)) params in
  let params := assign_if_defined "block_trackers"
                  (option_map Boolean_toString (config Field.blockTrackers)) params in
  let params := assign_if_defined "block_cookie_banners"
                  (option_map Boolean_toString (config Field.blockCookieBanners)) params in
  let params := assign_if_defined "block_chat_widgets"
                  (option_map Boolean_toString (config Field.blockChatWidgets)) params in
  let params := assign_if_defined "dark_mode"
                  (option_map Boolean_toString (config Field.darkMode)) params in
  let params := assign_if_defined "cache_ttl"
                  (option_map Number_toString (config Field.cacheTtl)) params in
  params.

(** The message [generateUrl] signs. *)
Definition signed_message (config : TakeOptionsConfig) (expiresAt : Date) : string :=
  let params := build_params config in
  (* Sort params alphabetically and create canonical string *)
  let sortedKeys := sort (Object_keys params) in
  let canonical := join "&" (map (fun k => k ++ "=" ++ get_string params k) sortedKeys) in
  (* Add expiration *)
  let expires := floor_div_1000 (getTime expiresAt) in
  canonical ++ "&expires=" ++ String_integral expires.

Definition generateUrl (this : Client)
    (options : TakeOptions + TakeOptionsConfig) (expiresAt : Date) : string :=
  let config :=
    match options with
    | inl o => toConfig o
    | inr c => c
    end in
  let message := signed_message config expiresAt in
  (* Generate signature *)
  let signature := createHmac_sha256_hex (apiKey this) message in
  baseUrl this ++ "/" ++ API_VERSION ++ "/screenshot?" ++ message
    ++ "&signature=" ++ signature.

(* ================================================================= *)
(** ** JSON values and the conversions [new Date] performs *)

#[warnings="-register-all"]
Inductive JSON : Type :=
| JNull
| JBool (b : bool)
| JNumber (n : JSNumber)
| JString (s : string)
| JArray (items : list JSON)
| JObject (members : list (string * JSON)).

(** The value of an expression: [None] is [undefined]. *)
Definition JSValue : Type := option JSON.

Fixpoint own_property (k : string) (members : list (string * JSON)) : JSValue :=
  match members with
  | [] => None
  | (k', v) :: r => if String.eqb k' k then Some v else own_property k r
  end.

Definition has_own (k : string) (members : list (string * JSON)) : bool :=
  match own_property k members with
  | Some _ => true
  | None => false
  end.

(** [v.k] for the member names read by [parseWebhook], none of which is
    defined on a built-in prototype: an own property of an object,
    [undefined] on any other non-nullish value, a TypeError on
    [undefined] and [null]. *)
Definition get (v : JSValue) (k : string) : Result JSValue :=
  match v with
  | None | Some JNull => Throw TypeError_property_of_nullish
  | Some (JObject members) => Ok (own_property k members)
  | Some _ => Ok None
  end.

(** [a ?? b] *)
Definition coalesce (a : JSValue) (b : JSON) : JSON :=
  match a with
  | None | Some JNull => b
  | Some v => v
  end.

(** [ToString] of an array element inside [Array.prototype.join], which is
    how [ToPrimitive] converts an array.  An object parsed from JSON has no
    callable own member: with an own [toString] no method yields a
    primitive and the conversion throws; otherwise
    [Object.prototype.toString] answers. *)
Fixpoint element_toString (v : JSON) : Result string :=
  match v with
  | JNull => Ok ""
  | JBool b => Ok (Boolean_toString b)
  | JNumber n => Ok (Number_toString n)
  | JString s => Ok s
  | JArray items =>
      strs <- (fix each (l : list JSON) : Result (list string) :=
                 match l with
                 | [] => Ok []
                 | x :: r =>
                     sx <- element_toString x ;;
                     sr <- each r ;;
                     Ok (sx :: sr)
                 end) items ;;
      Ok (join "," strs)
  | JObject members =>
      if has_own "toString" members then Throw TypeError_not_primitive
      else Ok "[object Object]"
  end.

Inductive Primitive : Type :=
| PNull
| PBool (b : bool)
| PNumber (n : JSNumber)
| PString (s : string).

Definition ToPrimitive (v : JSON) : Result Primitive :=
  match v with
  | JNull => Ok PNull
  | JBool b => Ok (PBool b)
  | JNumber n => Ok (PNumber n)
  | JString s => Ok (PString s)
  | JArray _ | JObject _ => s <- element_toString v ;; Ok (PString s)
  end.

(** [TimeClip(x)]: NaN outside the time-value range, else [x] truncated
    to an integer. *)
Definition TimeClip (x : JSNumber) : Date :=
  match x with
  | NaN | Infinity _ => None
  | Zero _ => Some 0
  | Finite neg s n =>
      let k := Z.of_nat (List.length (digits (Zpos s))) in
      let too_large :=
        if k <=? n then max_time_value <? Zpos s * 10 ^ (n - k)
        else max_time_value * 10 ^ (k - n) <? Zpos s in
      if too_large then None
      else
        let magnitude :=
          if k <=? n then Zpos s * 10 ^ (n - k) else Zpos s / 10 ^ (k - n) in
        Some (if neg then - magnitude else magnitude)
  end.

Module ScreenshotResponse.
Record t : Type := {
  url : JSON;
  width : JSON;
  height : JSON;
  format : JSON;
  size : JSON;
  cached : JSON
}.
End ScreenshotResponse.

Module EventError.
Record t : Type := {
  code : string;
  message : JSON
}.
End EventError.

Module EventData.
Record t : Type := {
  url : JSValue;
  batchId : JSValue;
  response : option ScreenshotResponse.t;
  error : option EventError.t
}.
(** [{}] *)
Definition empty : t :=
  {| url := None; batchId := None; response := None; error := None |}.
End EventData.

Module WebhookEvent.
Record t : Type := {
  id : JSValue;
  type : JSValue;
  timestamp : Date;
  data : EventData.t
}.
End WebhookEvent.

(** [x === s] for a string literal [s] *)
Definition strict_equals_string (x : JSValue) (s : string) : bool :=
  match x with
  | Some (JString s') => String.eqb s' s
  | _ => false
  end.

Section Webhooks.

(** [JSON.parse] and [Date.parse] are taken as given: the first throws a
    SyntaxError on malformed text, the second is implementation-defined
    outside the ISO format. *)
Variable JSON_parse : string -> Result JSON.
Variable Date_parse : string -> Date.

(** [new Date(value)] *)
Definition new_Date (value : JSValue) : Result Date :=
  match value with
  | None => Ok None
  | Some v =>
      p <- ToPrimitive v ;;
      match p with
      | PString s => Ok (Date_parse s)
      | PNull => Ok (TimeClip (Zero false))
      | PBool b => Ok (TimeClip (if b then Finite false 1 1 else Zero false))
      | PNumber n => Ok (TimeClip n)
      end
  end.

(** [typeof payload === 'string' ? JSON.parse(payload) : payload] *)
Definition decode (payload : string + JSON) : Result JSON :=
  match payload with
  | inl text => JSON_parse text
  | inr object => Ok object
  end.

Definition parseWebhook (payload : string + JSON) : Result WebhookEvent.t :=
  raw <- decode payload ;;
  let data : JSValue := Some raw in
  id <- get data "id" ;;
  type <- get data "event" ;;
  ts <- get data "timestamp" ;;
  timestamp <- new_Date ts ;;
  let event (d : EventData.t) : WebhookEvent.t :=
    {| WebhookEvent.id := id; WebhookEvent.type := type;
       WebhookEvent.timestamp := timestamp; WebhookEvent.data := d |} in
  (* Parse based on event type *)
  if strict_equals_string type "screenshot.completed" then
    d <- get data "data" ;;
    screenshot_url <- get d "screenshot_url" ;;
    width <- get d "width" ;;
    height <- get d "height" ;;
    format <- get d "format" ;;
    size <- get d "size" ;;
    cached <- get d "cached" ;;
    url <- get d "url" ;;
    Ok (event
          {| EventData.url := url;
             EventData.batchId := None;
             EventData.response :=
               Some {| ScreenshotResponse.url := coalesce screenshot_url (JString "");
                       ScreenshotResponse.width := coalesce width (JNumber (Zero false));
                       ScreenshotResponse.height := coalesce height (JNumber (Zero false));
                       ScreenshotResponse.format := coalesce format (JString "png");
                       ScreenshotResponse.size := coalesce size (JNumber (Zero false));
                       ScreenshotResponse.cached := coalesce cached (JBool false) |};
             EventData.error := None |})
  else if strict_equals_string type "screenshot.failed" then
    d <- get data "data" ;;
    error <- get d "error" ;;
    url <- get d "url" ;;
    Ok (event
          {| EventData.url := url;
             EventData.batchId := None;
             EventData.response := None;
             EventData.error :=
               Some {| EventError.code := "render_failed";
                       EventError.message := coalesce error (JString "Unknown error") |} |})
  else if strict_equals_string type "batch.completed"
          || strict_equals_string type "batch.failed" then
    Ok (event
          {| EventData.url := None;
             EventData.batchId := id;
             EventData.response := None;
             EventData.error := None |})
  else
    Ok (event EventData.empty).

End Webhooks.

(* ================================================================= *)
(** ** The query parameters of a signed URL

    The nineteen options [generateUrl] serializes, each with its query key,
    the option it reads and the string it contributes. *)

Module Param.

Inductive t :=
| url | width | height | scale | mobile | full_page | element | format
| quality | preset | device | wait_for | delay | block_ads | block_trackers
| block_cookie_banners | block_chat_widgets | dark_mode | cache_ttl.

Definition key (p : t) : string :=
  match p with
  | url => "url" | width => "width" | height => "height" | scale => "scale"
  | mobile => "mobile" | full_page => "full_page" | element => "element"
  | format => "format" | quality => "quality" | preset => "preset"
  | device => "device" | wait_for => "wait_for" | delay => "delay"
  | block_ads => "block_ads" | block_trackers => "block_trackers"
  | block_cookie_banners => "block_cookie_banners"
  | block_chat_widgets => "block_chat_widgets" | dark_mode => "dark_mode"
  | cache_ttl => "cache_ttl"
  end.

Definition field (p : t) : Field.t :=
  match p with
  | url => Field.url | width => Field.width | height => Field.height
  | scale => Field.scale | mobile => Field.mobile | full_page => Field.fullPage
  | element => Field.element | format => Field.format
  | quality => Field.quality | preset => Field.preset | device => Field.device
  | wait_for => Field.waitFor | delay => Field.delay
  | block_ads => Field.blockAds | block_trackers => Field.blockTrackers
  | block_cookie_banners => Field.blockCookieBanners
  | block_chat_widgets => Field.blockChatWidgets
  | dark_mode => Field.darkMode | cache_ttl => Field.cacheTtl
  end.

(** The string stored under the key, when the option is defined. *)
Definition value (config : TakeOptionsConfig) (p : t) : option string :=
  match p with
  | url => config Field.url
  | width => option_map Number_toString (config Field.width)
  | height => option_map Number_toString (config Field.height)
  | scale => option_map Number_toString (config Field.scale)
  | mobile => option_map Boolean_toString (config Field.mobile)
  | full_page => option_map Boolean_toString (config Field.fullPage)
  | element => config Field.element
  | format => option_map ImageFormat.to_string (config Field.format)
  | quality => option_map Number_toString (config Field.quality)
  | preset => option_map Preset.to_string (config Field.preset)
  | device => option_map Device.to_string (config Field.device)
  | wait_for => option_map WaitCondition.to_string (config Field.waitFor)
  | delay => option_map Number_toString (config Field.delay)
  | block_ads => option_map Boolean_toString (config Field.blockAds)
  | block_trackers => option_map Boolean_toString (config Field.blockTrackers)
  | block_cookie_banners =>
      option_map Boolean_toString (config Field.blockCookieBanners)
  | block_chat_widgets =>
      option_map Boolean_toString (config Field.blockChatWidgets)
  | dark_mode => option_map Boolean_toString (config Field.darkMode)
  | cache_ttl => option_map Number_toString (config Field.cacheTtl)
  end.

(** In the order of the assignments in [generateUrl]. *)
Definition all : list t :=
  [ url; width; height; scale; mobile; full_page; element; format; quality;
    preset; device; wait_for; delay; block_ads; block_trackers;
    block_cookie_banners; block_chat_widgets; dark_mode; cache_ttl ].

(** In ascending order of the keys. *)
Definition sorted : list t :=
  [ block_ads; block_chat_widgets; block_cookie_banners; block_trackers;
    cache_ttl; dark_mode; delay; device; element; format; full_page; height;
    mobile; preset; quality; scale; url; wait_for; width ].

Definition eq_dec (p q : t) : {p = q} + {p <> q}.
Proof. decide equality. Defined.

End Param.

(** The kinds of values among the serialized options. *)
Inductive ParamKind : Type := text | number | boolean | choice.

Definition kind_of (p : Param.t) : ParamKind :=
  match p with
  | Param.url | Param.element => text
  | Param.width | Param.height | Param.scale | Param.quality | Param.delay
  | Param.cache_ttl => number
  | Param.mobile | Param.full_page | Param.block_ads | Param.block_trackers
  | Param.block_cookie_banners | Param.block_chat_widgets | Param.dark_mode =>
      boolean
  | Param.format | Param.preset | Param.device | Param.wait_for => choice
  end.

(** The Numbers whose string form uses no exponent: zero, and the finite
    ones with decimal exponent between -5 and 21 (magnitude from 1e-6 up to,
    not including, 1e21). *)
Definition plain_range (x : JSNumber) : Prop :=
  match x with
  | Zero _ => True
  | Finite _ _ n => -5 <= n <= 21
  | NaN | Infinity _ => False
  end.

(** [f] is one of the serialized options. *)
Definition is_signed (f : Field.t) : bool :=
  existsb (fun p => if Field.eq_dec (Param.field p) f then true else false) Param.all.

Definition is_defined (config : TakeOptionsConfig) (p : Param.t) : bool :=
  match Param.value config p with
  | Some _ => true
  | None => false
  end.

(** The canonical query string in the words of the specification: the
    defined parameters, taken in ascending key order, written [key=value]
    and joined by ["&"]. *)
Definition canonical_query (config : TakeOptionsConfig) : string :=
  join "&"
    (flat_map
       (fun p =>
          match Param.value config p with
          | Some v => [Param.key p ++ "=" ++ v]
          | None => []
          end)
       Param.sorted).

(** Strictly ascending byte-wise lexicographic order. *)
Definition string_lt (x y : string) : Prop := String.ltb x y = true.

(** [s.slice(n)] *)
Fixpoint drop (n : nat) (s : string) : string :=
  match n, s with
  | S n', String _ r => drop n' r
  | _, _ => s
  end.

(** The signature component of a signed URL: its last 64 characters. *)
Definition signature_of (url : string) : string :=
  drop (String.length url - 64) url.

(** Two different messages with the same HMAC under [key]. *)
Definition hmac_collision (key m1 m2 : string) : Prop :=
  m1 <> m2 /\ createHmac_sha256_hex key m1 = createHmac_sha256_hex key m2.

Definition test_client : Client :=
  {| apiKey := "rs_live_test123";
     baseUrl := DEFAULT_BASE_URL;
     timeout := DEFAULT_TIMEOUT |}.

(* ================================================================= *)
(** ** Payload shapes *)

(** [ToPrimitive] can convert the value: no object met on the way through
    nested arrays has an own [toString] member. *)
Fixpoint convertible (v : JSON) : bool :=
  match v with
  | JArray items => forallb convertible items
  | JObject members => negb (has_own "toString" members)
  | _ => true
  end.

(** The event types [parseWebhook] knows. *)
Definition known_event (ev : string) : bool :=
  String.eqb ev "screenshot.completed" || String.eqb ev "screenshot.failed"
  || String.eqb ev "batch.completed" || String.eqb ev "batch.failed".

(** Stand-ins for [JSON.parse] and [Date.parse] on inputs that never reach
    them. *)
Definition unused_JSON_parse (text : string) : Result JSON := Throw SyntaxError.
Definition unused_Date_parse (text : string) : Date := None.

(** An event of a type this SDK does not know, whose timestamp is an
    object with a [toString] member. *)
Definition odd_timestamp_event : JSON :=
  JObject [ ("event", JString "screenshot.queued");
            ("id", JString "req_abc123");
            ("timestamp", JObject [("toString", JNumber (Finite false 1 1))]) ].

(** A completed-screenshot event without its [data] member. *)
Definition event_without_data : JSON :=
  JObject [ ("event", JString "screenshot.completed");
            ("id", JString "req_abc123");
            ("timestamp", JString "2024-01-18T12:00:00Z") ].

(** An event of an unknown type. *)
Definition unknown_event : JSON :=
  JObject [ ("event", JString "screenshot.queued");
            ("id", JString "req_abc123");
            ("timestamp", JString "2024-01-18T12:00:00Z");
            ("data", JObject [("url", JString "https://example.com")]) ].

(* ================================================================= *)
(** ** Shapes of timestamp strings *)

Definition strip_sign (s : string) : string :=
  match s with
  | String "-" r => r
  | String "+" r => r
  | _ => s
  end.

(** After white space and an optional sign, the string starts with a
    decimal digit. *)
Definition has_integer_prefix (s : string) : bool :=
  starts_with_digit (strip_sign (trim_start s)).

Fixpoint all_digits (s : string) : bool :=
  match s with
  | EmptyString => true
  | String c r => is_digit c && all_digits r
  end.

(** The part of [s] after its leading digits. *)
Fixpoint after_digits (s : string) : string :=
  match s with
  | EmptyString => s
  | String c r => if is_digit c then after_digits r else s
  end.

(** An integer numeral: an optional sign and one or more digits. *)
Definition is_integer_numeral (s : string) : bool :=
  let body := strip_sign s in
  starts_with_digit body && all_digits body.

(** A decimal numeral: an integer numeral, optionally followed by a point
    and one or more digits. *)
Definition is_decimal_numeral (s : string) : bool :=
  let body := strip_sign s in
  starts_with_digit body &&
  match after_digits body with
  | EmptyString => true
  | String "." frac => starts_with_digit frac && all_digits frac
  | _ => false
  end.

(** [String(t)] for an integer [t]. *)
Definition String_of_integer (t : Z) : string := String_integral (Some t).

(** The payload of the tests: a completed screenshot. *)
Definition sample_payload : string :=
  "{" ++ dquote ++ "event" ++ dquote ++ ":" ++ dquote ++ "screenshot.completed"
  ++ dquote ++ "," ++ dquote ++ "id" ++ dquote ++ ":" ++ dquote ++ "req_abc123"
  ++ dquote ++ "}".

Definition sample_secret : string := "whsec_test_secret_key".

(* ================================================================= *)
(** ** Auxiliary definitions used in the proofs *)

Definition is_digit_value (d : Z) : Prop := 0 <= d < 10.

(** Value of a digit list read after the value [acc]. *)
Definition digits_value (acc : Z) (ds : list Z) : Z :=
  fold_left (fun a d => 10 * a + d) ds acc.

Definition entries (config : TakeOptionsConfig) (l : list Param.t) : StringRecord :=
  flat_map
    (fun p =>
       match Param.value config p with
       | Some v => [(Param.key p, v)]
       | None => []
       end)
    l.

Fixpoint nodupb (l : list string) : bool :=
  match l with
  | [] => true
  | x :: r => negb (existsb (String.eqb x) r) && nodupb r
  end.

Definition string_le (x y : string) : Prop := is_true (String.leb x y).

(** Every element followed by an ampersand. *)
Fixpoint terminated (l : list string) : string :=
  match l with
  | [] => ""
  | x :: r => x ++ "&" ++ terminated r
  end.

Definition pieces (config : TakeOptionsConfig) (l : list Param.t) : list string :=
  flat_map
    (fun p =>
       match Param.value config p with
       | Some v => [Param.key p ++ "=" ++ v]
       | None => []
       end) l.

(** Induction on JSON values, through arrays. *)
Fixpoint JSON_array_ind (P : JSON -> Prop)
    (Hnull : P JNull) (Hbool : forall b, P (JBool b))
    (Hnumber : forall n, P (JNumber n)) (Hstring : forall s, P (JString s))
    (Harray : forall items, Forall P items -> P (JArray items))
    (Hobject : forall members, P (JObject members))
    (v : JSON) : P v :=
  match v with
  | JNull => Hnull
  | JBool b => Hbool b
  | JNumber n => Hnumber n
  | JString s => Hstring s
  | JArray items =>
      Harray items
        ((fix all (l : list JSON) : Forall P l :=
            match l with
            | [] => Forall_nil P
            | x :: r =>
                Forall_cons x
                  (JSON_array_ind P Hnull Hbool Hnumber Hstring Harray Hobject x)
                  (all r)
            end) items)
  | JObject members => Hobject members
  end.

(** The conversion of a list of array elements, as [element_toString]
    performs it. *)
Fixpoint elements_toString (l : list JSON) : Result (list string) :=
  match l with
  | [] => Ok []
  | x :: r =>
      sx <- element_toString x ;;
      sr <- elements_toString r ;;
      Ok (sx :: sr)
  end.

(* ================================================================= *)
(** * Further parts of the SDK

    [extractWebhookHeaders], the [TakeOptions] builder with [toParams] and
    [toQueryString], [RenderScreenshotError], [Client.request] with the
    calls built on it, and [CacheManager.get]. *)

(* ================================================================= *)
(** ** Header collections and [extractWebhookHeaders] *)

(** [o[k]] on an object held as its members in insertion order: the first
    member named [k]; [None] is [undefined]. *)
Fixpoint member {A : Type} (k : string) (o : list (string * A)) : option A :=
  match o with
  | [] => None
  | (k', v) :: r => if String.eqb k' k then Some v else member k r
  end.

(** [c.toLowerCase()] on ASCII letters. *)
Definition lower_ascii (c : ascii) : ascii :=
  let b := byte_of_ascii c in
  if (65 <=? b) && (b <=? 90) then ascii_of_byte (b + 32) else c.

(** [s.toLowerCase()], for the ASCII names it is applied to. *)
Fixpoint toLowerCase (s : string) : string :=
  match s with
  | EmptyString => EmptyString
  | String c r => String (lower_ascii c) (toLowerCase r)
  end.

(** A header of a plain object: one string or an array of strings.  A
    member whose value is [undefined] reads like a missing one and is left
    out. *)
Inductive HeaderValue : Type :=
| OneValue (v : string)
| ManyValues (vs : list string).

Definition PlainHeaders : Type := list (string * HeaderValue).

(** A [Headers] object of the fetch API: its header list. *)
Definition Headers : Type := list (string * string).

(** [headers.get(name)]: the values of the headers whose name matches
    [name] without regard to case, joined by a comma and a space; [None] is
    [null]. *)
Definition Headers_get (name : string) (h : Headers) : option string :=
  match
    map snd
      (filter (fun e => String.eqb (toLowerCase (fst e)) (toLowerCase name)) h)
  with
  | [] => None
  | vs => Some (join ", " vs)
  end.

Definition getHeader (headers : PlainHeaders + Headers) (name : string) : string :=
  match headers with
  | inr h => nullish (Headers_get name h) ""
  | inl o =>
      let value :=
        match member name o with
        | Some v => Some v
        | None => member (toLowerCase name) o
        end in
      match value with
      | Some (ManyValues vs) => nullish (hd_error vs) ""
      | Some (OneValue v) => v
      | None => ""
      end
  end.

Module WebhookHeaders.
Record t : Type := {
  signature : string;
  timestamp : string
}.
End WebhookHeaders.

Definition extractWebhookHeaders (headers : PlainHeaders + Headers)
  : WebhookHeaders.t :=
  {| WebhookHeaders.signature := getHeader headers "X-Webhook-Signature";
     WebhookHeaders.timestamp := getHeader headers "X-Webhook-Timestamp" |}.

(** The header [name] is nowhere in the collection: for a plain object,
    under neither spelling the lookup tries. *)
Definition header_absent (headers : PlainHeaders + Headers) (name : string) : Prop :=
  match headers with
  | inl o => member name o = None /\ member (toLowerCase name) o = None
  | inr h => Headers_get name h = None
  end.

(** The collection delivers [v] for [name]: as the string under the exact
    name, as the first element of an array under it, the same under the
    lower-case name when the exact one is missing, or as the value of a
    [Headers] object. *)
Definition header_is (headers : PlainHeaders + Headers) (name v : string) : Prop :=
  match headers with
  | inl o =>
      let delivers hv :=
        hv = OneValue v \/ exists rest, hv = ManyValues (v :: rest) in
      (exists hv, member name o = Some hv /\ delivers hv)
      \/ (member name o = None
          /\ exists hv, member (toLowerCase name) o = Some hv /\ delivers hv)
  | inr h => Headers_get name h = Some v
  end.

(* ================================================================= *)
(** ** The fluent builder ([options.ts]) *)

Module Builder.

(** [new TakeOptions(config)]: the builder holds a copy of [config]. *)
Definition make (config : TakeOptionsConfig) : TakeOptions :=
  {| builder_config := config |}.

(** [new TakeOptions({ ...this.config, f: value })] *)
Definition set (f : Field.t) (value : Field.type f) (this : TakeOptions)
  : TakeOptions :=
  make (with_field f (Some value) (builder_config this)).

(** A parameter declared [value = true]. *)
Definition or_true (value : option bool) : bool := nullish value true.

Definition url (u : string) : TakeOptions :=
  make (with_field Field.url (Some u) empty_config).
Definition html (h : string) : TakeOptions :=
  make (with_field Field.html (Some h) empty_config).
Definition from (config : TakeOptionsConfig) : TakeOptions := make config.

(* Viewport *)
Definition width (value : JSNumber) := set Field.width value.
Definition height (value : JSNumber) := set Field.height value.
Definition scale (value : JSNumber) := set Field.scale value.
Definition mobile (value : option bool) := set Field.mobile (or_true value).
(* Capture *)
Definition fullPage (value : option bool) := set Field.fullPage (or_true value).
Definition element (selector : string) := set Field.element selector.
Definition format (value : ImageFormat.t) := set Field.format value.
Definition quality (value : JSNumber) := set Field.quality value.
(* Wait *)
Definition waitFor (value : WaitCondition.t) := set Field.waitFor value.
Definition delay (value : JSNumber) := set Field.delay value.
Definition waitForSelector (selector : string) := set Field.waitForSelector selector.
Definition waitForTimeout (value : JSNumber) := set Field.waitForTimeout value.
(* Presets *)
Definition preset (value : Preset.t) := set Field.preset value.
Definition device (value : Device.t) := set Field.device value.
(* Blocking *)
Definition blockAds (value : option bool) := set Field.blockAds (or_true value).
Definition blockTrackers (value : option bool) :=
  set Field.blockTrackers (or_true value).
Definition blockCookieBanners (value : option bool) :=
  set Field.blockCookieBanners (or_true value).
Definition blockChatWidgets (value : option bool) :=
  set Field.blockChatWidgets (or_true value).
Definition blockUrls (patterns : list string) := set Field.blockUrls patterns.
Definition blockResources (types : list BlockableResource.t) :=
  set Field.blockResources types.
(* Page manipulation *)
Definition injectScript (script : string) := set Field.injectScript script.
Definition injectStyle (style : string) := set Field.injectStyle style.
Definition click (selector : string) := set Field.click selector.
Definition hide (selectors : list string) := set Field.hide selectors.
Definition remove (selectors : list string) := set Field.remove selectors.
(* Browser emulation *)
Definition darkMode (value : option bool) := set Field.darkMode (or_true value).
Definition reducedMotion (value : option bool) :=
  set Field.reducedMotion (or_true value).
Definition mediaType (value : MediaType.t) := set Field.mediaType value.
Definition userAgent (value : string) := set Field.userAgent value.
Definition timezone (value : string) := set Field.timezone value.
Definition locale (value : string) := set Field.locale value.
Definition geolocation (lat long : JSNumber) (acc : option JSNumber) :=
  set Field.geolocation
    {| latitude := lat; longitude := long; accuracy := acc |}.
(* Network *)
Definition headers (value : list (string * string)) := set Field.headers value.
Definition cookies (value : list Cookie) := set Field.cookies value.
Definition authBasic (user pass : string) :=
  set Field.authBasic {| username := user; password := pass |}.
Definition authBearer (token : string) := set Field.authBearer token.
Definition bypassCsp (value : option bool) := set Field.bypassCsp (or_true value).
(* Cache *)
Definition cacheTtl (value : JSNumber) := set Field.cacheTtl value.
Definition cacheRefresh (value : option bool) :=
  set Field.cacheRefresh (or_true value).
(* PDF options *)
Definition pdfPaperSize (value : PdfPaperSize.t) := set Field.pdfPaperSize value.
Definition pdfWidth (value : string) := set Field.pdfWidth value.
Definition pdfHeight (value : string) := set Field.pdfHeight value.
Definition pdfLandscape (value : option bool) :=
  set Field.pdfLandscape (or_true value).
Definition pdfMargin (value : string) := set Field.pdfMargin value.
Definition pdfMarginTop (value : string) := set Field.pdfMarginTop value.
Definition pdfMarginRight (value : string) := set Field.pdfMarginRight value.
Definition pdfMarginBottom (value : string) := set Field.pdfMarginBottom value.
Definition pdfMarginLeft (value : string) := set Field.pdfMarginLeft value.
Definition pdfScale (value : JSNumber) := set Field.pdfScale value.
Definition pdfPrintBackground (value : option bool) :=
  set Field.pdfPrintBackground (or_true value).
Definition pdfPageRanges (value : string) := set Field.pdfPageRanges value.
Definition pdfHeader (value : string) := set Field.pdfHeader value.
Definition pdfFooter (value : string) := set Field.pdfFooter value.
Definition pdfFitOnePage (value : option bool) :=
  set Field.pdfFitOnePage (or_true value).
Definition pdfPreferCssPageSize (value : option bool) :=
  set Field.pdfPreferCssPageSize (or_true value).
(* Storage *)
Definition storageEnabled (value : option bool) :=
  set Field.storageEnabled (or_true value).
Definition storagePath (value : string) := set Field.storagePath value.
Definition storageAcl (value : StorageAcl.t) := set Field.storageAcl value.

End Builder.

(* ================================================================= *)
(** ** Option values as JSON *)

Definition BlockableResource_to_string (x : BlockableResource.t) : string :=
  match x with
  | BlockableResource.font => "font"
  | BlockableResource.media => "media"
  | BlockableResource.image => "image"
  | BlockableResource.script => "script"
  | BlockableResource.stylesheet => "stylesheet"
  end.

Definition MediaType_to_string (x : MediaType.t) : string :=
  match x with
  | MediaType.screen => "screen"
  | MediaType.print => "print"
  end.

Definition StorageAcl_to_string (x : StorageAcl.t) : string :=
  match x with
  | StorageAcl.public_read => "public-read"
  | StorageAcl.private => "private"
  end.

Definition PdfPaperSize_to_string (x : PdfPaperSize.t) : string :=
  match x with
  | PdfPaperSize.a0 => "a0" | PdfPaperSize.a1 => "a1" | PdfPaperSize.a2 => "a2"
  | PdfPaperSize.a3 => "a3" | PdfPaperSize.a4 => "a4" | PdfPaperSize.a5 => "a5"
  | PdfPaperSize.a6 => "a6" | PdfPaperSize.letter => "letter"
  | PdfPaperSize.legal => "legal" | PdfPaperSize.tabloid => "tabloid"
  end.

Definition SameSite_to_string (x : SameSite.t) : string :=
  match x with
  | SameSite.Strict => "Strict"
  | SameSite.Lax => "Lax"
  | SameSite.None => "None"
  end.

(** A member that exists only when its value is defined. *)
Definition optional_member (k : string) (v : option JSON) : list (string * JSON) :=
  match v with
  | Some j => [(k, j)]
  | None => []
  end.

(** The objects below are the caller's own; their members are listed in
    the order of the interface declarations. *)
Definition Geolocation_json (g : Geolocation) : JSON :=
  JObject
    ([("latitude", JNumber (latitude g)); ("longitude", JNumber (longitude g))]
       ++ optional_member "accuracy" (option_map JNumber (accuracy g))).

Definition Cookie_json (c : Cookie) : JSON :=
  JObject
    ([("name", JString (cookie_name c)); ("value", JString (cookie_value c))]
       ++ optional_member "domain" (option_map JString (cookie_domain c))
       ++ optional_member "path" (option_map JString (cookie_path c))
       ++ optional_member "expires" (option_map JNumber (cookie_expires c))
       ++ optional_member "httpOnly" (option_map JBool (cookie_httpOnly c))
       ++ optional_member "secure" (option_map JBool (cookie_secure c))
       ++ optional_member "sameSite"
            (option_map (fun s => JString (SameSite_to_string s))
               (cookie_sameSite c))).

Definition BasicAuth_json (a : BasicAuth) : JSON :=
  JObject [("username", JString (username a)); ("password", JString (password a))].

Definition strings_json (l : list string) : JSON := JArray (map JString l).

Definition string_record_json (o : list (string * string)) : JSON :=
  JObject (map (fun kv => (fst kv, JString (snd kv))) o).

(* ================================================================= *)
(** ** [TakeOptions.toParams] *)

(** [o[k] = v] on an object held as its members: the value is replaced in
    place, or a new member is added at the end. *)
Fixpoint set_member {A : Type} (k : string) (v : A) (o : list (string * A))
  : list (string * A) :=
  match o with
  | [] => [(k, v)]
  | (k', v') :: r =>
      if String.eqb k' k then (k', v) :: r else (k', v') :: set_member k v r
  end.

(** [if (value !== undefined) params[k] = value] *)
Definition put (k : string) (value : option JSON) (params : list (string * JSON))
  : list (string * JSON) :=
  match value with
  | Some v => set_member k v params
  | None => params
  end.

(** The members copied by [{ ...(v ?? {}) }], for [v] undefined or an
    object. *)
Definition spread (v : option JSON) : list (string * JSON) :=
  match v with
  | Some (JObject members) => members
  | _ => []
  end.

(** [if (value !== undefined)
       params[group] = { ...(params[group] ?? {}), k: value }] *)
Definition put_in (group k : string) (value : option JSON)
    (params : list (string * JSON)) : list (string * JSON) :=
  match value with
  | Some v =>
      set_member group (JObject (set_member k v (spread (member group params))))
        params
  | None => params
  end.

Definition toParams (this : TakeOptions) : list (string * JSON) :=
  let config := builder_config this in
  let params : list (string * JSON) := [] in
  let params := put "url" (option_map JString (config Field.url)) params in
  let params := put "html" (option_map JString (config Field.html)) params in
  let params := put_in "viewport" "width"
                  (option_map JNumber (config Field.width)) params in
  let params := put_in "viewport" "height"
                  (option_map JNumber (config Field.height)) params in
  let params := put_in "viewport" "scale"
                  (option_map JNumber (config Field.scale)) params in
  let params := put_in "viewport" "mobile"
                  (option_map JBool (config Field.mobile)) params in
  let params := put "full_page"
                  (option_map JBool (config Field.fullPage)) params in
  let params := put "element"
                  (option_map JString (config Field.element)) params in
  let params := put "format"
                  (option_map (fun v => JString (ImageFormat.to_string v)) (config Field.format)) params in
  let params := put "quality"
                  (option_map JNumber (config Field.quality)) params in
  let params := put "wait_for"
                  (option_map (fun v => JString (WaitCondition.to_string v)) (config Field.waitFor)) params in
  let params := put "delay" (option_map JNumber (config Field.delay)) params in
  let params := put "wait_for_selector"
                  (option_map JString (config Field.waitForSelector)) params in
  let params := put "wait_for_timeout"
                  (option_map JNumber (config Field.waitForTimeout)) params in
  let params := put "preset"
                  (option_map (fun v => JString (Preset.to_string v)) (config Field.preset)) params in
  let params := put "device"
                  (option_map (fun v => JString (Device.to_string v)) (config Field.device)) params in
  let params := put "block_ads"
                  (option_map JBool (config Field.blockAds)) params in
  let params := put "block_trackers"
                  (option_map JBool (config Field.blockTrackers)) params in
  let params := put "block_cookie_banners"
                  (option_map JBool (config Field.blockCookieBanners)) params in
  let params := put "block_chat_widgets"
                  (option_map JBool (config Field.blockChatWidgets)) params in
  let params := put "block_urls"
                  (option_map strings_json (config Field.blockUrls)) params in
  let params := put "block_resources"
                  (option_map (fun v => JArray (map (fun r => JString (BlockableResource_to_string r)) v)) (config Field.blockResources)) params in
  let params := put "inject_script"
                  (option_map JString (config Field.injectScript)) params in
  let params := put "inject_style"
                  (option_map JString (config Field.injectStyle)) params in
  let params := put "click" (option_map JString (config Field.click)) params in
  let params := put "hide"
                  (option_map strings_json (config Field.hide)) params in
  let params := put "remove"
                  (option_map strings_json (config Field.remove)) params in
  let params := put "dark_mode"
                  (option_map JBool (config Field.darkMode)) params in
  let params := put "reduced_motion"
                  (option_map JBool (config Field.reducedMotion)) params in
  let params := put "media_type"
                  (option_map (fun v => JString (MediaType_to_string v)) (config Field.mediaType)) params in
  let params := put "user_agent"
                  (option_map JString (config Field.userAgent)) params in
  let params := put "timezone"
                  (option_map JString (config Field.timezone)) params in
  let params := put "locale"
                  (option_map JString (config Field.locale)) params in
  let params := put "geolocation"
                  (option_map Geolocation_json (config Field.geolocation)) params in
  let params := put "headers"
                  (option_map string_record_json (config Field.headers)) params in
  let params := put "cookies"
                  (option_map (fun v => JArray (map Cookie_json v)) (config Field.cookies)) params in
  let params := put "auth_basic"
                  (option_map BasicAuth_json (config Field.authBasic)) params in
  let params := put "auth_bearer"
                  (option_map JString (config Field.authBearer)) params in
  let params := put "bypass_csp"
                  (option_map JBool (config Field.bypassCsp)) params in
  let params := put "cache_ttl"
                  (option_map JNumber (config Field.cacheTtl)) params in
  let params := put "cache_refresh"
                  (option_map JBool (config Field.cacheRefresh)) params in
  let params := put_in "pdf" "paper_size"
                  (option_map (fun v => JString (PdfPaperSize_to_string v)) (config Field.pdfPaperSize)) params in
  let params := put_in "pdf" "width"
                  (option_map JString (config Field.pdfWidth)) params in
  let params := put_in "pdf" "height"
                  (option_map JString (config Field.pdfHeight)) params in
  let params := put_in "pdf" "landscape"
                  (option_map JBool (config Field.pdfLandscape)) params in
  let params := put_in "pdf" "margin"
                  (option_map JString (config Field.pdfMargin)) params in
  let params := put_in "pdf" "margin_top"
                  (option_map JString (config Field.pdfMarginTop)) params in
  let params := put_in "pdf" "margin_right"
                  (option_map JString (config Field.pdfMarginRight)) params in
  let params := put_in "pdf" "margin_bottom"
                  (option_map JString (config Field.pdfMarginBottom)) params in
  let params := put_in "pdf" "margin_left"
                  (option_map JString (config Field.pdfMarginLeft)) params in
  let params := put_in "pdf" "scale"
                  (option_map JNumber (config Field.pdfScale)) params in
  let params := put_in "pdf" "print_background"
                  (option_map JBool (config Field.pdfPrintBackground)) params in
  let params := put_in "pdf" "page_ranges"
                  (option_map JString (config Field.pdfPageRanges)) params in
  let params := put_in "pdf" "header"
                  (option_map JString (config Field.pdfHeader)) params in
  let params := put_in "pdf" "footer"
                  (option_map JString (config Field.pdfFooter)) params in
  let params := put_in "pdf" "fit_one_page"
                  (option_map JBool (config Field.pdfFitOnePage)) params in
  let params := put_in "pdf" "prefer_css_page_size"
                  (option_map JBool (config Field.pdfPreferCssPageSize)) params in
  let params := put_in "storage" "enabled"
                  (option_map JBool (config Field.storageEnabled)) params in
  let params := put_in "storage" "path"
                  (option_map JString (config Field.storagePath)) params in
  let params := put_in "storage" "acl"
                  (option_map (fun v => JString (StorageAcl_to_string v)) (config Field.storageAcl)) params in
  params.

(** Where [toParams] stores an option: at the top level, or inside a
    group object. *)
Inductive ParamPath : Type :=
| Top (k : string)
| Nested (group k : string).

Definition body_path (f : Field.t) : ParamPath :=
  match f with
  | Field.url => Top "url"
  | Field.html => Top "html"
  | Field.width => Nested "viewport" "width"
  | Field.height => Nested "viewport" "height"
  | Field.scale => Nested "viewport" "scale"
  | Field.mobile => Nested "viewport" "mobile"
  | Field.fullPage => Top "full_page"
  | Field.element => Top "element"
  | Field.format => Top "format"
  | Field.quality => Top "quality"
  | Field.waitFor => Top "wait_for"
  | Field.delay => Top "delay"
  | Field.waitForSelector => Top "wait_for_selector"
  | Field.waitForTimeout => Top "wait_for_timeout"
  | Field.preset => Top "preset"
  | Field.device => Top "device"
  | Field.blockAds => Top "block_ads"
  | Field.blockTrackers => Top "block_trackers"
  | Field.blockCookieBanners => Top "block_cookie_banners"
  | Field.blockChatWidgets => Top "block_chat_widgets"
  | Field.blockUrls => Top "block_urls"
  | Field.blockResources => Top "block_resources"
  | Field.injectScript => Top "inject_script"
  | Field.injectStyle => Top "inject_style"
  | Field.click => Top "click"
  | Field.hide => Top "hide"
  | Field.remove => Top "remove"
  | Field.darkMode => Top "dark_mode"
  | Field.reducedMotion => Top "reduced_motion"
  | Field.mediaType => Top "media_type"
  | Field.userAgent => Top "user_agent"
  | Field.timezone => Top "timezone"
  | Field.locale => Top "locale"
  | Field.geolocation => Top "geolocation"
  | Field.headers => Top "headers"
  | Field.cookies => Top "cookies"
  | Field.authBasic => Top "auth_basic"
  | Field.authBearer => Top "auth_bearer"
  | Field.bypassCsp => Top "bypass_csp"
  | Field.cacheTtl => Top "cache_ttl"
  | Field.cacheRefresh => Top "cache_refresh"
  | Field.pdfPaperSize => Nested "pdf" "paper_size"
  | Field.pdfWidth => Nested "pdf" "width"
  | Field.pdfHeight => Nested "pdf" "height"
  | Field.pdfLandscape => Nested "pdf" "landscape"
  | Field.pdfMargin => Nested "pdf" "margin"
  | Field.pdfMarginTop => Nested "pdf" "margin_top"
  | Field.pdfMarginRight => Nested "pdf" "margin_right"
  | Field.pdfMarginBottom => Nested "pdf" "margin_bottom"
  | Field.pdfMarginLeft => Nested "pdf" "margin_left"
  | Field.pdfScale => Nested "pdf" "scale"
  | Field.pdfPrintBackground => Nested "pdf" "print_background"
  | Field.pdfPageRanges => Nested "pdf" "page_ranges"
  | Field.pdfHeader => Nested "pdf" "header"
  | Field.pdfFooter => Nested "pdf" "footer"
  | Field.pdfFitOnePage => Nested "pdf" "fit_one_page"
  | Field.pdfPreferCssPageSize => Nested "pdf" "prefer_css_page_size"
  | Field.storageEnabled => Nested "storage" "enabled"
  | Field.storagePath => Nested "storage" "path"
  | Field.storageAcl => Nested "storage" "acl"
  end.

(** The JSON form of an option's value. *)
Definition encode (f : Field.t) : Field.type f -> JSON :=
  match f with
  | Field.url => JString
  | Field.html => JString
  | Field.width => JNumber
  | Field.height => JNumber
  | Field.scale => JNumber
  | Field.mobile => JBool
  | Field.fullPage => JBool
  | Field.element => JString
  | Field.format => (fun v => JString (ImageFormat.to_string v))
  | Field.quality => JNumber
  | Field.waitFor => (fun v => JString (WaitCondition.to_string v))
  | Field.delay => JNumber
  | Field.waitForSelector => JString
  | Field.waitForTimeout => JNumber
  | Field.preset => (fun v => JString (Preset.to_string v))
  | Field.device => (fun v => JString (Device.to_string v))
  | Field.blockAds => JBool
  | Field.blockTrackers => JBool
  | Field.blockCookieBanners => JBool
  | Field.blockChatWidgets => JBool
  | Field.blockUrls => strings_json
  | Field.blockResources => (fun v => JArray (map (fun r => JString (BlockableResource_to_string r)) v))
  | Field.injectScript => JString
  | Field.injectStyle => JString
  | Field.click => JString
  | Field.hide => strings_json
  | Field.remove => strings_json
  | Field.darkMode => JBool
  | Field.reducedMotion => JBool
  | Field.mediaType => (fun v => JString (MediaType_to_string v))
  | Field.userAgent => JString
  | Field.timezone => JString
  | Field.locale => JString
  | Field.geolocation => Geolocation_json
  | Field.headers => string_record_json
  | Field.cookies => (fun v => JArray (map Cookie_json v))
  | Field.authBasic => BasicAuth_json
  | Field.authBearer => JString
  | Field.bypassCsp => JBool
  | Field.cacheTtl => JNumber
  | Field.cacheRefresh => JBool
  | Field.pdfPaperSize => (fun v => JString (PdfPaperSize_to_string v))
  | Field.pdfWidth => JString
  | Field.pdfHeight => JString
  | Field.pdfLandscape => JBool
  | Field.pdfMargin => JString
  | Field.pdfMarginTop => JString
  | Field.pdfMarginRight => JString
  | Field.pdfMarginBottom => JString
  | Field.pdfMarginLeft => JString
  | Field.pdfScale => JNumber
  | Field.pdfPrintBackground => JBool
  | Field.pdfPageRanges => JString
  | Field.pdfHeader => JString
  | Field.pdfFooter => JString
  | Field.pdfFitOnePage => JBool
  | Field.pdfPreferCssPageSize => JBool
  | Field.storageEnabled => JBool
  | Field.storagePath => JString
  | Field.storageAcl => (fun v => JString (StorageAcl_to_string v))
  end.

Definition body_value (config : TakeOptionsConfig) (f : Field.t) : option JSON :=
  option_map (encode f) (config f).

(** The options in the order [toParams] visits them. *)
Definition body_fields : list Field.t :=
  [ Field.url; Field.html; Field.width; Field.height; Field.scale;
    Field.mobile; Field.fullPage; Field.element; Field.format;
    Field.quality; Field.waitFor; Field.delay; Field.waitForSelector;
    Field.waitForTimeout; Field.preset; Field.device; Field.blockAds;
    Field.blockTrackers; Field.blockCookieBanners; Field.blockChatWidgets;
    Field.blockUrls; Field.blockResources; Field.injectScript;
    Field.injectStyle; Field.click; Field.hide; Field.remove;
    Field.darkMode; Field.reducedMotion; Field.mediaType; Field.userAgent;
    Field.timezone; Field.locale; Field.geolocation; Field.headers;
    Field.cookies; Field.authBasic; Field.authBearer; Field.bypassCsp;
    Field.cacheTtl; Field.cacheRefresh; Field.pdfPaperSize; Field.pdfWidth;
    Field.pdfHeight; Field.pdfLandscape; Field.pdfMargin;
    Field.pdfMarginTop; Field.pdfMarginRight; Field.pdfMarginBottom;
    Field.pdfMarginLeft; Field.pdfScale; Field.pdfPrintBackground;
    Field.pdfPageRanges; Field.pdfHeader; Field.pdfFooter;
    Field.pdfFitOnePage; Field.pdfPreferCssPageSize; Field.storageEnabled;
    Field.storagePath; Field.storageAcl ].

(** [path] read back from a params object. *)
Definition read_path (path : ParamPath) (params : list (string * JSON))
  : option JSON :=
  match path with
  | Top k => member k params
  | Nested group k => member k (spread (member group params))
  end.

(** One step of [toParams]. *)
Definition body_step (config : TakeOptionsConfig) (params : list (string * JSON))
    (f : Field.t) : list (string * JSON) :=
  match body_path f with
  | Top k => put k (body_value config f) params
  | Nested group k => put_in group k (body_value config f) params
  end.

(** Writing at one path cannot disturb the other: the paths differ, and
    neither is the top-level member that holds the other's group. *)
Definition independent (p q : ParamPath) : bool :=
  match p, q with
  | Top a, Top b => negb (String.eqb a b)
  | Top a, Nested g _ => negb (String.eqb a g)
  | Nested g _, Top b => negb (String.eqb g b)
  | Nested g a, Nested h b => negb (String.eqb g h && String.eqb a b)
  end.

(** Every two distinct options of the list have independent paths. *)
Fixpoint pairwise_independent (l : list Field.t) : bool :=
  match l with
  | [] => true
  | f :: r =>
      forallb (fun g => independent (body_path g) (body_path f)) r
      && pairwise_independent r
  end.

(** Readers for the JSON forms of the structured option values. *)
Definition optional_string (v : option JSON) : option string :=
  match v with
  | Some (JString s) => Some s
  | _ => None
  end.

Definition optional_number (v : option JSON) : option JSNumber :=
  match v with
  | Some (JNumber n) => Some n
  | _ => None
  end.

Definition optional_bool (v : option JSON) : option bool :=
  match v with
  | Some (JBool b) => Some b
  | _ => None
  end.

Definition SameSite_of_string (s : string) : option SameSite.t :=
  if String.eqb s "Strict" then Some SameSite.Strict
  else if String.eqb s "Lax" then Some SameSite.Lax
  else if String.eqb s "None" then Some SameSite.None
  else None.

Definition Cookie_of_json (j : JSON) : option Cookie :=
  match j with
  | JObject m =>
      match member "name" m, member "value" m with
      | Some (JString n), Some (JString v) =>
          Some {| cookie_name := n;
                  cookie_value := v;
                  cookie_domain := optional_string (member "domain" m);
                  cookie_path := optional_string (member "path" m);
                  cookie_expires := optional_number (member "expires" m);
                  cookie_httpOnly := optional_bool (member "httpOnly" m);
                  cookie_secure := optional_bool (member "secure" m);
                  cookie_sameSite :=
                    match optional_string (member "sameSite" m) with
                    | Some s => SameSite_of_string s
                    | None => None
                    end |}
      | _, _ => None
      end
  | _ => None
  end.

Definition Geolocation_of_json (j : JSON) : option Geolocation :=
  match j with
  | JObject m =>
      match member "latitude" m, member "longitude" m with
      | Some (JNumber lat), Some (JNumber long) =>
          Some {| latitude := lat; longitude := long;
                  accuracy := optional_number (member "accuracy" m) |}
      | _, _ => None
      end
  | _ => None
  end.

(* ================================================================= *)
(** ** [URLSearchParams] and [TakeOptions.toQueryString] *)

(** The list of name-value pairs of a [URLSearchParams] object. *)
Definition URLSearchParams : Type := list (string * string).

(** [params.set(name, value)]: the first pair named [name] takes the
    value and the later ones are removed; without one, a pair is added. *)
Fixpoint usp_set (name value : string) (l : URLSearchParams) : URLSearchParams :=
  match l with
  | [] => [(name, value)]
  | (n, v) :: r =>
      if String.eqb n name
      then (n, value) :: filter (fun e => negb (String.eqb (fst e) name)) r
      else (n, v) :: usp_set name value r
  end.

(** [params.append(name, value)] *)
Definition usp_append (name value : string) (l : URLSearchParams)
  : URLSearchParams :=
  (l ++ [(name, value)])%list.

(** [if (value !== undefined) params.set(name, value)] *)
Definition usp_set_if_defined (name : string) (value : option string)
    (l : URLSearchParams) : URLSearchParams :=
  match value with
  | Some v => usp_set name v l
  | None => l
  end.

(** [if (values !== undefined)
       values.forEach((v) => { params.append(name, v); })] *)
Definition usp_append_each (name : string) (values : option (list string))
    (l : URLSearchParams) : URLSearchParams :=
  match values with
  | Some vs => fold_left (fun acc v => usp_append name v acc) vs l
  | None => l
  end.

(** Bytes the form-urlencoded serializer leaves as they are: [*], [-],
    [.], [_], digits and ASCII letters. *)
Definition form_unreserved (b : Z) : bool :=
  (b =? 0x2A) || (b =? 0x2D) || (b =? 0x2E) || (b =? 0x5F)
  || ((0x30 <=? b) && (b <=? 0x39))
  || ((0x41 <=? b) && (b <=? 0x5A))
  || ((0x61 <=? b) && (b <=? 0x7A)).

Definition upper_hex_digit (n : Z) : ascii :=
  if n <? 10 then ascii_of_byte (48 + n) else ascii_of_byte (55 + n).

(** The form-urlencoded byte serializer: a space becomes [+], a byte
    outside the unreserved ones becomes [%XX]. *)
Fixpoint form_encode (s : string) : string :=
  match s with
  | EmptyString => EmptyString
  | String c r =>
      let b := byte_of_ascii c in
      if b =? 0x20 then String "+" (form_encode r)
      else if form_unreserved b then String c (form_encode r)
      else
        String "%"
          (String (upper_hex_digit (Z.shiftr b 4))
             (String (upper_hex_digit (Z.land b 15)) (form_encode r)))
  end.

(** [params.toString()] *)
Definition usp_toString (l : URLSearchParams) : string :=
  join "&" (map (fun nv => form_encode (fst nv) ++ "=" ++ form_encode (snd nv)) l).

(** The pairs [toQueryString] collects. *)
Definition query_params (this : TakeOptions) : URLSearchParams :=
  let config := builder_config this in
  let params : URLSearchParams := [] in
  let params := usp_set_if_defined "url" (config Field.url) params in
  let params := usp_set_if_defined "width"
                  (option_map Number_toString (config Field.width)) params in
  let params := usp_set_if_defined "height"
                  (option_map Number_toString (config Field.height)) params in
  let params := usp_set_if_defined "scale"
                  (option_map Number_toString (config Field.scale)) params in
  let params := usp_set_if_defined "mobile"
                  (option_map Boolean_toString (config Field.mobile)) params in
  let params := usp_set_if_defined "full_page"
                  (option_map Boolean_toString (config Field.fullPage)) params in
  let params := usp_set_if_defined "element" (config Field.element) params in
  let params := usp_set_if_defined "format"
                  (option_map ImageFormat.to_string (config Field.format)) params in
  let params := usp_set_if_defined "quality"
                  (option_map Number_toString (config Field.quality)) params in
  let params := usp_set_if_defined "wait_for"
                  (option_map WaitCondition.to_string (config Field.waitFor)) params in
  let params := usp_set_if_defined "delay"
                  (option_map Number_toString (config Field.delay)) params in
  let params := usp_set_if_defined "wait_for_selector" (config Field.waitForSelector) params in
  let params := usp_set_if_defined "wait_for_timeout"
                  (option_map Number_toString (config Field.waitForTimeout)) params in
  let params := usp_set_if_defined "preset"
                  (option_map Preset.to_string (config Field.preset)) params in
  let params := usp_set_if_defined "device"
                  (option_map Device.to_string (config Field.device)) params in
  let params := usp_set_if_defined "block_ads"
                  (option_map Boolean_toString (config Field.blockAds)) params in
  let params := usp_set_if_defined "block_trackers"
                  (option_map Boolean_toString (config Field.blockTrackers)) params in
  let params := usp_set_if_defined "block_cookie_banners"
                  (option_map Boolean_toString (config Field.blockCookieBanners)) params in
  let params := usp_set_if_defined "block_chat_widgets"
                  (option_map Boolean_toString (config Field.blockChatWidgets)) params in
  let params := usp_append_each "block_urls" (config Field.blockUrls) params in
  let params := usp_append_each "block_resources"
                  (option_map (map BlockableResource_to_string) (config Field.blockResources))
                  params in
  let params := usp_set_if_defined "dark_mode"
                  (option_map Boolean_toString (config Field.darkMode)) params in
  let params := usp_set_if_defined "reduced_motion"
                  (option_map Boolean_toString (config Field.reducedMotion)) params in
  let params := usp_set_if_defined "media_type"
                  (option_map MediaType_to_string (config Field.mediaType)) params in
  let params := usp_set_if_defined "user_agent" (config Field.userAgent) params in
  let params := usp_set_if_defined "timezone" (config Field.timezone) params in
  let params := usp_set_if_defined "locale" (config Field.locale) params in
  let params := usp_set_if_defined "cache_ttl"
                  (option_map Number_toString (config Field.cacheTtl)) params in
  let params := usp_set_if_defined "cache_refresh"
                  (option_map Boolean_toString (config Field.cacheRefresh)) params in
  params.

Definition toQueryString (this : TakeOptions) : string :=
  usp_toString (query_params this).

(** The characters a query string may hold: the unreserved ones and the
    four the serializer adds. *)
Definition query_char (c : ascii) : bool :=
  let b := byte_of_ascii c in
  form_unreserved b || (b =? 0x25) || (b =? 0x2B) || (b =? 0x3D) || (b =? 0x26).

Fixpoint all_chars (ok : ascii -> bool) (s : string) : bool :=
  match s with
  | EmptyString => true
  | String c r => ok c && all_chars ok r
  end.

(** One statement of [toQueryString]: a conditional [set], or a
    conditional [forEach] of [append]s. *)
Inductive QueryStep : Type :=
| SetStep (name : string) (value : option string)
| AppendStep (name : string) (values : option (list string)).

Definition step_name (s : QueryStep) : string :=
  match s with
  | SetStep name _ => name
  | AppendStep name _ => name
  end.

Definition run_step (l : URLSearchParams) (s : QueryStep) : URLSearchParams :=
  match s with
  | SetStep name value => usp_set_if_defined name value l
  | AppendStep name values => usp_append_each name values l
  end.

(** The statements of [toQueryString], in order. *)
Definition query_steps (config : TakeOptionsConfig) : list QueryStep :=
  [ SetStep "url" (config Field.url);
    SetStep "width" (option_map Number_toString (config Field.width));
    SetStep "height" (option_map Number_toString (config Field.height));
    SetStep "scale" (option_map Number_toString (config Field.scale));
    SetStep "mobile" (option_map Boolean_toString (config Field.mobile));
    SetStep "full_page" (option_map Boolean_toString (config Field.fullPage));
    SetStep "element" (config Field.element);
    SetStep "format" (option_map ImageFormat.to_string (config Field.format));
    SetStep "quality" (option_map Number_toString (config Field.quality));
    SetStep "wait_for" (option_map WaitCondition.to_string (config Field.waitFor));
    SetStep "delay" (option_map Number_toString (config Field.delay));
    SetStep "wait_for_selector" (config Field.waitForSelector);
    SetStep "wait_for_timeout"
      (option_map Number_toString (config Field.waitForTimeout));
    SetStep "preset" (option_map Preset.to_string (config Field.preset));
    SetStep "device" (option_map Device.to_string (config Field.device));
    SetStep "block_ads" (option_map Boolean_toString (config Field.blockAds));
    SetStep "block_trackers"
      (option_map Boolean_toString (config Field.blockTrackers));
    SetStep "block_cookie_banners"
      (option_map Boolean_toString (config Field.blockCookieBanners));
    SetStep "block_chat_widgets"
      (option_map Boolean_toString (config Field.blockChatWidgets));
    AppendStep "block_urls" (config Field.blockUrls);
    AppendStep "block_resources"
      (option_map (map BlockableResource_to_string) (config Field.blockResources));
    SetStep "dark_mode" (option_map Boolean_toString (config Field.darkMode));
    SetStep "reduced_motion"
      (option_map Boolean_toString (config Field.reducedMotion));
    SetStep "media_type" (option_map MediaType_to_string (config Field.mediaType));
    SetStep "user_agent" (config Field.userAgent);
    SetStep "timezone" (config Field.timezone);
    SetStep "locale" (config Field.locale);
    SetStep "cache_ttl" (option_map Number_toString (config Field.cacheTtl));
    SetStep "cache_refresh"
      (option_map Boolean_toString (config Field.cacheRefresh)) ].


(* ================================================================= *)
(** ** [RenderScreenshotError] ([errors.ts]) *)

(** The error codes that may be retried. *)
Definition RETRYABLE_ERRORS : list string :=
  [ "rate_limited"; "timeout"; "render_failed"; "internal_error" ].

(** [set.has(x)] on a Set of strings. *)
Definition Set_has (s : list string) (x : string) : bool :=
  existsb (String.eqb x) s.

(** [a ?? b] where [b] may be undefined as well. *)
Definition nullish_option {A} (a b : option A) : option A :=
  match a with
  | Some x => Some x
  | None => b
  end.

Module RenderScreenshotError.

(** [httpStatus] is the integer status of a response.  [retryAfter] is
    undefined ([None]) or a Number as [parseInt] gives it, [Some None] being
    NaN; it is stored and never computed with. *)
Record t : Type := {
  httpStatus : Z;
  code : string;
  message : string;
  retryable : bool;
  retryAfter : option (option Z)
}.

(** [new RenderScreenshotError(httpStatus, code, message, retryAfter)] *)
Definition make (status : Z) (c m : string) (retry : option (option Z)) : t :=
  {| httpStatus := status;
     code := c;
     message := m;
     retryable := Set_has RETRYABLE_ERRORS c;
     retryAfter := retry |}.

(** The [body] argument of [fromResponse]. *)
Record Params : Type := {
  params_code : option string;
  params_message : option string;
  params_error : option string
}.

Definition fromResponse (status : Z) (body : Params) (retry : option (option Z))
  : t :=
  let c := nullish (params_code body) "internal_error" in
  let m := nullish (nullish_option (params_message body) (params_error body))
             "An unknown error occurred" in
  make status c m retry.

Definition invalidUrl (url : string) : t :=
  make 400 "invalid_url" ("Invalid URL provided: " ++ url) None.

Definition invalidRequest (m : string) : t := make 400 "invalid_request" m None.

Definition unauthorized : t :=
  make 401 "unauthorized" "Invalid or missing API key" None.

Definition rateLimited (retry : option (option Z)) : t :=
  make 429 "rate_limited"
    "Rate limit exceeded. Please wait before making more requests." retry.

Definition timeout : t := make 408 "timeout" "Screenshot request timed out" None.

Definition internal (m : option string) : t :=
  make 500 "internal_error" (nullish m "An internal error occurred") None.

End RenderScreenshotError.

(* ================================================================= *)
(** ** [Client.request] and the calls built on it ([client.ts]) *)

(** What the platform ([fetch], reading a body) may throw: an [Error]
    object with its [name] and [message], or some other value.  It never
    throws a [RenderScreenshotError]. *)
Inductive Failure : Type :=
| ErrorObject (name message : string)
| OtherValue.

(** The value a promise of the SDK is rejected with. *)
Inductive Rejection : Type :=
| ApiError (e : RenderScreenshotError.t)   (* instanceof RenderScreenshotError *)
| Foreign (f : Failure).

(** A settled promise. *)
Definition Promise (A : Type) : Type := (Rejection + A)%type.

Module Response.

(** A response of [fetch]: its status, its headers, and what each way of
    reading its body settles to. *)
Record t : Type := {
  status : Z;
  headers : Headers;
  json : Failure + JSON;
  text : Failure + string;
  arrayBuffer : Failure + string
}.

(** [response.ok]: the status is in the range 200 to 299. *)
Definition ok (r : t) : bool := (200 <=? status r) && (status r <=? 299).

End Response.

(** [hay.includes(needle)] *)
Fixpoint includes (needle hay : string) : bool :=
  String.prefix needle hay
  || match hay with
     | EmptyString => false
     | String _ r => includes needle r
     end.

(** The value [parseResponseBody] resolves to. *)
Inductive Body : Type :=
| ParsedBody (j : JSON)
| TextBody (s : string).

Definition parseResponseBody (response : Response.t) : Failure + Body :=
  let contentType :=
    nullish (Headers_get "content-type" (Response.headers response)) "" in
  if includes "application/json" contentType then
    match Response.json response with
    | inl f => inl f
    | inr j => inr (ParsedBody j)
    end
  else
    match Response.text response with
    | inl f => inl f
    | inr s => inr (TextBody s)
    end.

(** The members of [errorBody]: those of the body when it is an object,
    none otherwise (an array has none of the three names read below). *)
Definition errorBody_of (body : Body) : list (string * JSON) :=
  match body with
  | ParsedBody (JObject members) => members
  | _ => []
  end.

(** [handleApiError] never returns: the result is what it throws. *)
Definition handleApiError (response : Response.t) : Rejection :=
  let retryAfterHeader := Headers_get "retry-after" (Response.headers response) in
  let retryAfter := option_map parseInt retryAfterHeader in
  match parseResponseBody response with
  | inl f => Foreign f
  | inr body =>
      let errorBody := errorBody_of body in
      let errorParams :=
        {| RenderScreenshotError.params_code :=
             optional_string (own_property "code" errorBody);
           RenderScreenshotError.params_message :=
             optional_string (own_property "message" errorBody);
           RenderScreenshotError.params_error :=
             optional_string (own_property "error" errorBody) |} in
      ApiError
        (RenderScreenshotError.fromResponse (Response.status response)
           errorParams retryAfter)
  end.

Module ResponseType.
Inductive t := json | buffer.
End ResponseType.

(** The [options] argument of [request]. *)
Record RequestOptions : Type := {
  options_body : option JSON;
  options_headers : option StringRecord;
  options_responseType : option ResponseType.t
}.

(** The default [options = {}]. *)
Definition no_options : RequestOptions :=
  {| options_body := None; options_headers := None; options_responseType := None |}.

(** The second argument of [fetch].  The abort signal is left out: what
    the timer does shows in the outcome of [fetch] and of reading the body,
    which are rejected with an [Error] named [AbortError]. *)
Record RequestInit : Type := {
  init_method : string;
  init_headers : StringRecord;
  init_body : option string
}.

(** [{ ...o, ...source }]: the members of [source] assigned in order
    (the names are not array indices). *)
Definition spread_into (o : StringRecord) (source : option StringRecord)
  : StringRecord :=
  match source with
  | Some members => fold_left (fun acc kv => assign (fst kv) (snd kv) acc) members o
  | None => o
  end.

(** What [request] resolves to: the parsed JSON, or the bytes. *)
Inductive Reply : Type :=
| JsonReply (j : JSON)
| BufferReply (bytes : string).

Section Requests.

(** [fetch] and [JSON.stringify] are taken as given. *)
Variable fetch : string -> RequestInit -> Failure + Response.t.
Variable JSON_stringify : JSON -> string.

Definition request_url (this : Client) (path : string) : string :=
  baseUrl this ++ "/" ++ API_VERSION ++ path.

Definition request_headers (this : Client) (options : RequestOptions)
  : StringRecord :=
  let headers :=
    spread_into
      [ ("Authorization", "Bearer " ++ apiKey this);
        ("User-Agent", "renderscreenshot-node/1.0.0") ]
      (options_headers options) in
  match options_body options with
  | Some _ => assign "Content-Type" "application/json" headers
  | None => headers
  end.

Definition fetchOptions (this : Client) (method : string)
    (options : RequestOptions) : RequestInit :=
  {| init_method := method;
     init_headers := request_headers this options;
     init_body := option_map JSON_stringify (options_body options) |}.

(** The [try] block of [request]. *)
Definition request_try (this : Client) (method path : string)
    (options : RequestOptions) : Promise Reply :=
  match fetch (request_url this path) (fetchOptions this method options) with
  | inl f => inl (Foreign f)
  | inr response =>
      if negb (Response.ok response) then inl (handleApiError response)
      else
        match options_responseType options with
        | Some ResponseType.buffer =>
            match Response.arrayBuffer response with
            | inl f => inl (Foreign f)
            | inr bytes => inr (BufferReply bytes)
            end
        | _ =>
            match Response.json response with
            | inl f => inl (Foreign f)
            | inr j => inr (JsonReply j)
            end
        end
  end.

(** The [catch] block of [request]. *)
Definition request_catch (error : Rejection) : Rejection :=
  match error with
  | ApiError e => ApiError e
  | Foreign (ErrorObject name message) =>
      if String.eqb name "AbortError" then ApiError RenderScreenshotError.timeout
      else ApiError (RenderScreenshotError.internal (Some message))
  | Foreign OtherValue =>
      ApiError (RenderScreenshotError.internal (Some "Unknown error"))
  end.

Definition request (this : Client) (method path : string)
    (options : RequestOptions) : Promise Reply :=
  match request_try this method path options with
  | inr reply => inr reply
  | inl error => inl (request_catch error)
  end.

(** [options instanceof TakeOptions ? options.toParams()
                                   : TakeOptions.from(options).toParams()] *)
Definition params_of (options : TakeOptions + TakeOptionsConfig)
  : list (string * JSON) :=
  match options with
  | inl o => toParams o
  | inr config => toParams (Builder.from config)
  end.

Definition take (this : Client) (options : TakeOptions + TakeOptionsConfig)
  : Promise Reply :=
  let params := params_of options in
  request this "POST" "/screenshot"
    {| options_body := Some (JObject params);
       options_headers := None;
       options_responseType := Some ResponseType.buffer |}.

(** The body of [takeJson]: [{ ...params, response_type: 'json' }]. *)
Definition takeJson_body (options : TakeOptions + TakeOptionsConfig)
  : list (string * JSON) :=
  let params := params_of options in
  set_member "response_type" (JString "json") params.

Definition takeJson (this : Client) (options : TakeOptions + TakeOptionsConfig)
  : Promise Reply :=
  request this "POST" "/screenshot"
    {| options_body := Some (JObject (takeJson_body options));
       options_headers := None;
       options_responseType := None |}.

(** An item of the array given to [batch]: a URL, or a request with its
    own options. *)
Record BatchRequestItem : Type := {
  item_url : string;
  item_options : option TakeOptionsConfig
}.

(** [arr.every((item) => typeof item === 'string')] *)
Definition isUrlArray (arr : list (string + BatchRequestItem)) : bool :=
  forallb (fun item => match item with inl _ => true | inr _ => false end) arr.

(** [{ url: req.url, ...TakeOptions.from(req.options ?? {}).toParams() }];
    on a string item both [req.url] and [req.options] are undefined. *)
Definition batch_request (req : string + BatchRequestItem) : JSON :=
  let url : option JSON :=
    match req with
    | inl _ => None
    | inr item => Some (JString (item_url item))
    end in
  let options : TakeOptionsConfig :=
    match req with
    | inl _ => empty_config
    | inr item => nullish (item_options item) empty_config
    end in
  JObject
    (fold_left (fun o kv => set_member (fst kv) (snd kv) o)
       (toParams (Builder.from options)) (optional_member "url" url)).

Definition batch_body (urlsOrRequests : list (string + BatchRequestItem))
    (options : option (TakeOptions + TakeOptionsConfig)) : list (string * JSON) :=
  if isUrlArray urlsOrRequests then
    let opts :=
      match options with
      | Some o => params_of o
      | None => []
      end in
    [ ("urls",
       JArray
         (flat_map (fun item => match item with
                                | inl u => [JString u]
                                | inr _ => []
                                end) urlsOrRequests));
      ("options", JObject opts) ]
  else
    [ ("requests", JArray (map batch_request urlsOrRequests)) ].

Definition batch (this : Client) (urlsOrRequests : list (string + BatchRequestItem))
    (options : option (TakeOptions + TakeOptionsConfig)) : Promise Reply :=
  let body := batch_body urlsOrRequests options in
  request this "POST" "/batch"
    {| options_body := Some (JObject body);
       options_headers := None;
       options_responseType := None |}.

Definition getBatch (this : Client) (batchId : string) : Promise Reply :=
  request this "GET" ("/batch/" ++ batchId) no_options.

Definition presets (this : Client) : Promise Reply :=
  request this "GET" "/presets" no_options.

Definition preset (this : Client) (id : string) : Promise Reply :=
  request this "GET" ("/presets/" ++ id) no_options.

Definition devices (this : Client) : Promise Reply :=
  request this "GET" "/devices" no_options.

(* ----------------------------------------------------------------- *)
(** *** [CacheManager] ([cache.ts]) *)

(** [error !== null && typeof error === 'object' && 'httpStatus' in error
     && error.httpStatus === 404]; the errors of the platform have no
    [httpStatus]. *)
Definition is_not_found (error : Rejection) : bool :=
  match error with
  | ApiError e => RenderScreenshotError.httpStatus e =? 404
  | Foreign _ => false
  end.

(** [cache.get(key)]; [None] is [null]. *)
Definition cache_get (this : Client) (key : string) : Promise (option Reply) :=
  match
    request this "GET" ("/cache/" ++ key)
      {| options_body := None;
         options_headers := None;
         options_responseType := Some ResponseType.buffer |}
  with
  | inr reply => inr (Some reply)
  | inl error => if is_not_found error then inr None else inl error
  end.

Definition cache_purge (this : Client) (keys : list string) : Promise Reply :=
  request this "POST" "/cache/purge"
    {| options_body := Some (JObject [("keys", JArray (map JString keys))]);
       options_headers := None;
       options_responseType := None |}.

Definition cache_purgeUrl (this : Client) (pattern : string) : Promise Reply :=
  request this "POST" "/cache/purge"
    {| options_body := Some (JObject [("url", JString pattern)]);
       options_headers := None;
       options_responseType := None |}.

Definition cache_purgePattern (this : Client) (pattern : string) : Promise Reply :=
  request this "POST" "/cache/purge"
    {| options_body := Some (JObject [("pattern", JString pattern)]);
       options_headers := None;
       options_responseType := None |}.

End Requests.

(* ----------------------------------------------------------------- *)
(** *** Sample responses *)

(** A [fetch] that answers every request with [response]. *)
Definition answer_with (response : Response.t)
  : string -> RequestInit -> Failure + Response.t :=
  fun _ _ => inr response.

(** A stand-in for [JSON.stringify] where the text does not matter. *)
Definition opaque_text : JSON -> string := fun _ => "{}".

(** A 401 answer announced as JSON whose body is an HTML page. *)
Definition unauthorized_page : Response.t :=
  {| Response.status := 401;
     Response.headers := [("content-type", "application/json; charset=utf-8")];
     Response.json :=
       inl (ErrorObject "SyntaxError" "Unexpected token < in JSON at position 0");
     Response.text := inr "<html>Unauthorized</html>";
     Response.arrayBuffer := inr "<html>Unauthorized</html>" |}.

(** A 404 answer in plain text. *)
Definition not_found_text : Response.t :=
  {| Response.status := 404;
     Response.headers := [("content-type", "text/plain")];
     Response.json :=
       inl (ErrorObject "SyntaxError" "Unexpected token N in JSON at position 0");
     Response.text := inr "Not Found";
     Response.arrayBuffer := inr "Not Found" |}.


(** The options of the request [cache.get] makes. *)
Definition cache_get_options : RequestOptions :=
  {| options_body := None;
     options_headers := None;
     options_responseType := Some ResponseType.buffer |}.

(* ----------------------------------------------------------------- *)
(** *** Sample webhook event *)

(** A failed-screenshot event whose data names a code of its own. *)
Definition failed_event : JSON :=
  JObject [ ("event", JString "screenshot.failed");
            ("id", JString "req_abc123");
            ("timestamp", JNumber (Number_of_Z 1705579200000));
            ("data", JObject [ ("error", JString "Navigation timed out");
                               ("code", JString "timeout") ]) ].

(** The event [parseWebhook] makes of it. *)
Definition parsed_failed_event : WebhookEvent.t :=
  {| WebhookEvent.id := Some (JString "req_abc123");
     WebhookEvent.type := Some (JString "screenshot.failed");
     WebhookEvent.timestamp := Some 1705579200000;
     WebhookEvent.data :=
       {| EventData.url := None;
          EventData.batchId := None;
          EventData.response := None;
          EventData.error :=
            Some {| EventError.code := "render_failed";
                    EventError.message := JString "Navigation timed out" |} |} |}.
(* ================================================================= *)
(** * Properties *)

(** ** Strings, bytes and the timing-safe comparison *)

Lemma is_empty_true (s : string) : is_empty s = true <-> s = "".
Proof. destruct s; simpl; split; congruence. Qed.

Lemma is_empty_append (a b : string) :
  is_empty a = false -> is_empty (a ++ b) = false.
Proof. destruct a; simpl; congruence. Qed.

Lemma length_bytes_of_string (s : string) :
  List.length (bytes_of_string s) = String.length s.
Proof. induction s; simpl; congruence. Qed.

Lemma byte_of_ascii_inj (c d : ascii) : byte_of_ascii c = byte_of_ascii d -> c = d.
Proof.
  unfold byte_of_ascii; intros H; apply N2Z.inj in H.
  rewrite <- (ascii_N_embedding c), <- (ascii_N_embedding d); congruence.
Qed.

Lemma byte_of_ascii_range (c : ascii) : 0 <= byte_of_ascii c < 256.
Proof.
  unfold byte_of_ascii. pose proof (N_ascii_bounded c). lia.
Qed.

Lemma bytes_of_string_inj (s t : string) :
  bytes_of_string s = bytes_of_string t -> s = t.
Proof.
  revert t; induction s as [|c s IH]; intros [|d t]; simpl; try congruence.
  intros H; injection H as Hc Hs.
  apply byte_of_ascii_inj in Hc; apply IH in Hs; congruence.
Qed.

Lemma xor_fold_same (a : list Z) (acc : Z) : xor_fold acc a a = acc.
Proof.
  revert acc; induction a as [|x a IH]; intros acc; simpl; [reflexivity|].
  rewrite Z.lxor_nilpotent, Z.lor_0_r; apply IH.
Qed.

Lemma timingSafeEqual_same (a : list Z) : timingSafeEqual a a = Ok true.
Proof.
  unfold timingSafeEqual; rewrite Nat.eqb_refl, xor_fold_same; reflexivity.
Qed.

Lemma timingSafeEqual_length (a b : list Z) :
  List.length a <> List.length b -> timingSafeEqual a b = Throw RangeError.
Proof.
  intros H; unfold timingSafeEqual.
  apply Nat.eqb_neq in H; rewrite H; reflexivity.
Qed.

Lemma xor_fold_zero (a b : list Z) (acc : Z) :
  List.length a = List.length b ->
  xor_fold acc a b = 0 <-> acc = 0 /\ a = b.
Proof.
  revert b acc; induction a as [|x a IH]; intros [|y b] acc Hlen;
    simpl in *; try discriminate.
  - intuition.
  - injection Hlen as Hlen. rewrite (IH b _ Hlen), Z.lor_eq_0_iff.
    split.
    + intros [[Hacc Hxy] Hab]. apply Z.lxor_eq in Hxy. subst; auto.
    + intros [Hacc Hab]. injection Hab as -> ->.
      rewrite Z.lxor_nilpotent; auto.
Qed.

(** The comparison answers [true] exactly on equal buffers. *)
Lemma timingSafeEqual_true (a b : list Z) :
  timingSafeEqual a b = Ok true <-> a = b.
Proof.
  split; [|intros ->; apply timingSafeEqual_same].
  unfold timingSafeEqual.
  destruct (Nat.eqb (List.length a) (List.length b)) eqn:Hlen; [|discriminate].
  apply Nat.eqb_eq in Hlen. intros H; injection H as H.
  apply Z.eqb_eq in H. apply (xor_fold_zero a b 0 Hlen) in H. tauto.
Qed.

(** ** The digest has 32 bytes, its hex form 64 characters *)

Lemma length_round (st : list Z) (kw : Z * Z) :
  List.length (SHA256.round st kw) = List.length st.
Proof.
  unfold SHA256.round.
  destruct st as [|a [|b [|c [|d [|e [|f [|g [|h [|i st]]]]]]]]]; reflexivity.
Qed.

Lemma length_fold_round (l : list (Z * Z)) (st : list Z) :
  List.length (fold_left SHA256.round l st) = List.length st.
Proof.
  revert st; induction l as [|kw l IH]; intros st; simpl; [reflexivity|].
  rewrite IH; apply length_round.
Qed.

Lemma length_compress (h block : list Z) :
  List.length (SHA256.compress h block) = List.length h.
Proof.
  unfold SHA256.compress.
  rewrite length_map, length_combine, length_fold_round. apply Nat.min_id.
Qed.

Lemma length_blocks (fuel : nat) (h ws : list Z) :
  List.length (SHA256.blocks fuel h ws) = List.length h.
Proof.
  revert h ws; induction fuel as [|fuel IH]; intros h ws; simpl; [reflexivity|].
  destruct ws; [reflexivity|]. rewrite IH; apply length_compress.
Qed.

Lemma length_flat_map_be_bytes (n : nat) (ws : list Z) :
  List.length (flat_map (SHA256.be_bytes n) ws) = (n * List.length ws)%nat.
Proof.
  assert (Hbe : forall x, List.length (SHA256.be_bytes n x) = n).
  { intros x; induction n; simpl; congruence. }
  induction ws as [|w ws IH]; simpl; [lia|].
  rewrite length_app, Hbe, IH; lia.
Qed.

Lemma length_digest (msg : list Z) : List.length (SHA256.digest msg) = 32%nat.
Proof.
  unfold SHA256.digest.
  rewrite length_flat_map_be_bytes, length_blocks; reflexivity.
Qed.

Lemma length_hex (bs : list Z) : String.length (hex bs) = (2 * List.length bs)%nat.
Proof. induction bs; simpl; lia. Qed.

Lemma length_createHmac (key message : string) :
  String.length (createHmac_sha256_hex key message) = 64%nat.
Proof.
  unfold createHmac_sha256_hex, HMAC.hmac_sha256.
  rewrite length_hex, length_digest; reflexivity.
Qed.

Lemma string_length_append (a b : string) :
  String.length (a ++ b) = (String.length a + String.length b)%nat.
Proof. induction a; simpl; congruence. Qed.

Lemma length_createValidSignature (secret payload timestamp : string) :
  String.length (createValidSignature secret payload timestamp) = 71%nat.
Proof.
  unfold createValidSignature.
  rewrite string_length_append, length_createHmac; reflexivity.
Qed.

(** ** Decimal numerals and [parseInt] *)

Lemma digits_fuel_acc (fuel : nat) (n : Z) (acc : list Z) :
  digits_fuel fuel n acc = (digits_fuel fuel n [] ++ acc)%list.
Proof.
  revert n acc; induction fuel as [|fuel IH]; intros n acc; simpl; [reflexivity|].
  destruct (n / 10 =? 0); [reflexivity|].
  rewrite IH, (IH _ [_]), <- app_assoc; reflexivity.
Qed.

Lemma pow2_succ (f : nat) : 2 ^ Z.of_nat (S f) = 2 * 2 ^ Z.of_nat f.
Proof. rewrite Nat2Z.inj_succ, Z.pow_succ_r by lia; reflexivity. Qed.

Lemma digits_fuel_enough (f1 : nat) :
  forall (f2 : nat) (n : Z) (acc : list Z),
    0 <= n < 2 ^ Z.of_nat (S f1) -> n < 2 ^ Z.of_nat (S f2) ->
    digits_fuel (S f1) n acc = digits_fuel (S f2) n acc.
Proof.
  induction f1 as [|f1 IH]; intros f2 n acc H1 H2.
  - change (2 ^ Z.of_nat 1) with 2 in H1.
    cbn [digits_fuel]. rewrite Z.div_small by lia. reflexivity.
  - cbn [digits_fuel]. destruct (n / 10 =? 0) eqn:Hq; [reflexivity|].
    apply Z.eqb_neq in Hq.
    assert (10 <= n).
    { destruct (Z_lt_le_dec n 10); [|assumption].
      rewrite Z.div_small in Hq by lia; congruence. }
    destruct f2 as [|f2].
    { change (2 ^ Z.of_nat 1) with 2 in H2; lia. }
    rewrite pow2_succ in H1, H2.
    apply IH; [split|].
    + apply Z.div_pos; lia.
    + apply Z.div_lt_upper_bound; lia.
    + apply Z.div_lt_upper_bound; lia.
Qed.

Lemma digits_small (n : Z) : 0 <= n < 10 -> digits n = [n].
Proof.
  intros H; unfold digits; cbn [digits_fuel].
  rewrite Z.div_small, Z.mod_small by lia; reflexivity.
Qed.

Lemma digits_step (n : Z) :
  10 <= n -> digits n = (digits (n / 10) ++ [n mod 10])%list.
Proof.
  intros H; unfold digits at 1; cbn [digits_fuel].
  assert (Hq : 0 < n / 10) by (apply Z.div_str_pos; lia).
  destruct (n / 10 =? 0) eqn:E; [apply Z.eqb_eq in E; lia|].
  rewrite digits_fuel_acc; f_equal.
  pose proof (Z.log2_spec n ltac:(lia)) as [_ Hn].
  pose proof (Z.log2_spec (n / 10) Hq) as [_ Hq'].
  assert (Hlog : 3 <= Z.log2 n) by (apply Z.log2_le_pow2; simpl; lia).
  destruct (Z.to_nat (Z.log2 n)) as [|f] eqn:Ef; [lia|].
  unfold digits; apply digits_fuel_enough.
  - split; [lia|]. rewrite <- Ef, Z2Nat.id by lia.
    rewrite Z.pow_succ_r in Hn by lia.
    apply Z.div_lt_upper_bound; lia.
  - rewrite Nat2Z.inj_succ, Z2Nat.id by (apply Z.log2_nonneg). exact Hq'.
Qed.

(** Induction along the decimal digits of a non-negative integer. *)
Lemma decimal_ind (P : Z -> Prop) :
  (forall n, 0 <= n < 10 -> P n) ->
  (forall n, 10 <= n -> P (n / 10) -> P n) ->
  forall n, 0 <= n -> P n.
Proof.
  intros Hsmall Hstep n Hn; pattern n; apply Zlt_0_ind; [|assumption].
  clear n Hn; intros n IH Hn.
  destruct (Z_lt_le_dec n 10) as [Hlt|Hge]; [apply Hsmall; lia|].
  apply Hstep; [assumption|]. apply IH; split.
  - apply Z.div_pos; lia.
  - apply Z.div_lt; lia.
Qed.

Lemma digits_are_digits (n : Z) : 0 <= n -> Forall is_digit_value (digits n).
Proof.
  intros Hn; pattern n; apply decimal_ind; [| |assumption]; clear n Hn.
  - intros n H; rewrite digits_small by assumption. repeat constructor; apply H.
  - intros n H IH; rewrite digits_step by assumption.
    apply Forall_app; split; [assumption|].
    repeat constructor; apply Z.mod_pos_bound; lia.
Qed.

Lemma digits_value_digits (n : Z) : 0 <= n -> digits_value 0 (digits n) = n.
Proof.
  intros Hn; pattern n; apply decimal_ind; [| |assumption]; clear n Hn.
  - intros n H; rewrite digits_small by assumption.
    unfold digits_value; cbn [fold_left]; lia.
  - intros n H IH; rewrite digits_step by assumption.
    unfold digits_value in *; rewrite fold_left_app, IH; cbn [fold_left].
    pose proof (Z.div_mod n 10); lia.
Qed.

Lemma digits_nonempty (n : Z) : digits n <> [].
Proof.
  unfold digits; cbn [digits_fuel].
  destruct (n / 10 =? 0); [discriminate|].
  rewrite digits_fuel_acc. intros H; apply app_eq_nil in H; destruct H; discriminate.
Qed.

Lemma digit_cases (d : Z) :
  is_digit_value d ->
  d = 0 \/ d = 1 \/ d = 2 \/ d = 3 \/ d = 4 \/ d = 5 \/ d = 6 \/ d = 7
  \/ d = 8 \/ d = 9.
Proof. unfold is_digit_value; lia. Qed.

Lemma digit_char_spec (d : Z) :
  is_digit_value d -> byte_of_ascii (digit_char d) = 48 + d.
Proof.
  intros H; apply digit_cases in H.
  repeat (destruct H as [->|H]; [reflexivity|]). subst; reflexivity.
Qed.

Lemma is_digit_digit_char (d : Z) : is_digit_value d -> is_digit (digit_char d) = true.
Proof.
  intros H; unfold is_digit; rewrite (digit_char_spec d H).
  unfold is_digit_value in H. apply andb_true_intro; split; apply Z.leb_le; lia.
Qed.

Lemma digit_value_digit_char (d : Z) : is_digit_value d -> digit_value (digit_char d) = d.
Proof. intros H; unfold digit_value; rewrite (digit_char_spec d H); lia. Qed.

Lemma parse_digits_app (ds : list Z) :
  Forall is_digit_value ds ->
  forall (acc : Z) (rest : string),
    parse_digits acc (string_of_digits ds ++ rest)
    = parse_digits (digits_value acc ds) rest.
Proof.
  induction 1 as [|d ds Hd Hds IH]; intros acc rest; simpl; [reflexivity|].
  rewrite is_digit_digit_char, digit_value_digit_char by assumption. apply IH.
Qed.

Lemma append_empty_r (s : string) : s ++ "" = s.
Proof. induction s; simpl; congruence. Qed.

Lemma parse_digits_decimal (n : Z) : 0 <= n -> parse_digits 0 (decimal n) = n.
Proof.
  intros Hn; unfold decimal.
  rewrite <- (append_empty_r (string_of_digits (digits n))).
  rewrite parse_digits_app by (apply digits_are_digits; assumption).
  simpl; apply digits_value_digits; assumption.
Qed.

(** A string that starts with a printable ASCII character has no leading
    white space. *)
Lemma trim_start_printable (c : ascii) (r : string) :
  33 <= byte_of_ascii c < 128 -> trim_start (String c r) = String c r.
Proof.
  intros H; cbn [trim_start].
  assert (E1 : is_ascii_space (byte_of_ascii c) = false).
  { unfold is_ascii_space.
    destruct (Z.leb_spec (byte_of_ascii c) 13), (Z.eqb_spec (byte_of_ascii c) 32);
      try lia; rewrite ?andb_false_r; reflexivity. }
  rewrite E1. destruct r as [|c1 r1]; [reflexivity|].
  assert (E2 : is_space2 (byte_of_ascii c) (byte_of_ascii c1) = false).
  { unfold is_space2. destruct (Z.eqb_spec (byte_of_ascii c) 0xC2); [lia|reflexivity]. }
  rewrite E2. destruct r1 as [|c2 r2]; [reflexivity|].
  assert (E3 : is_space3 (byte_of_ascii c) (byte_of_ascii c1) (byte_of_ascii c2) = false).
  { unfold is_space3.
    destruct (Z.eqb_spec (byte_of_ascii c) 0xE1), (Z.eqb_spec (byte_of_ascii c) 0xE2),
      (Z.eqb_spec (byte_of_ascii c) 0xE3), (Z.eqb_spec (byte_of_ascii c) 0xEF);
      try lia; reflexivity. }
  rewrite E3; reflexivity.
Qed.

Lemma decimal_head (n : Z) :
  0 <= n -> exists d ds, is_digit_value d /\ decimal n = String (digit_char d) ds.
Proof.
  intros Hn; unfold decimal.
  pose proof (digits_are_digits n Hn) as Hall.
  destruct (digits n) as [|d ds] eqn:E; [exfalso; eapply digits_nonempty; eassumption|].
  inversion Hall; subst. exists d, (string_of_digits ds); split; [assumption|reflexivity].
Qed.

Lemma is_digit_range (c : ascii) :
  is_digit c = true <-> 48 <= byte_of_ascii c <= 57.
Proof. unfold is_digit; rewrite andb_true_iff, !Z.leb_le; tauto. Qed.

Lemma parseInt_unsigned (c : ascii) (r : string) :
  is_digit c = true -> parseInt (String c r) = Some (parse_digits 0 (String c r)).
Proof.
  intros H. unfold parseInt.
  rewrite trim_start_printable by (apply is_digit_range in H; lia).
  assert (E : match c with
              | "-"%char => (-1, r)
              | "+"%char => (1, r)
              | _ => (1, String c r)
              end = (1, String c r)).
  { destruct c as [[] [] [] [] [] [] [] []]; try reflexivity; discriminate H. }
  rewrite E. cbn [starts_with_digit]. rewrite H, Z.mul_1_l. reflexivity.
Qed.

Lemma parseInt_minus (body : string) :
  parseInt (String "-" body)
  = if starts_with_digit body then Some (- parse_digits 0 body) else None.
Proof.
  unfold parseInt. rewrite trim_start_printable by (vm_compute; split; congruence).
  destruct (starts_with_digit body); [|reflexivity].
  f_equal; lia.
Qed.

Lemma parseInt_decimal (n : Z) : 0 <= n -> parseInt (decimal n) = Some n.
Proof.
  intros Hn. destruct (decimal_head n Hn) as (d & ds & Hd & E).
  rewrite <- (parse_digits_decimal n Hn) at 2.
  rewrite E. apply parseInt_unsigned, is_digit_digit_char, Hd.
Qed.

(** Reading back the decimal numeral of an integer gives the integer. *)
Lemma parseInt_decimal_int (z : Z) : parseInt (decimal_int z) = Some z.
Proof.
  unfold decimal_int. destruct (Z.ltb_spec z 0) as [Hneg|Hpos].
  - cbn [append]. rewrite parseInt_minus.
    destruct (decimal_head (- z) ltac:(lia)) as (d & ds & Hd & E).
    rewrite parse_digits_decimal by lia.
    rewrite E; cbn [starts_with_digit]. rewrite is_digit_digit_char by assumption.
    f_equal; lia.
  - apply parseInt_decimal; assumption.
Qed.

Lemma decimal_int_inj (x y : Z) : decimal_int x = decimal_int y -> x = y.
Proof.
  intros H. pose proof (parseInt_decimal_int x) as Hx.
  rewrite H, parseInt_decimal_int in Hx. congruence.
Qed.

Lemma decimal_int_nonempty (z : Z) : is_empty (decimal_int z) = false.
Proof.
  unfold decimal_int. destruct (z <? 0); [reflexivity|].
  unfold decimal. pose proof (digits_nonempty z).
  destruct (digits z); [congruence|reflexivity].
Qed.

(** ** [Number::toString] on integers *)

Lemma length_digits_bound (j : nat) :
  forall m, 0 <= m < 10 ^ Z.of_nat (S j) -> (List.length (digits m) <= S j)%nat.
Proof.
  induction j as [|j IH]; intros m Hm.
  - change (10 ^ Z.of_nat 1) with 10 in Hm. rewrite digits_small by lia. simpl; lia.
  - destruct (Z_lt_le_dec m 10) as [Hlt|Hge].
    + rewrite digits_small by lia. simpl; lia.
    + rewrite digits_step, length_app by assumption. simpl.
      assert (List.length (digits (m / 10)) <= S j)%nat; [|lia].
      apply IH. rewrite Nat2Z.inj_succ, Z.pow_succ_r in Hm by lia.
      split; [apply Z.div_pos; lia|apply Z.div_lt_upper_bound; lia].
Qed.

Lemma strip_zeros_spec (fuel : nat) :
  forall m, 0 < m ->
    0 < strip_zeros fuel m /\
    exists j, digits m = (digits (strip_zeros fuel m) ++ repeat 0 j)%list.
Proof.
  induction fuel as [|fuel IH]; intros m Hm; cbn [strip_zeros].
  - split; [assumption|]. exists O. rewrite app_nil_r; reflexivity.
  - destruct (Z.eqb_spec (m mod 10) 0) as [Hz|Hnz].
    + assert (Hge : 10 <= m).
      { destruct (Z_lt_le_dec m 10); [|assumption].
        rewrite Z.mod_small in Hz by lia; lia. }
      destruct (IH (m / 10)) as (Hpos & j & Hj); [apply Z.div_str_pos; lia|].
      split; [assumption|]. exists (S j).
      rewrite digits_step, Hz, Hj, <- app_assoc by assumption.
      rewrite <- repeat_cons; reflexivity.
    + split; [assumption|]. exists O. rewrite app_nil_r; reflexivity.
Qed.

(** Below 10^21 the string form of an integral Number is its plain
    decimal numeral. *)
Lemma Number_toString_of_Z (z : Z) :
  Z.abs z < 10 ^ 21 -> Number_toString (Number_of_Z z) = decimal_int z.
Proof.
  intros Hz. destruct (Z.eq_dec z 0) as [->|Hnz]; [reflexivity|].
  assert (E : Number_of_Z z =
              Finite (z <? 0)
                (Z.to_pos (strip_zeros (S (Z.to_nat (Z.log2 (Z.abs z)))) (Z.abs z)))
                (Z.of_nat (List.length (digits (Z.abs z)))))
    by (destruct z; [congruence|reflexivity|reflexivity]).
  rewrite E; clear E. cbn [Number_toString].
  set (m := Z.abs z) in *. assert (Hm : 0 < m) by (subst m; lia).
  destruct (strip_zeros_spec (S (Z.to_nat (Z.log2 m))) m Hm) as (Hs & j & Hj).
  rewrite Z2Pos.id by assumption.
  set (ds := digits (strip_zeros (S (Z.to_nat (Z.log2 m))) m)) in *.
  assert (Hlen : List.length (digits m) = (List.length ds + j)%nat)
    by (rewrite Hj, length_app, repeat_length; reflexivity).
  assert (Hbound : (List.length (digits m) <= 21)%nat)
    by (apply length_digits_bound; change (10 ^ Z.of_nat 21) with (10 ^ 21); lia).
  replace ((-5 <=? Z.of_nat (List.length (digits m)))
           && (Z.of_nat (List.length (digits m)) <=? 21)) with true
    by (symmetry; apply andb_true_intro; split; apply Z.leb_le; lia).
  replace (Z.of_nat (List.length ds) <=? Z.of_nat (List.length (digits m)))
    with true by (symmetry; apply Z.leb_le; lia).
  unfold zeros.
  replace (Z.to_nat (Z.of_nat (List.length (digits m)) - Z.of_nat (List.length ds)))
    with j by lia.
  rewrite <- Hj. unfold decimal_int.
  destruct (Z.ltb_spec z 0).
  - unfold m; rewrite Z.abs_neq by lia; reflexivity.
  - unfold m; rewrite Z.abs_eq by lia; reflexivity.
Qed.

Lemma abs_time_seconds (ms : Z) : time_value ms -> Z.abs (ms / 1000) <= 8640000000000.
Proof.
  unfold time_value, max_time_value; intros H.
  assert (-8640000000000 <= ms / 1000).
  { apply Z.div_le_lower_bound; lia. }
  assert (ms / 1000 <= 8640000000000).
  { apply Z.div_le_upper_bound; lia. }
  lia.
Qed.

(** ** [verifyWebhook] *)

Lemma String_of_integer_decimal (t : Z) :
  Z.abs t < 10 ^ 21 -> String_of_integer t = decimal_int t.
Proof. intros H; unfold String_of_integer; simpl; apply Number_toString_of_Z, H. Qed.

(** A timestamp within the tolerance of a clock value is far below 10^21. *)
Lemma near_clock_small (Date_now t : Z) :
  time_value Date_now -> Z.abs (Date_now / 1000 - t) <= 301 -> Z.abs t < 10 ^ 21.
Proof.
  intros Hnow Hnear. pose proof (abs_time_seconds Date_now Hnow).
  change (10 ^ 21) with 1000000000000000000000. lia.
Qed.

Lemma parseInt_NaN (s : string) : parseInt s = None <-> has_integer_prefix s = false.
Proof.
  unfold parseInt, has_integer_prefix, strip_sign.
  destruct (trim_start s) as [|c r]; [simpl; tauto|].
  destruct c as [[] [] [] [] [] [] [] []];
    match goal with
    | |- context [starts_with_digit ?b] => destruct (starts_with_digit b)
    end; split; congruence.
Qed.

(** The verifier never throws. *)
Lemma verifyWebhook_total (Date_now : Z) (payload signature timestamp secret : string) :
  exists b, verifyWebhook Date_now payload signature timestamp secret = Ok b.
Proof.
  unfold verifyWebhook.
  destruct (is_empty payload || is_empty signature || is_empty timestamp
            || is_empty secret); [eauto|].
  destruct (parseInt timestamp); [|eauto].
  destruct (tolerance <? Z.abs (Date_now / 1000 - z)); [eauto|].
  destruct (timingSafeEqual _ _); simpl; eauto.
Qed.

(** What acceptance means. *)
Lemma verifyWebhook_true (Date_now : Z) (payload signature timestamp secret : string) :
  verifyWebhook Date_now payload signature timestamp secret = Ok true <->
  payload <> "" /\ signature <> "" /\ timestamp <> "" /\ secret <> "" /\
  (exists n, parseInt timestamp = Some n /\ Z.abs (Date_now / 1000 - n) <= 300) /\
  signature = createValidSignature secret payload timestamp.
Proof.
  unfold verifyWebhook, createValidSignature.
  destruct payload, signature, timestamp, secret; cbn [is_empty orb];
    try (split; [discriminate|intros (?&?&?&?&?); congruence]).
  destruct (parseInt _) as [n|];
    [|split; [discriminate|intros (_&_&_&_&(n&?&_)&_); discriminate]].
  unfold tolerance; destruct (Z.ltb_spec (5 * 60) (Z.abs (Date_now / 1000 - n))).
  - split; [discriminate|]. intros (_&_&_&_&(n'&Hn'&?)&_).
    injection Hn' as <-. lia.
  - unfold Buffer_from.
    match goal with
    | |- try_catch (timingSafeEqual ?a ?b) _ = _ <-> _ =>
        pose proof (timingSafeEqual_true a b) as Heq;
        destruct (timingSafeEqual a b) as [[]|] eqn:E
    end; cbn [try_catch].
    + split; [|reflexivity]. intros _.
      repeat (split; [discriminate|]). split; [exists n; split; [reflexivity|lia]|].
      symmetry; apply bytes_of_string_inj, Heq; reflexivity.
    + split; [discriminate|]. intros (_&_&_&_&_&Hsig).
      rewrite Hsig in Heq. destruct Heq as [_ Heq]. specialize (Heq eq_refl). discriminate.
    + split; [discriminate|]. intros (_&_&_&_&_&Hsig).
      rewrite Hsig in Heq. destruct Heq as [_ Heq]. specialize (Heq eq_refl). discriminate.
Qed.

(** Any signature other than the expected one is rejected without an
    exception, whether or not its buffer has the expected length. *)
Lemma verifyWebhook_mismatch
    (Date_now : Z) (payload signature timestamp secret : string) :
  signature <> createValidSignature secret payload timestamp ->
  verifyWebhook Date_now payload signature timestamp secret = Ok false.
Proof.
  intros Hne.
  destruct (verifyWebhook_total Date_now payload signature timestamp secret)
    as [[] E]; [|assumption].
  apply verifyWebhook_true in E. destruct E as (_&_&_&_&_&E). contradiction.
Qed.

(** Test vectors for the HMAC model: RFC 4231 (test case 2) and the
    signature of the tests' sample webhook. *)
Example hmac_rfc4231_case2 :
  createHmac_sha256_hex "Jefe" "what do ya want for nothing?"
  = "5bdcc146bf60754e6a042426089575c75a003f089d2739839dec58b964ec3843".
Proof. vm_compute; reflexivity. Qed.

Example sample_signature :
  createValidSignature sample_secret sample_payload "1705579200"
  = "sha256=2cb4363eec368cf5d011905b35ea2e419629ade52887d470509b020f393f6772".
Proof. vm_compute; reflexivity. Qed.

Lemma String_of_integer_nonempty (t : Z) :
  Z.abs t < 10 ^ 21 -> String_of_integer t <> "".
Proof.
  intros H E. rewrite String_of_integer_decimal in E by assumption.
  pose proof (decimal_int_nonempty t) as Hne. rewrite E in Hne; discriminate.
Qed.

(** A correctly signed payload whose timestamp is within [d <= 300]
    seconds of the clock is accepted. *)
Lemma verifyWebhook_fresh (Date_now : Z) (payload secret : string) (t : Z) :
  time_value Date_now -> payload <> "" -> secret <> "" ->
  Z.abs (Date_now / 1000 - t) <= 300 ->
  verifyWebhook Date_now payload
    (createValidSignature secret payload (String_of_integer t))
    (String_of_integer t) secret = Ok true.
Proof.
  intros Hnow Hp Hs Hnear.
  assert (Hsmall : Z.abs t < 10 ^ 21) by (eapply near_clock_small; [eassumption|lia]).
  apply verifyWebhook_true. repeat split; try assumption.
  - unfold createValidSignature; discriminate.
  - apply String_of_integer_nonempty; assumption.
  - exists t. rewrite String_of_integer_decimal by assumption.
    split; [apply parseInt_decimal_int|assumption].
Qed.

(** A timestamp more than 300 seconds from the clock is rejected, whatever
    the signature. *)
Lemma verifyWebhook_stale (Date_now : Z) (payload signature secret : string) (t : Z) :
  time_value Date_now -> Z.abs (Date_now / 1000 - t) = 301 ->
  verifyWebhook Date_now payload signature (String_of_integer t) secret = Ok false.
Proof.
  intros Hnow Hfar.
  destruct (verifyWebhook_total Date_now payload signature (String_of_integer t) secret)
    as [[] E]; [|assumption].
  apply verifyWebhook_true in E. destruct E as (_&_&_&_&(n&Hn&Hle)&_).
  rewrite String_of_integer_decimal, parseInt_decimal_int in Hn
    by (eapply near_clock_small; [eassumption|lia]).
  injection Hn as <-. lia.
Qed.

(** C1. Round-trip acceptance: for every non-empty payload, non-empty secret
    [S] and integer timestamp [t] at most 300 seconds away from the clock
    (a time value, as [Date.now()] returns), [verifyWebhook] called with the
    payload, the signature ["sha256=" + hex(HMAC-SHA256(S, String(t) + "." +
    payload))], the timestamp [String(t)] and [S] returns [true]. *)
Theorem round_trip_acceptance (Date_now : Z) (payload S : string) (t : Z) :
  time_value Date_now ->
  payload <> "" -> S <> "" ->
  Z.abs (Date_now / 1000 - t) <= 300 ->
  verifyWebhook Date_now payload
    ("sha256=" ++ createHmac_sha256_hex S (String_of_integer t ++ "." ++ payload))
    (String_of_integer t) S
  = Ok true.
Proof. exact (verifyWebhook_fresh Date_now payload S t). Qed.

Lemma round_trip_acceptance_witness :
  time_value 1705579200000 /\
  sample_payload <> "" /\ sample_secret <> "" /\
  Z.abs (1705579200000 / 1000 - 1705578960) <= 300 /\
  verifyWebhook 1705579200000 sample_payload
    ("sha256=" ++ createHmac_sha256_hex sample_secret
                    (String_of_integer 1705578960 ++ "." ++ sample_payload))
    (String_of_integer 1705578960) sample_secret
  = Ok true.
Proof.
  assert (H1 : time_value 1705579200000) by (unfold time_value, max_time_value; lia).
  assert (H2 : sample_payload <> "") by (vm_compute; discriminate).
  assert (H3 : sample_secret <> "") by (vm_compute; discriminate).
  assert (H4 : Z.abs (1705579200000 / 1000 - 1705578960) <= 300)
    by (vm_compute; discriminate).
  refine (conj H1 (conj H2 (conj H3 (conj H4 _)))).
  exact (round_trip_acceptance 1705579200000 sample_payload sample_secret
           1705578960 H1 H2 H3 H4).
Defined.

(** C2. Concrete scenario: secret ["whsec_test_secret_key"], the sample
    payload, timestamp ["1705579200"] and the signature ["sha256="] followed
    by the hex HMAC-SHA256 of ["1705579200." + payload]: [verifyWebhook]
    returns [true] when the clock reads 1705579200 seconds and [false] when it
    reads 1705579200 + 3600 seconds. *)
Theorem concrete_scenario (now_fresh now_late : Z) :
  now_fresh / 1000 = 1705579200 ->
  now_late / 1000 = 1705579200 + 3600 ->
  let signature :=
    "sha256=" ++ createHmac_sha256_hex "whsec_test_secret_key"
                   ("1705579200." ++ sample_payload) in
  verifyWebhook now_fresh sample_payload signature "1705579200"
    "whsec_test_secret_key" = Ok true
  /\ verifyWebhook now_late sample_payload signature "1705579200"
       "whsec_test_secret_key" = Ok false.
Proof.
  intros Hfresh Hlate signature; subst signature.
  unfold verifyWebhook; rewrite Hfresh, Hlate.
  vm_compute; split; reflexivity.
Qed.

Lemma concrete_scenario_witness :
  let signature :=
    "sha256=" ++ createHmac_sha256_hex "whsec_test_secret_key"
                   ("1705579200." ++ sample_payload) in
  verifyWebhook 1705579200000 sample_payload signature "1705579200"
    "whsec_test_secret_key" = Ok true
  /\ verifyWebhook 1705582800999 sample_payload signature "1705579200"
       "whsec_test_secret_key" = Ok false.
Proof.
  apply (concrete_scenario 1705579200000 1705582800999); reflexivity.
Defined.

(** C3. Boundary timing: for a correctly signed payload, a timestamp exactly
    299 seconds before or after the clock is accepted, and a timestamp
    exactly 301 seconds before or after the clock is rejected, whatever the
    signature: the 300-second tolerance is symmetric. *)
Theorem boundary_timing (Date_now : Z) (payload secret : string) :
  time_value Date_now -> payload <> "" -> secret <> "" ->
  let now := Date_now / 1000 in
  let accepts t :=
    verifyWebhook Date_now payload
      (createValidSignature secret payload (String_of_integer t))
      (String_of_integer t) secret = Ok true in
  let rejects t :=
    forall signature,
      verifyWebhook Date_now payload signature (String_of_integer t) secret
      = Ok false in
  accepts (now - 299) /\ accepts (now + 299)
  /\ rejects (now - 301) /\ rejects (now + 301).
Proof.
  intros Hnow Hp Hs now accepts rejects; subst now accepts rejects; cbv beta.
  repeat split; try intros signature;
    (apply verifyWebhook_fresh || apply verifyWebhook_stale);
    try assumption; lia.
Qed.

Lemma boundary_timing_witness :
  verifyWebhook 1705579200000 sample_payload
    (createValidSignature sample_secret sample_payload (String_of_integer 1705578901))
    (String_of_integer 1705578901) sample_secret = Ok true
  /\ verifyWebhook 1705579200000 sample_payload
    (createValidSignature sample_secret sample_payload (String_of_integer 1705579501))
    (String_of_integer 1705579501) sample_secret = Ok false.
Proof.
  assert (H1 : time_value 1705579200000) by (unfold time_value, max_time_value; lia).
  assert (H2 : sample_payload <> "") by (vm_compute; discriminate).
  assert (H3 : sample_secret <> "") by (vm_compute; discriminate).
  destruct (boundary_timing 1705579200000 sample_payload sample_secret H1 H2 H3)
    as (Hold & _ & _ & Hfuture).
  split; [exact Hold|apply Hfuture].
Defined.

Lemma verifyWebhook_NaN (Date_now : Z) (payload signature timestamp secret : string) :
  has_integer_prefix timestamp = false ->
  verifyWebhook Date_now payload signature timestamp secret = Ok false.
Proof.
  intros H; apply parseInt_NaN in H. unfold verifyWebhook; rewrite H.
  destruct (is_empty payload || is_empty signature || is_empty timestamp
            || is_empty secret); reflexivity.
Qed.

(** A timestamp that starts with digits and goes on with other characters
    is not a numeral, yet the verifier accepts it when the signature covers
    it. *)
Lemma digits_then_text_accepted :
  let timestamp := "1705579200_not_a_number" in
  is_decimal_numeral timestamp = false
  /\ verifyWebhook 1705579200000 sample_payload
       (createValidSignature sample_secret sample_payload timestamp)
       timestamp sample_secret
     = Ok true.
Proof. vm_compute; split; reflexivity. Qed.

(** C4 (amended). Malformed input fails closed: for every combination of the
    other arguments, [verifyWebhook] returns [false] and does not throw when
    the payload, the signature, the timestamp or the secret is the empty
    string, and when no decimal digit follows the timestamp's leading white
    space and optional sign (the strings on which [parseInt] gives NaN). *)
Theorem malformed_input_fails_closed
    (Date_now : Z) (payload signature timestamp secret : string) :
  payload = "" \/ signature = "" \/ timestamp = "" \/ secret = ""
  \/ has_integer_prefix timestamp = false ->
  verifyWebhook Date_now payload signature timestamp secret = Ok false.
Proof.
  intros [->|[->|[->|[->|H]]]]; try (apply verifyWebhook_NaN, H);
    unfold verifyWebhook; cbn [is_empty orb]; rewrite ?orb_true_r; reflexivity.
Qed.

Lemma malformed_input_fails_closed_witness :
  verifyWebhook 1705579200000 sample_payload
    (createValidSignature sample_secret sample_payload "not_a_number")
    "not_a_number" sample_secret = Ok false
  /\ verifyWebhook 1705579200000 "{}" "sha256=xxx" "1705579200" "" = Ok false.
Proof.
  split.
  - apply (malformed_input_fails_closed 1705579200000 sample_payload
             (createValidSignature sample_secret sample_payload "not_a_number")
             "not_a_number" sample_secret).
    right; right; right; right. reflexivity.
  - apply (malformed_input_fails_closed 1705579200000 "{}" "sha256=xxx"
             "1705579200" "").
    right; right; right; left. reflexivity.
Defined.

(** C5. Length-mismatch safety: the expected signature has 71 characters
    (["sha256="] and 64 hex digits); on a received signature of any other
    length [timingSafeEqual] throws a RangeError, which does not escape:
    [verifyWebhook] returns [false]. *)
Theorem length_mismatch_safe
    (Date_now : Z) (payload signature timestamp secret : string) :
  let expected := "sha256=" ++ createHmac_sha256_hex secret (timestamp ++ "." ++ payload) in
  String.length signature <> String.length expected ->
  String.length expected = 71%nat
  /\ timingSafeEqual (Buffer_from expected) (Buffer_from signature) = Throw RangeError
  /\ verifyWebhook Date_now payload signature timestamp secret = Ok false.
Proof.
  intros expected Hlen. split; [apply length_createValidSignature|]. split.
  - apply timingSafeEqual_length. unfold Buffer_from.
    rewrite !length_bytes_of_string. congruence.
  - destruct (verifyWebhook_total Date_now payload signature timestamp secret)
      as [[] E]; [|assumption].
    apply verifyWebhook_true in E. destruct E as (_&_&_&_&_&E).
    exfalso; apply Hlen; rewrite E; reflexivity.
Qed.

Lemma length_mismatch_safe_witness :
  verifyWebhook 1705579200000 sample_payload "sha256=invalid_signature_here"
    "1705579200" sample_secret = Ok false.
Proof.
  apply (length_mismatch_safe 1705579200000 sample_payload
           "sha256=invalid_signature_here" "1705579200" sample_secret).
  vm_compute; discriminate.
Defined.

(** Digits followed by letters: not an integer numeral, and accepted. *)
Lemma lenient_timestamp_accepted :
  let timestamp := "1705579200abc" in
  is_integer_numeral timestamp = false
  /\ verifyWebhook 1705579200000 sample_payload
       (createValidSignature sample_secret sample_payload timestamp)
       timestamp sample_secret
     = Ok true.
Proof. vm_compute; split; reflexivity. Qed.

(** C6 (amended). Timestamp parse gate: [verifyWebhook] returns [false] for
    every timestamp on which [parseInt] gives NaN, that is, every string in
    which no decimal digit follows the leading white space and the optional
    sign; consequently it returns [true] only when the timestamp has such a
    leading integer, and that integer is within 300 seconds of the clock. *)
Theorem timestamp_parse_gate
    (Date_now : Z) (payload signature timestamp secret : string) :
  (has_integer_prefix timestamp = false ->
   parseInt timestamp = None
   /\ verifyWebhook Date_now payload signature timestamp secret = Ok false)
  /\ (verifyWebhook Date_now payload signature timestamp secret = Ok true ->
      has_integer_prefix timestamp = true
      /\ exists n, parseInt timestamp = Some n
                   /\ Z.abs (Date_now / 1000 - n) <= 300).
Proof.
  split.
  - intros H; split; [apply parseInt_NaN, H|apply verifyWebhook_NaN, H].
  - intros H. apply verifyWebhook_true in H.
    destruct H as (_&_&_&_&(n&Hn&Hle)&_). split; [|eauto].
    destruct (has_integer_prefix timestamp) eqn:E; [reflexivity|].
    apply parseInt_NaN in E; congruence.
Qed.

Lemma timestamp_parse_gate_witness :
  verifyWebhook 1705579200000 sample_payload "sha256=xxx" "+-12" sample_secret
  = Ok false
  /\ has_integer_prefix "1705579200" = true.
Proof.
  split.
  - apply (proj1 (timestamp_parse_gate 1705579200000 sample_payload "sha256=xxx"
                    "+-12" sample_secret)).
    reflexivity.
  - apply (proj2 (timestamp_parse_gate 1705579200000 sample_payload
                    (createValidSignature sample_secret sample_payload "1705579200")
                    "1705579200" sample_secret)).
    vm_compute; reflexivity.
Defined.

(** ** [generateUrl]: the collected parameters *)

Lemma build_params_fold (config : TakeOptionsConfig) :
  build_params config
  = fold_left
      (fun o p => assign_if_defined (Param.key p) (Param.value config p) o)
      Param.all [].
Proof. reflexivity. Qed.

Lemma assign_fresh (k v : string) (o : StringRecord) :
  ~ In k (Object_keys o) -> assign k v o = (o ++ [(k, v)])%list.
Proof.
  induction o as [|[k' v'] o IH]; intros Hfresh; simpl in *; [reflexivity|].
  destruct (String.eqb_spec k' k) as [->|Hne]; [tauto|].
  rewrite IH by tauto; reflexivity.
Qed.

Lemma keys_entries (config : TakeOptionsConfig) (l : list Param.t) :
  Object_keys (entries config l) = map Param.key (filter (is_defined config) l).
Proof.
  unfold Object_keys, entries, is_defined.
  induction l as [|p l IH]; simpl; [reflexivity|].
  destruct (Param.value config p); simpl; rewrite ?IH; reflexivity.
Qed.

Lemma fold_assign (config : TakeOptionsConfig) (l : list Param.t) :
  NoDup (map Param.key l) ->
  forall acc,
    (forall p, In p l -> ~ In (Param.key p) (Object_keys acc)) ->
    fold_left
      (fun o p => assign_if_defined (Param.key p) (Param.value config p) o) l acc
    = (acc ++ entries config l)%list.
Proof.
  induction l as [|p l IH]; intros Hnodup acc Hfresh; simpl.
  - rewrite app_nil_r; reflexivity.
  - inversion Hnodup as [|? ? Hp Hl]; subst.
    unfold entries in *; simpl.
    destruct (Param.value config p) as [v|]; simpl.
    + rewrite assign_fresh by (apply Hfresh; left; reflexivity).
      rewrite IH, <- app_assoc; [reflexivity|assumption|].
      intros q Hq. unfold Object_keys; rewrite map_app, in_app_iff; simpl.
      intros [Hin|[Heq|[]]].
      * apply (Hfresh q); [right; assumption|exact Hin].
      * apply Hp. rewrite Heq. apply in_map, Hq.
    + apply IH; [assumption|]. intros q Hq; apply Hfresh; right; assumption.
Qed.

Lemma nodupb_NoDup (l : list string) : nodupb l = true -> NoDup l.
Proof.
  induction l as [|x l IH]; simpl; intros H; constructor;
    apply andb_true_iff in H; destruct H as [Hx Hl]; [|auto].
  intros Hin. apply negb_true_iff in Hx.
  assert (existsb (String.eqb x) l = true); [|congruence].
  apply existsb_exists; exists x; split; [assumption|apply String.eqb_refl].
Qed.

Lemma NoDup_keys_all : NoDup (map Param.key Param.all).
Proof. apply nodupb_NoDup; reflexivity. Qed.

Lemma NoDup_keys_sorted : NoDup (map Param.key Param.sorted).
Proof. apply nodupb_NoDup; reflexivity. Qed.

Lemma build_params_entries (config : TakeOptionsConfig) :
  build_params config = entries config Param.all.
Proof.
  rewrite build_params_fold, fold_assign; [reflexivity|apply NoDup_keys_all|].
  intros p _ [].
Qed.

Lemma NoDup_map_inv_in {A B} (f : A -> B) (l : list A) (x y : A) :
  NoDup (map f l) -> In x l -> In y l -> f x = f y -> x = y.
Proof.
  induction l as [|a l IH]; simpl; intros Hnd Hx Hy Hf; [tauto|].
  inversion Hnd as [|? ? Ha Hl]; subst.
  destruct Hx as [->|Hx], Hy as [->|Hy]; auto.
  - exfalso; apply Ha; rewrite Hf; apply in_map, Hy.
  - exfalso; apply Ha; rewrite <- Hf; apply in_map, Hx.
Qed.

Lemma lookup_fresh (k : string) (o : StringRecord) :
  ~ In k (Object_keys o) -> lookup k o = None.
Proof.
  induction o as [|[k' v'] o IH]; simpl; intros H; [reflexivity|].
  destruct (String.eqb_spec k' k); [tauto|apply IH; tauto].
Qed.

Lemma keys_entries_incl (config : TakeOptionsConfig) (l : list Param.t) (k : string) :
  In k (Object_keys (entries config l)) -> In k (map Param.key l).
Proof.
  rewrite keys_entries, !in_map_iff. intros (p & Hk & Hp).
  apply filter_In in Hp. exists p; tauto.
Qed.

Lemma lookup_entries (config : TakeOptionsConfig) (l : list Param.t) (p : Param.t) :
  NoDup (map Param.key l) -> In p l ->
  lookup (Param.key p) (entries config l) = Param.value config p.
Proof.
  induction l as [|q l IH]; intros Hnd Hin; [destruct Hin|].
  inversion Hnd as [|? ? Hq Hl]; subst.
  change (entries config (q :: l))
    with ((match Param.value config q with
           | Some v => [(Param.key q, v)]
           | None => []
           end ++ entries config l)%list).
  destruct Hin as [->|Hin].
  - destruct (Param.value config p) as [v|] eqn:E; simpl.
    + rewrite String.eqb_refl; reflexivity.
    + apply lookup_fresh. intros H; apply Hq, (keys_entries_incl config), H.
  - assert (Hne : Param.key q <> Param.key p).
    { intros Heq; apply Hq; rewrite Heq; apply in_map, Hin. }
    destruct (Param.value config q); simpl.
    + apply String.eqb_neq in Hne; rewrite Hne. apply IH; assumption.
    + apply IH; assumption.
Qed.

Lemma all_params_listed (p : Param.t) : In p Param.all /\ In p Param.sorted.
Proof. destruct p; simpl; tauto. Qed.

(** Every serialized option is stored under its key in exactly one string
    form, and nothing else is stored. *)
Lemma build_params_lookup (config : TakeOptionsConfig) (p : Param.t) :
  lookup (Param.key p) (build_params config) = Param.value config p.
Proof.
  rewrite build_params_entries.
  apply lookup_entries; [apply NoDup_keys_all|apply all_params_listed].
Qed.

(** ** The order of [sort()] *)

Lemma string_leb_trans (x y z : string) :
  String.leb x y = true -> String.leb y z = true -> String.leb x z = true.
Proof.
  unfold String.leb. revert y z.
  induction x as [|a x IH]; intros [|b y] [|c z]; simpl; try congruence.
  unfold Ascii.compare.
  destruct (N.compare_spec (N_of_ascii a) (N_of_ascii b)) as [Hab|Hab|Hab];
    destruct (N.compare_spec (N_of_ascii b) (N_of_ascii c)) as [Hbc|Hbc|Hbc];
    destruct (N.compare_spec (N_of_ascii a) (N_of_ascii c)) as [Hac|Hac|Hac];
    try congruence; try lia.
  apply IH.
Qed.

Lemma string_lt_le (x y : string) : string_lt x y -> string_le x y.
Proof.
  unfold string_lt, string_le, is_true, String.ltb, String.leb.
  destruct (String.compare x y); congruence.
Qed.

Lemma StronglySorted_weaken {A} (R S : A -> A -> Prop) (l : list A) :
  (forall x y, R x y -> S x y) -> StronglySorted R l -> StronglySorted S l.
Proof.
  intros HRS; induction 1 as [|a l Hl IH Ha]; constructor; [assumption|].
  eapply Forall_impl; [|exact Ha]. intros y; apply HRS.
Qed.

Lemma StronglySorted_map_filter {A B} (R : B -> B -> Prop) (f : A -> B)
    (keep : A -> bool) (l : list A) :
  StronglySorted R (map f l) -> StronglySorted R (map f (filter keep l)).
Proof.
  induction l as [|a l IH]; simpl; intros H; [constructor|].
  inversion H as [|? ? Hl Ha]; subst.
  destruct (keep a); simpl; [constructor|]; auto.
  rewrite Forall_forall in *. intros y Hy. apply Ha.
  apply in_map_iff in Hy. destruct Hy as (x & <- & Hx).
  apply filter_In in Hx. apply in_map, Hx.
Qed.

(** A list has at most one sorted arrangement. *)
Lemma sorted_unique (l1 l2 : list string) :
  StronglySorted string_le l1 -> StronglySorted string_le l2 ->
  Permutation l1 l2 -> l1 = l2.
Proof.
  revert l2; induction l1 as [|a l1 IH]; intros l2 H1 H2 Hperm.
  - apply Permutation_nil in Hperm; congruence.
  - destruct l2 as [|b l2]; [apply Permutation_sym, Permutation_nil in Hperm; discriminate|].
    inversion H1 as [|? ? Hs1 Ha]; inversion H2 as [|? ? Hs2 Hb]; subst.
    rewrite Forall_forall in Ha, Hb.
    assert (Hab : a = b).
    { assert (Hina : In a (b :: l2))
        by (eapply Permutation_in; [exact Hperm|left; reflexivity]).
      assert (Hinb : In b (a :: l1))
        by (eapply Permutation_in; [apply Permutation_sym, Hperm|left; reflexivity]).
      destruct Hina as [->|Hina]; [reflexivity|].
      destruct Hinb as [->|Hinb]; [reflexivity|].
      apply String.leb_antisym; [apply Ha, Hinb|apply Hb, Hina]. }
    subst b. f_equal. apply IH; try assumption.
    eapply Permutation_cons_inv; exact Hperm.
Qed.

(** The keys of [Param.sorted] are in strictly ascending order. *)
Lemma sorted_keys_ascending : StronglySorted string_lt (map Param.key Param.sorted).
Proof. repeat constructor. Qed.

Lemma NoDup_params (l : list Param.t) : NoDup (map Param.key l) -> NoDup l.
Proof.
  induction l as [|p l IH]; simpl; intros H; constructor;
    inversion H as [|? ? Hp Hl]; subst; [|auto].
  intros Hin; apply Hp, in_map, Hin.
Qed.

Lemma defined_keys_permutation (config : TakeOptionsConfig) :
  Permutation (map Param.key (filter (is_defined config) Param.all))
              (map Param.key (filter (is_defined config) Param.sorted)).
Proof.
  apply Permutation_map, NoDup_Permutation.
  - apply NoDup_filter, NoDup_params, NoDup_keys_all.
  - apply NoDup_filter, NoDup_params, NoDup_keys_sorted.
  - intros p; rewrite !filter_In. pose proof (all_params_listed p); tauto.
Qed.

(** Sorting the keys of the collected parameters lists the defined
    parameters in ascending key order. *)
Lemma sorted_keys_of_params (config : TakeOptionsConfig) :
  sort (Object_keys (build_params config))
  = map Param.key (filter (is_defined config) Param.sorted).
Proof.
  apply sorted_unique.
  - apply StringSort.StronglySorted_sort.
    intros x y z; apply string_leb_trans.
  - apply StronglySorted_map_filter.
    eapply StronglySorted_weaken; [exact string_lt_le|exact sorted_keys_ascending].
  - eapply Permutation_trans; [apply Permutation_sym, StringSort.Permuted_sort|].
    rewrite build_params_entries, keys_entries. apply defined_keys_permutation.
Qed.

Lemma canonical_pairs (config : TakeOptionsConfig) (l : list Param.t) :
  map (fun k => k ++ "=" ++ get_string (build_params config) k)
      (map Param.key (filter (is_defined config) l))
  = flat_map
      (fun p =>
         match Param.value config p with
         | Some v => [Param.key p ++ "=" ++ v]
         | None => []
         end) l.
Proof.
  induction l as [|p l IH]; [reflexivity|].
  cbn [filter flat_map]. unfold is_defined at 1.
  destruct (Param.value config p) as [v|] eqn:E; [|exact IH].
  cbn [map app]. rewrite IH.
  unfold get_string; rewrite build_params_lookup, E; reflexivity.
Qed.

(** The message [generateUrl] signs is the canonical query string of the
    specification followed by the expiration. *)
Lemma signed_message_canonical (config : TakeOptionsConfig) (expiresAt : Date) :
  signed_message config expiresAt
  = canonical_query config ++ "&expires="
    ++ String_integral (floor_div_1000 (getTime expiresAt)).
Proof.
  unfold signed_message, canonical_query.
  rewrite sorted_keys_of_params, canonical_pairs; reflexivity.
Qed.

(** ** Strings: cancellation *)

Lemma append_assoc (a b c : string) : (a ++ b) ++ c = a ++ b ++ c.
Proof. induction a; simpl; congruence. Qed.

Lemma append_cancel_l (a b c : string) : a ++ b = a ++ c -> b = c.
Proof. induction a; simpl; intros H; [assumption|injection H; auto]. Qed.

(** Two splits of one string whose right parts have equal length agree. *)
Lemma append_split_eq (a a' b b' : string) :
  a ++ b = a' ++ b' -> String.length b = String.length b' -> a = a' /\ b = b'.
Proof.
  revert a'; induction a as [|x a IH]; intros [|x' a'] H Hlen; simpl in *.
  - auto.
  - exfalso. apply (f_equal String.length) in H; simpl in H.
    rewrite string_length_append in H; lia.
  - exfalso. apply (f_equal String.length) in H; simpl in H.
    rewrite string_length_append in H; lia.
  - injection H as -> H. destruct (IH a' H Hlen) as [-> ->]; auto.
Qed.

Lemma append_cancel_r (a b c : string) : a ++ c = b ++ c -> a = b.
Proof. intros H; apply (append_split_eq a b c c H eq_refl). Qed.

(** ** [join] *)

Lemma terminated_app (l r : list string) :
  terminated (l ++ r) = terminated l ++ terminated r.
Proof.
  induction l as [|x l IH]; simpl; [reflexivity|].
  rewrite IH, !append_assoc; reflexivity.
Qed.

Lemma join_then_ampersand (l : list string) (rest : string) :
  join "&" l ++ "&" ++ rest
  = match l with
    | [] => "&" ++ rest
    | _ => terminated l ++ rest
    end.
Proof.
  induction l as [|x l IH]; [reflexivity|].
  destruct l as [|y l].
  - simpl. rewrite !append_assoc. reflexivity.
  - change (join "&" (x :: y :: l)) with (x ++ "&" ++ join "&" (y :: l)).
    rewrite !append_assoc, IH. cbn [terminated].
    rewrite !append_assoc. reflexivity.
Qed.

Lemma length_terminated_app_cons (l r : list string) (x : string) :
  String.length (terminated (l ++ x :: r))
  = (String.length (terminated (l ++ r)) + String.length x + 1)%nat.
Proof.
  rewrite !terminated_app; cbn [terminated].
  rewrite !string_length_append; simpl String.length; lia.
Qed.

(** Inserting one non-empty element changes the joined, ampersand-followed
    string. *)
Lemma join_insert_differs (l r : list string) (x rest : string) :
  x <> "" ->
  join "&" (l ++ x :: r) ++ "&" ++ rest <> join "&" (l ++ r) ++ "&" ++ rest.
Proof.
  intros Hx H. rewrite !join_then_ampersand in H.
  apply (f_equal String.length) in H.
  assert (Hlen : (0 < String.length x)%nat) by (destruct x; simpl; [congruence|lia]).
  destruct (l ++ x :: r)%list as [|y t] eqn:E1; [destruct l; discriminate|].
  rewrite <- E1 in H; clear E1.
  rewrite string_length_append, length_terminated_app_cons in H.
  destruct (l ++ r)%list as [|z u] eqn:E2.
  - simpl in H. lia.
  - rewrite string_length_append in H. lia.
Qed.

(** Replacing one element by a different one changes the joined string. *)
Lemma join_replace_differs (l r : list string) (x y rest : string) :
  x <> y ->
  join "&" (l ++ x :: r) ++ "&" ++ rest <> join "&" (l ++ y :: r) ++ "&" ++ rest.
Proof.
  intros Hxy H. rewrite !join_then_ampersand in H.
  destruct (l ++ x :: r)%list as [|a t] eqn:E1; [destruct l; discriminate|].
  destruct (l ++ y :: r)%list as [|b u] eqn:E2; [destruct l; discriminate|].
  rewrite <- E1, <- E2 in H; clear E1 E2.
  rewrite !terminated_app in H. simpl in H. rewrite !append_assoc in H.
  apply append_cancel_l in H. apply append_cancel_r in H. exact (Hxy H).
Qed.

(** ** [generateUrl]: what changes the signed message *)

Lemma with_field_same (f : Field.t) (v : option (Field.type f))
    (config : TakeOptionsConfig) :
  with_field f v config f = v.
Proof.
  unfold with_field. destruct (Field.eq_dec f f) as [e|n]; [|congruence].
  rewrite (UIP_dec Field.eq_dec e eq_refl); reflexivity.
Qed.

Lemma with_field_other (f g : Field.t) (v : option (Field.type f))
    (config : TakeOptionsConfig) :
  f <> g -> with_field f v config g = config g.
Proof.
  intros H; unfold with_field. destruct (Field.eq_dec f g); [congruence|reflexivity].
Qed.

Lemma value_with_field_other (f : Field.t) (v : option (Field.type f))
    (config : TakeOptionsConfig) (q : Param.t) :
  Param.field q <> f ->
  Param.value (with_field f v config) q = Param.value config q.
Proof.
  intros H. destruct q; cbn [Param.value Param.field] in *;
    rewrite with_field_other by congruence; reflexivity.
Qed.

Lemma field_injective (p q : Param.t) : Param.field p = Param.field q -> p = q.
Proof. destruct p, q; cbn [Param.field]; intros H; try reflexivity; discriminate H. Qed.

Lemma pieces_ext (c1 c2 : TakeOptionsConfig) (l : list Param.t) :
  (forall q, In q l -> Param.value c1 q = Param.value c2 q) ->
  pieces c1 l = pieces c2 l.
Proof.
  induction l as [|q l IH]; intros H; [reflexivity|].
  unfold pieces in *; cbn [flat_map].
  rewrite (H q) by (left; reflexivity). f_equal.
  apply IH. intros r Hr; apply H; right; assumption.
Qed.

(** The message depends on the configuration through the nineteen
    serialized options only. *)
Lemma signed_message_ext (c1 c2 : TakeOptionsConfig) (expiresAt : Date) :
  (forall q, Param.value c1 q = Param.value c2 q) ->
  signed_message c1 expiresAt = signed_message c2 expiresAt.
Proof.
  intros H. rewrite !signed_message_canonical. unfold canonical_query.
  fold (pieces c1 Param.sorted); fold (pieces c2 Param.sorted).
  rewrite (pieces_ext c1 c2) by (intros; apply H). reflexivity.
Qed.

Lemma key_nonempty (p : Param.t) (v : string) : Param.key p ++ "=" ++ v <> "".
Proof. destruct p; discriminate. Qed.

Lemma change_param_changes_message (config : TakeOptionsConfig) (p : Param.t)
    (v : option (Field.type (Param.field p))) (expiresAt : Date) :
  Param.value (with_field (Param.field p) v config) p <> Param.value config p ->
  signed_message (with_field (Param.field p) v config) expiresAt
  <> signed_message config expiresAt.
Proof.
  set (config' := with_field (Param.field p) v config). intros Hchange.
  rewrite !signed_message_canonical. unfold canonical_query.
  fold (pieces config' Param.sorted); fold (pieces config Param.sorted).
  destruct (in_split p Param.sorted (proj2 (all_params_listed p))) as (L & R & Hsplit).
  assert (Hnodup : NoDup (L ++ p :: R))
    by (rewrite <- Hsplit; apply NoDup_params, NoDup_keys_sorted).
  apply NoDup_remove_2 in Hnodup.
  assert (Hother : forall q, In q (L ++ R) ->
                     Param.value config' q = Param.value config q).
  { intros q Hq. apply value_with_field_other.
    intros Hf. apply field_injective in Hf. subst q. exact (Hnodup Hq). }
  rewrite Hsplit. unfold pieces. rewrite !flat_map_app. cbn [flat_map].
  fold (pieces config' L); fold (pieces config' R).
  fold (pieces config L); fold (pieces config R).
  rewrite (pieces_ext config' config L)
    by (intros q Hq; apply Hother, in_or_app; left; exact Hq).
  rewrite (pieces_ext config' config R)
    by (intros q Hq; apply Hother, in_or_app; right; exact Hq).
  change ("&expires=" ++ ?t) with ("&" ++ "expires=" ++ t).
  destruct (Param.value config' p) as [v'|], (Param.value config p) as [v0|];
    cbn [app].
  - apply join_replace_differs. intros H.
    do 2 apply append_cancel_l in H. apply Hchange; congruence.
  - apply join_insert_differs, key_nonempty.
  - intros H; symmetry in H; revert H. apply join_insert_differs, key_nonempty.
  - congruence.
Qed.

Lemma String_integral_inj (x y : option Z) :
  (forall z, x = Some z -> Z.abs z < 10 ^ 21) ->
  (forall z, y = Some z -> Z.abs z < 10 ^ 21) ->
  String_integral x = String_integral y -> x = y.
Proof.
  intros Hx Hy H. destruct x as [a|], y as [b|]; cbn [String_integral] in H.
  - rewrite !Number_toString_of_Z in H by auto.
    apply decimal_int_inj in H; congruence.
  - rewrite Number_toString_of_Z in H by auto.
    pose proof (parseInt_decimal_int a) as Hp. rewrite H in Hp. discriminate Hp.
  - rewrite Number_toString_of_Z in H by auto.
    pose proof (parseInt_decimal_int b) as Hp. rewrite <- H in Hp. discriminate Hp.
  - reflexivity.
Qed.

Lemma expires_small (d : Date) (z : Z) :
  valid_date d -> floor_div_1000 (getTime d) = Some z -> Z.abs z < 10 ^ 21.
Proof.
  destruct d as [ms|]; simpl; intros Hv H; [|discriminate].
  injection H as <-. pose proof (abs_time_seconds ms Hv).
  change (10 ^ 21) with 1000000000000000000000. lia.
Qed.

Lemma change_expires_changes_message (config : TakeOptionsConfig) (E E' : Date) :
  valid_date E -> valid_date E' ->
  floor_div_1000 (getTime E') <> floor_div_1000 (getTime E) ->
  signed_message config E' <> signed_message config E.
Proof.
  intros Hv Hv' Hne H. unfold signed_message in H.
  repeat apply append_cancel_l in H.
  apply String_integral_inj in H; [exact (Hne H)| |];
    intros z; apply expires_small; assumption.
Qed.

Lemma drop_append (a b : string) : drop (String.length a) (a ++ b) = b.
Proof. induction a; simpl; [destruct b; reflexivity|assumption]. Qed.

Lemma generateUrl_parts (this : Client) (options : TakeOptions + TakeOptionsConfig)
    (expiresAt : Date) :
  let config := match options with inl o => toConfig o | inr c => c end in
  let message := signed_message config expiresAt in
  generateUrl this options expiresAt
  = (baseUrl this ++ "/v1/screenshot?" ++ message ++ "&signature=")
    ++ createHmac_sha256_hex (apiKey this) message.
Proof.
  intros config message. unfold generateUrl. fold config. fold message.
  unfold API_VERSION. rewrite !append_assoc. reflexivity.
Qed.

(** The last 64 characters of the URL are the HMAC of the message. *)
Lemma signature_of_generateUrl (this : Client)
    (options : TakeOptions + TakeOptionsConfig) (expiresAt : Date) :
  signature_of (generateUrl this options expiresAt)
  = createHmac_sha256_hex (apiKey this)
      (signed_message (match options with inl o => toConfig o | inr c => c end)
         expiresAt).
Proof.
  rewrite generateUrl_parts. unfold signature_of.
  rewrite string_length_append, length_createHmac.
  rewrite Nat.add_sub. apply drop_append.
Qed.

Lemma generateUrl_message_inj (this : Client) (c1 c2 : TakeOptionsConfig)
    (E1 E2 : Date) :
  generateUrl this (inr c1) E1 = generateUrl this (inr c2) E2 ->
  signed_message c1 E1 = signed_message c2 E2.
Proof.
  rewrite !generateUrl_parts. intros H.
  apply append_split_eq in H; [|rewrite !length_createHmac; reflexivity].
  destruct H as [H _].
  do 2 apply append_cancel_l in H. apply append_cancel_r in H. exact H.
Qed.

(** ** [Number::toString]: when the result is a plain decimal numeral *)

Lemma string_of_digits_app (a b : list Z) :
  string_of_digits (a ++ b) = string_of_digits a ++ string_of_digits b.
Proof. induction a; simpl; congruence. Qed.

Lemma all_digits_string_of_digits (ds : list Z) :
  Forall is_digit_value ds -> all_digits (string_of_digits ds) = true.
Proof.
  induction 1 as [|d ds Hd Hds IH]; simpl; [reflexivity|].
  rewrite is_digit_digit_char by assumption; exact IH.
Qed.

Lemma after_digits_string_of_digits (ds : list Z) (r : string) :
  Forall is_digit_value ds ->
  after_digits (string_of_digits ds ++ r) = after_digits r.
Proof.
  induction 1 as [|d ds Hd Hds IH]; simpl; [reflexivity|].
  rewrite is_digit_digit_char by assumption; exact IH.
Qed.

Lemma starts_with_digit_string_of_digits (ds : list Z) (r : string) :
  Forall is_digit_value ds -> ds <> [] ->
  starts_with_digit (string_of_digits ds ++ r) = true.
Proof.
  intros H Hne; destruct H as [|d ds Hd Hds]; [congruence|].
  simpl. apply is_digit_digit_char, Hd.
Qed.

Lemma strip_sign_digit (s : string) : starts_with_digit s = true -> strip_sign s = s.
Proof.
  destruct s as [|c r]; [reflexivity|]. simpl.
  destruct c as [[] [] [] [] [] [] [] []]; try reflexivity; discriminate.
Qed.

Lemma Forall_zeros (n : Z) : Forall is_digit_value (zeros n).
Proof.
  unfold zeros; apply Forall_forall; intros d Hd.
  apply repeat_spec in Hd; subst; unfold is_digit_value; lia.
Qed.

Lemma Forall_firstn {A} (P : A -> Prop) (n : nat) (l : list A) :
  Forall P l -> Forall P (firstn n l).
Proof.
  revert l; induction n as [|n IH]; intros l H; [constructor|].
  destruct H; simpl; constructor; auto.
Qed.

Lemma Forall_skipn {A} (P : A -> Prop) (n : nat) (l : list A) :
  Forall P l -> Forall P (skipn n l).
Proof.
  revert l; induction n as [|n IH]; intros l H; [assumption|].
  destruct H; simpl; auto.
Qed.

(** An unsigned plain numeral, with or without a fraction. *)
Lemma decimal_numeral_unsigned (s : string) :
  starts_with_digit s = true ->
  match after_digits s with
  | EmptyString => true
  | String "." frac => starts_with_digit frac && all_digits frac
  | _ => false
  end = true ->
  forall neg : bool,
    is_decimal_numeral ((if neg then "-" else "") ++ s) = true.
Proof.
  intros Hstart Hrest neg. unfold is_decimal_numeral.
  assert (E : strip_sign ((if neg then "-" else "") ++ s) = s)
    by (destruct neg; [reflexivity|apply strip_sign_digit, Hstart]).
  rewrite E, Hstart, Hrest; reflexivity.
Qed.

Lemma Number_toString_plain (x : JSNumber) :
  plain_range x -> is_decimal_numeral (Number_toString x) = true.
Proof.
  destruct x as [| |neg|neg s n]; cbn [plain_range]; intros Hn;
    try contradiction; [reflexivity|].
  cbn [Number_toString].
  pose proof (digits_are_digits (Zpos s) ltac:(lia)) as Hds.
  pose proof (digits_nonempty (Zpos s)) as Hne.
  set (ds := digits (Zpos s)) in *.
  assert (Hk : (0 < List.length ds)%nat) by (destruct ds; simpl; [congruence|lia]).
  replace ((-5 <=? n) && (n <=? 21)) with true
    by (symmetry; apply andb_true_intro; split; apply Z.leb_le; lia).
  apply decimal_numeral_unsigned.
  - destruct (Z.leb_spec (Z.of_nat (List.length ds)) n) as [Hkn|Hkn].
    + rewrite <- (append_empty_r (string_of_digits _)).
      apply starts_with_digit_string_of_digits.
      * apply Forall_app; split; [assumption|apply Forall_zeros].
      * destruct ds; [congruence|discriminate].
    + destruct (Z.ltb_spec 0 n) as [Hpos|Hnonpos]; [|reflexivity].
      apply starts_with_digit_string_of_digits.
      * apply Forall_firstn; assumption.
      * destruct ds as [|d ds']; [congruence|].
        destruct (Z.to_nat n) eqn:En; [lia|discriminate].
  - destruct (Z.leb_spec (Z.of_nat (List.length ds)) n) as [Hkn|Hkn].
    + rewrite <- (append_empty_r (string_of_digits _)).
      rewrite after_digits_string_of_digits; [reflexivity|].
      apply Forall_app; split; [assumption|apply Forall_zeros].
    + destruct (Z.ltb_spec 0 n) as [Hpos|Hnonpos].
      * rewrite after_digits_string_of_digits by (apply Forall_firstn; assumption).
        cbn [append after_digits is_digit]. simpl.
        rewrite <- (append_empty_r (string_of_digits (skipn _ _))).
        rewrite starts_with_digit_string_of_digits.
        -- rewrite append_empty_r.
           apply all_digits_string_of_digits, Forall_skipn; assumption.
        -- apply Forall_skipn; assumption.
        -- intros Hnil. apply (f_equal (@List.length Z)) in Hnil.
           rewrite length_skipn in Hnil. simpl in Hnil. lia.
      * cbn [append after_digits]. simpl.
        rewrite <- (append_empty_r (string_of_digits (zeros _ ++ _))).
        assert (Hall : Forall is_digit_value (zeros (- n) ++ ds))
          by (apply Forall_app; split; [apply Forall_zeros|assumption]).
        rewrite starts_with_digit_string_of_digits.
        -- rewrite append_empty_r. apply all_digits_string_of_digits, Hall.
        -- exact Hall.
        -- intros Hnil; apply app_eq_nil in Hnil; destruct Hnil; congruence.
Qed.

(** ** [generateUrl]: sensitivity and canonical form *)

Lemma unsigned_field_no_param (f : Field.t) (q : Param.t) :
  is_signed f = false -> Param.field q <> f.
Proof.
  unfold is_signed; intros H Hq.
  assert (Hex : existsb
                  (fun p => if Field.eq_dec (Param.field p) f then true else false)
                  Param.all = true); [|congruence].
  apply existsb_exists. exists q; split; [apply all_params_listed|].
  destruct (Field.eq_dec (Param.field q) f); [reflexivity|contradiction].
Qed.

Lemma generateUrl_same_message (this : Client) (c1 c2 : TakeOptionsConfig)
    (E1 E2 : Date) :
  signed_message c1 E1 = signed_message c2 E2 ->
  generateUrl this (inr c1) E1 = generateUrl this (inr c2) E2.
Proof. intros H; unfold generateUrl; rewrite H; reflexivity. Qed.

Lemma changed_message_consequences (this : Client) (c1 c2 : TakeOptionsConfig)
    (E1 E2 : Date) :
  signed_message c1 E1 <> signed_message c2 E2 ->
  generateUrl this (inr c1) E1 <> generateUrl this (inr c2) E2
  /\ (signature_of (generateUrl this (inr c1) E1)
      <> signature_of (generateUrl this (inr c2) E2)
      \/ hmac_collision (apiKey this) (signed_message c1 E1) (signed_message c2 E2)).
Proof.
  intros Hne; split.
  - intros H; apply Hne, (generateUrl_message_inj this), H.
  - rewrite !signature_of_generateUrl.
    destruct (string_dec
                (createHmac_sha256_hex (apiKey this) (signed_message c1 E1))
                (createHmac_sha256_hex (apiKey this) (signed_message c2 E2)))
      as [Heq|Hdiff]; [right; split; assumption|left; assumption].
Qed.

(** An option outside the serialized ones, and the milliseconds of the
    expiration, change neither the URL nor its signature. *)
Lemma unsigned_option_not_signed :
  let P := with_field Field.url (Some "https://example.com") empty_config in
  let P' := with_field Field.html (Some "<h1>Hello</h1>") P in
  P' Field.html <> P Field.html
  /\ (forall f, f <> Field.html -> P' f = P f)
  /\ signature_of (generateUrl test_client (inr P') (Some 1705708800000))
     = signature_of (generateUrl test_client (inr P) (Some 1705708800000))
  /\ signature_of (generateUrl test_client (inr P) (Some 1705708800999))
     = signature_of (generateUrl test_client (inr P) (Some 1705708800000)).
Proof.
  intros P P'. split; [vm_compute; discriminate|]. split.
  - intros f Hf. unfold P'. apply with_field_other. congruence.
  - split; vm_compute; reflexivity.
Qed.

(** C7 (amended). Sensitivity of signing: for every configuration [P] and
    expiration [E], changing one of the nineteen options [generateUrl]
    serializes to a value with a different string form, or changing a valid
    [E] to a valid instant in a different second, changes the signed message
    and the URL; the signature is the HMAC of that message, so it changes
    too unless HMAC-SHA256 collides on the two messages.  Changing any other
    option, or [E] within the same second, leaves the URL unchanged. *)
Theorem signing_sensitivity (this : Client) (P : TakeOptionsConfig) (E : Date) :
  (forall (p : Param.t) (v : option (Field.type (Param.field p))),
      let P' := with_field (Param.field p) v P in
      Param.value P' p <> Param.value P p ->
      signed_message P' E <> signed_message P E
      /\ generateUrl this (inr P') E <> generateUrl this (inr P) E
      /\ (signature_of (generateUrl this (inr P') E)
          <> signature_of (generateUrl this (inr P) E)
          \/ hmac_collision (apiKey this) (signed_message P' E) (signed_message P E)))
  /\ (forall E' : Date,
         valid_date E -> valid_date E' ->
         floor_div_1000 (getTime E') <> floor_div_1000 (getTime E) ->
         signed_message P E' <> signed_message P E
         /\ generateUrl this (inr P) E' <> generateUrl this (inr P) E
         /\ (signature_of (generateUrl this (inr P) E')
             <> signature_of (generateUrl this (inr P) E)
             \/ hmac_collision (apiKey this) (signed_message P E') (signed_message P E)))
  /\ (forall (f : Field.t) (v : option (Field.type f)),
         is_signed f = false ->
         generateUrl this (inr (with_field f v P)) E = generateUrl this (inr P) E)
  /\ (forall E' : Date,
         floor_div_1000 (getTime E') = floor_div_1000 (getTime E) ->
         generateUrl this (inr P) E' = generateUrl this (inr P) E).
Proof.
  repeat split.
  - apply change_param_changes_message; assumption.
  - apply changed_message_consequences, change_param_changes_message; assumption.
  - apply changed_message_consequences, change_param_changes_message; assumption.
  - apply change_expires_changes_message; assumption.
  - apply changed_message_consequences, change_expires_changes_message; assumption.
  - apply changed_message_consequences, change_expires_changes_message; assumption.
  - intros f v Hf. apply generateUrl_same_message, signed_message_ext.
    intros q. apply value_with_field_other, unsigned_field_no_param, Hf.
  - intros E' HE. apply generateUrl_same_message.
    unfold signed_message; rewrite HE; reflexivity.
Qed.

Lemma signing_sensitivity_witness :
  let P := with_field Field.url (Some "https://example1.com") empty_config in
  let P' := with_field Field.url (Some "https://example2.com") P in
  generateUrl test_client (inr P') (Some 1705708800000)
  <> generateUrl test_client (inr P) (Some 1705708800000)
  /\ generateUrl test_client (inr P) (Some 1705708801000)
     <> generateUrl test_client (inr P) (Some 1705708800000).
Proof.
  intros P P'.
  destruct (signing_sensitivity test_client P (Some 1705708800000))
    as (Hparam & Hexpires & _ & _).
  split.
  - apply (Hparam Param.url (Some "https://example2.com")).
    vm_compute; discriminate.
  - apply (Hexpires (Some 1705708801000)).
    + unfold valid_date, time_value, max_time_value; lia.
    + unfold valid_date, time_value, max_time_value; lia.
    + vm_compute; discriminate.
Defined.

(** The tests' two URLs do get different signatures. *)
Example different_params_different_signatures :
  signature_of
    (generateUrl test_client
       (inr (with_field Field.url (Some "https://example1.com") empty_config))
       (Some 1705708800000))
  <> signature_of
       (generateUrl test_client
          (inr (with_field Field.url (Some "https://example2.com") empty_config))
          (Some 1705708800000)).
Proof. vm_compute; discriminate. Qed.

(** A width of 1e21 is serialized in scientific notation. *)
Lemma large_width_in_scientific_notation :
  let config := with_field Field.width (Some (Finite false 1 22)) empty_config in
  canonical (Finite false 1 22)
  /\ lookup "width" (build_params config) = Some "1e+21"
  /\ is_decimal_numeral "1e+21" = false
  /\ signed_message config (Some 1705708800000) = "width=1e+21&expires=1705708800".
Proof. intros config. split; [vm_compute; discriminate|]. vm_compute. auto. Qed.

Lemma kind_boolean_value (config : TakeOptionsConfig) (p : Param.t) (v : string) :
  kind_of p = boolean -> Param.value config p = Some v -> v = "true" \/ v = "false".
Proof.
  destruct p; cbn [kind_of Param.value]; try discriminate; intros _;
    match goal with
    | |- option_map _ ?o = _ -> _ => destruct o as [[]|]
    end; cbn [option_map Boolean_toString]; intros H; inversion H; auto.
Qed.

Lemma kind_number_value (config : TakeOptionsConfig) (p : Param.t) (v : string) :
  kind_of p = number -> Param.value config p = Some v ->
  exists x : JSNumber, v = Number_toString x.
Proof.
  destruct p; cbn [kind_of Param.value]; try discriminate; intros _;
    match goal with
    | |- option_map _ ?o = _ -> _ => destruct o as [x|]
    end; cbn [option_map]; intros H; inversion H; eauto.
Qed.

(** C8 (amended). Canonical serialization: [generateUrl] stores every
    defined option among the nineteen it serializes under its key in exactly
    one string form, and nothing else; booleans become ["true"] or
    ["false"]; numbers become what [String()] gives, a plain decimal numeral
    whenever the number is zero or finite with magnitude from 1e-6 up to,
    not including, 1e21; and the signed message lists the defined keys in
    strictly ascending byte-wise lexicographic order as [key=value] pairs
    joined by ["&"], followed by ["&expires="] and, for a valid expiration,
    the decimal numeral of the floor of its milliseconds divided by 1000. *)
Theorem canonical_serialization (config : TakeOptionsConfig) (expiresAt : Date) :
  let params := build_params config in
  let keys := sort (Object_keys params) in
  (forall p, lookup (Param.key p) params = Param.value config p)
  /\ Object_keys params = map Param.key (filter (is_defined config) Param.all)
  /\ (forall p v, kind_of p = boolean -> Param.value config p = Some v ->
        v = "true" \/ v = "false")
  /\ (forall p v, kind_of p = number -> Param.value config p = Some v ->
        exists x, v = Number_toString x)
  /\ (forall x, plain_range x -> is_decimal_numeral (Number_toString x) = true)
  /\ StronglySorted string_lt keys
  /\ Permutation keys (Object_keys params)
  /\ signed_message config expiresAt
     = join "&" (map (fun k => k ++ "=" ++ get_string params k) keys)
       ++ "&expires=" ++ String_integral (floor_div_1000 (getTime expiresAt))
  /\ signed_message config expiresAt
     = canonical_query config
       ++ "&expires=" ++ String_integral (floor_div_1000 (getTime expiresAt))
  /\ (forall ms, expiresAt = Some ms -> time_value ms ->
        String_integral (floor_div_1000 (getTime expiresAt))
        = decimal_int (ms / 1000)).
Proof.
  intros params keys; subst params keys.
  split; [apply build_params_lookup|].
  split; [rewrite build_params_entries; apply keys_entries|].
  split; [intros p v; apply kind_boolean_value|].
  split; [intros p v; apply kind_number_value|].
  split; [apply Number_toString_plain|].
  split.
  { rewrite sorted_keys_of_params.
    apply StronglySorted_map_filter, sorted_keys_ascending. }
  split; [apply Permutation_sym, StringSort.Permuted_sort|].
  split; [reflexivity|].
  split; [apply signed_message_canonical|].
  intros ms -> Hms. cbn [getTime floor_div_1000 option_map String_integral].
  apply Number_toString_of_Z.
  pose proof (abs_time_seconds ms Hms).
  change (10 ^ 21) with 1000000000000000000000. lia.
Qed.

Lemma canonical_serialization_witness :
  let config :=
    with_field Field.darkMode (Some true)
      (with_field Field.width (Some (Number_of_Z 1200))
         (with_field Field.url (Some "https://example.com") empty_config)) in
  signed_message config (Some 1705708800000)
  = "dark_mode=true&url=https://example.com&width=1200&expires=1705708800"
  /\ String_integral (floor_div_1000 (getTime (Some 1705708800999)))
     = decimal_int (1705708800999 / 1000).
Proof.
  intros config.
  destruct (canonical_serialization config (Some 1705708800999))
    as (_ & _ & _ & _ & _ & _ & _ & _ & _ & Hexpires).
  split.
  - rewrite (proj1 (proj2 (proj2 (proj2 (proj2 (proj2 (proj2 (proj2 (proj2
               (canonical_serialization config (Some 1705708800000))))))))))).
    vm_compute; reflexivity.
  - apply (Hexpires 1705708800999 eq_refl).
    unfold time_value, max_time_value; lia.
Defined.

(** ** [parseWebhook] *)

Lemma element_toString_array (items : list JSON) :
  element_toString (JArray items)
  = (strs <- elements_toString items ;; Ok (join "," strs)).
Proof.
reflexivity. Qed.

(** The conversion succeeds on convertible values and throws a TypeError
    on the others. *)
Lemma element_toString_spec (v : JSON) :
  if convertible v then exists s, element_toString v = Ok s
  else element_toString v = Throw TypeError_not_primitive.
Proof.
  induction v as [|b|n|s|items IH|members] using JSON_array_ind;
    try (cbn; eauto; fail).
  - rewrite element_toString_array. cbn [convertible].
    induction IH as [|x r Hx Hr IHr]; [cbn; eauto|].
    cbn [forallb elements_toString].
    destruct (convertible x).
    + destruct Hx as [sx Hx]; rewrite Hx. cbn [andb bind].
      destruct (forallb convertible r).
      * destruct IHr as [s Hs].
        destruct (elements_toString r) as [sr|e]; [|discriminate Hs].
        cbn [bind]. eauto.
      * destruct (elements_toString r) as [sr|e]; [discriminate IHr|].
        cbn [bind] in *. exact IHr.
    + rewrite Hx. reflexivity.
  - cbn [convertible element_toString].
    destruct (has_own "toString" members); cbn; eauto.
Qed.

Section WebhookProperties.

Variable JSON_parse : string -> Result JSON.
Variable Date_parse : string -> Date.

Lemma new_Date_convertible (ts : JSValue) :
  (forall j, ts = Some j -> convertible j = true) ->
  exists d, new_Date Date_parse ts = Ok d.
Proof.
  intros H. destruct ts as [j|]; [|cbn; eauto].
  specialize (H j eq_refl). pose proof (element_toString_spec j) as Hs.
  rewrite H in Hs. destruct Hs as [s Hs].
  unfold new_Date, ToPrimitive.
  destruct j; try (cbn; eauto; fail); rewrite Hs; cbn; eauto.
Qed.

Lemma new_Date_throws (ts : JSValue) (e : JSError) :
  new_Date Date_parse ts = Throw e -> e = TypeError_not_primitive.
Proof.
  destruct ts as [j|]; [|discriminate].
  pose proof (element_toString_spec j) as Hs.
  unfold new_Date, ToPrimitive.
  destruct j as [|b|n|s|items|members]; cbn [bind]; try discriminate.
  - destruct (convertible (JArray items)).
    + destruct Hs as [s Hs]; rewrite Hs; discriminate.
    + rewrite Hs; cbn [bind]; congruence.
  - destruct (convertible (JObject members)).
    + destruct Hs as [s Hs]; rewrite Hs; discriminate.
    + rewrite Hs; cbn [bind]; congruence.
Qed.

Lemma strict_equals_other (ev lit : string) :
  ev <> lit -> strict_equals_string (Some (JString ev)) lit = false.
Proof. intros H; apply String.eqb_neq, H. Qed.

(** An unknown event type with an unconvertible timestamp makes
    [parseWebhook] throw, whatever the built-in parsers do. *)
Lemma odd_timestamp_throws :
  parseWebhook JSON_parse Date_parse (inr odd_timestamp_event)
  = Throw TypeError_not_primitive.
Proof. reflexivity. Qed.

End WebhookProperties.

(** An object that decodes fine and carries an event type outside the four
    known ones, on which [parseWebhook] throws. *)
Lemma unknown_event_with_odd_timestamp_throws :
  known_event "screenshot.queued" = false
  /\ own_property "event"
       [ ("event", JString "screenshot.queued"); ("id", JString "req_abc123");
         ("timestamp", JObject [("toString", JNumber (Finite false 1 1))]) ]
     = Some (JString "screenshot.queued")
  /\ decode unused_JSON_parse (inr odd_timestamp_event) = Ok odd_timestamp_event
  /\ parseWebhook unused_JSON_parse unused_Date_parse (inr odd_timestamp_event)
     = Throw TypeError_not_primitive.
Proof. repeat split. Qed.

(** C9 (amended). Lenient forward compatibility: for every payload that
    decodes to an object whose event member is a string outside the four
    known values, and whose timestamp member [new Date] can convert (it is
    absent, a JSON primitive, or an array or object on which [ToPrimitive]
    succeeds), [parseWebhook] does not throw: it returns an event carrying
    the payload's id, its event string as type, the Date made from its
    timestamp, and the empty data variant. *)
Theorem unknown_event_is_lenient
    (JSON_parse : string -> Result JSON) (Date_parse : string -> Date)
    (payload : string + JSON) (members : list (string * JSON)) (ev : string) :
  decode JSON_parse payload = Ok (JObject members) ->
  own_property "event" members = Some (JString ev) ->
  known_event ev = false ->
  (forall j, own_property "timestamp" members = Some j -> convertible j = true) ->
  exists d,
    new_Date Date_parse (own_property "timestamp" members) = Ok d
    /\ parseWebhook JSON_parse Date_parse payload
       = Ok {| WebhookEvent.id := own_property "id" members;
               WebhookEvent.type := Some (JString ev);
               WebhookEvent.timestamp := d;
               WebhookEvent.data := EventData.empty |}.
Proof.
  intros Hdecode Hevent Hunknown Hts.
  destruct (new_Date_convertible Date_parse _ Hts) as [d Hd].
  exists d; split; [exact Hd|].
  unfold parseWebhook. rewrite Hdecode. cbn [bind get].
  rewrite Hevent, Hd. cbn [bind].
  unfold known_event in Hunknown. cbn [strict_equals_string].
  apply orb_false_iff in Hunknown; destruct Hunknown as [Hunknown H4].
  apply orb_false_iff in Hunknown; destruct Hunknown as [Hunknown H3].
  apply orb_false_iff in Hunknown; destruct Hunknown as [H1 H2].
  rewrite H1, H2, H3, H4. reflexivity.
Qed.

Lemma unknown_event_is_lenient_witness :
  parseWebhook unused_JSON_parse (fun _ => Some 1705579200000) (inr unknown_event)
  = Ok {| WebhookEvent.id := Some (JString "req_abc123");
          WebhookEvent.type := Some (JString "screenshot.queued");
          WebhookEvent.timestamp := Some 1705579200000;
          WebhookEvent.data := EventData.empty |}.
Proof.
  destruct (unknown_event_is_lenient unused_JSON_parse
              (fun _ => Some 1705579200000) (inr unknown_event)
              [ ("event", JString "screenshot.queued");
                ("id", JString "req_abc123");
                ("timestamp", JString "2024-01-18T12:00:00Z");
                ("data", JObject [("url", JString "https://example.com")]) ]
              "screenshot.queued" eq_refl eq_refl eq_refl)
    as (d & Hd & Hparse).
  - intros j Hj; injection Hj as <-; reflexivity.
  - injection Hd as <-. exact Hparse.
Defined.

(** C10. A payload that decodes to an object whose event member is
    ["screenshot.completed"] or ["screenshot.failed"] and that has no data
    member makes [parseWebhook] throw a TypeError instead of returning an
    event; the TypeError comes from reading a member of the missing data
    object whenever the timestamp member is one [new Date] can convert. *)
Theorem missing_data_throws
    (JSON_parse : string -> Result JSON) (Date_parse : string -> Date)
    (payload : string + JSON) (members : list (string * JSON)) (ev : string) :
  decode JSON_parse payload = Ok (JObject members) ->
  own_property "event" members = Some (JString ev) ->
  ev = "screenshot.completed" \/ ev = "screenshot.failed" ->
  own_property "data" members = None ->
  (exists e,
      parseWebhook JSON_parse Date_parse payload = Throw e
      /\ (e = TypeError_property_of_nullish \/ e = TypeError_not_primitive))
  /\ ((forall j, own_property "timestamp" members = Some j -> convertible j = true) ->
      parseWebhook JSON_parse Date_parse payload
      = Throw TypeError_property_of_nullish).
Proof.
  intros Hdecode Hevent Hev Hdata.
  assert (Hrun : forall d,
             new_Date Date_parse (own_property "timestamp" members) = Ok d ->
             parseWebhook JSON_parse Date_parse payload
             = Throw TypeError_property_of_nullish).
  { intros d Hd. unfold parseWebhook. rewrite Hdecode. cbn [bind get].
    rewrite Hevent, Hd, Hdata. cbn [bind].
    destruct Hev as [-> | ->]; reflexivity. }
  split.
  - destruct (new_Date Date_parse (own_property "timestamp" members))
      as [d|e] eqn:Hd.
    + exists TypeError_property_of_nullish; split; [apply (Hrun d eq_refl)|auto].
    + exists e. pose proof (new_Date_throws Date_parse _ _ Hd) as ->.
      split; [|auto].
      unfold parseWebhook. rewrite Hdecode. cbn [bind get].
      rewrite Hd. reflexivity.
  - intros Hts. destruct (new_Date_convertible Date_parse _ Hts) as [d Hd].
    apply (Hrun d Hd).
Qed.

Lemma missing_data_throws_witness :
  parseWebhook unused_JSON_parse (fun _ => Some 1705579200000)
    (inr event_without_data)
  = Throw TypeError_property_of_nullish.
Proof.
  apply (missing_data_throws unused_JSON_parse (fun _ => Some 1705579200000)
           (inr event_without_data)
           [ ("event", JString "screenshot.completed");
             ("id", JString "req_abc123");
             ("timestamp", JString "2024-01-18T12:00:00Z") ]
           "screenshot.completed" eq_refl eq_refl (or_introl eq_refl) eq_refl).
  intros j Hj; injection Hj as <-; reflexivity.
Defined.

(* ================================================================= *)
(** * Further properties of the code *)

(** ** [extractWebhookHeaders] *)

Lemma getHeader_absent (headers : PlainHeaders + Headers) (name : string) :
  header_absent headers name -> getHeader headers name = "".
Proof.
  destruct headers as [o|h]; cbn [header_absent getHeader].
  - intros [-> ->]; reflexivity.
  - intros ->; reflexivity.
Qed.

Lemma getHeader_is (headers : PlainHeaders + Headers) (name v : string) :
  header_is headers name v -> getHeader headers name = v.
Proof.
  destruct headers as [o|h]; cbn [header_is getHeader].
  - intros [(hv & -> & [-> | (rest & ->)]) | (-> & hv & -> & [-> | (rest & ->)])];
      reflexivity.
  - intros ->; reflexivity.
Qed.

(** X1. A request that lacks the signature header or the timestamp header
    is rejected: [extractWebhookHeaders] gives the empty string for the
    missing header, and [verifyWebhook] returns [false] on it, whatever the
    payload, the secret, the clock and the other header. *)
Theorem missing_header_is_rejected
    (headers : PlainHeaders + Headers) (Date_now : Z) (payload secret : string) :
  header_absent headers "X-Webhook-Signature"
  \/ header_absent headers "X-Webhook-Timestamp" ->
  let extracted := extractWebhookHeaders headers in
  (WebhookHeaders.signature extracted = ""
   \/ WebhookHeaders.timestamp extracted = "")
  /\ verifyWebhook Date_now payload (WebhookHeaders.signature extracted)
       (WebhookHeaders.timestamp extracted) secret
     = Ok false.
Proof.
  intros H extracted; subst extracted; cbn [extractWebhookHeaders
    WebhookHeaders.signature WebhookHeaders.timestamp].
  destruct H as [H|H]; apply getHeader_absent in H; rewrite H.
  - split; [left; reflexivity|]. unfold verifyWebhook; cbn [is_empty orb].
    rewrite orb_true_r; reflexivity.
  - split; [right; reflexivity|]. unfold verifyWebhook; cbn [is_empty orb].
    rewrite !orb_true_r; reflexivity.
Qed.

Lemma missing_header_is_rejected_witness :
  verifyWebhook 1705579200000 sample_payload
    (WebhookHeaders.signature
       (extractWebhookHeaders
          (inl [("X-WEBHOOK-SIGNATURE", OneValue "sha256=abc123");
                ("x-webhook-timestamp", OneValue "1705579200")])))
    (WebhookHeaders.timestamp
       (extractWebhookHeaders
          (inl [("X-WEBHOOK-SIGNATURE", OneValue "sha256=abc123");
                ("x-webhook-timestamp", OneValue "1705579200")])))
    sample_secret
  = Ok false.
Proof.
  apply (missing_header_is_rejected
           (inl [("X-WEBHOOK-SIGNATURE", OneValue "sha256=abc123");
                 ("x-webhook-timestamp", OneValue "1705579200")])
           1705579200000 sample_payload sample_secret).
  left. split; reflexivity.
Defined.

(** X2. End to end: when the headers deliver the signature of the payload
    and the timestamp [String(t)] (a plain object under the exact or the
    lower-case name, as a string or as the first element of an array, or a
    [Headers] object), and [t] is within 300 seconds of the clock, then
    [verifyWebhook] on the extracted headers returns [true]. *)
Theorem extracted_headers_verify
    (headers : PlainHeaders + Headers) (Date_now : Z) (payload secret : string)
    (t : Z) :
  time_value Date_now -> payload <> "" -> secret <> "" ->
  Z.abs (Date_now / 1000 - t) <= 300 ->
  header_is headers "X-Webhook-Signature"
    (createValidSignature secret payload (String_of_integer t)) ->
  header_is headers "X-Webhook-Timestamp" (String_of_integer t) ->
  let extracted := extractWebhookHeaders headers in
  verifyWebhook Date_now payload (WebhookHeaders.signature extracted)
    (WebhookHeaders.timestamp extracted) secret
  = Ok true.
Proof.
  intros Hnow Hp Hs Hnear Hsig Hts extracted; subst extracted.
  cbn [extractWebhookHeaders WebhookHeaders.signature WebhookHeaders.timestamp].
  rewrite (getHeader_is _ _ _ Hsig), (getHeader_is _ _ _ Hts).
  apply verifyWebhook_fresh; assumption.
Qed.

Lemma extracted_headers_verify_witness :
  let headers : PlainHeaders + Headers :=
    inl [("x-webhook-signature",
          ManyValues [createValidSignature sample_secret sample_payload
                        (String_of_integer 1705579200);
                      "sha256=def456"]);
         ("X-Webhook-Timestamp", OneValue (String_of_integer 1705579200))] in
  verifyWebhook 1705579200000 sample_payload
    (WebhookHeaders.signature (extractWebhookHeaders headers))
    (WebhookHeaders.timestamp (extractWebhookHeaders headers)) sample_secret
  = Ok true.
Proof.
  intros headers.
  apply (extracted_headers_verify headers 1705579200000 sample_payload
           sample_secret 1705579200).
  - unfold time_value, max_time_value; lia.
  - vm_compute; discriminate.
  - vm_compute; discriminate.
  - vm_compute; discriminate.
  - right. split; [reflexivity|]. eexists; split; [reflexivity|].
    right; eexists; reflexivity.
  - left. eexists; split; [reflexivity|]. left; reflexivity.
Defined.

(** ** [TakeOptions.toParams] *)

Lemma toParams_fold (this : TakeOptions) :
  toParams this = fold_left (body_step (builder_config this)) body_fields [].
Proof.
  unfold toParams. cbv zeta.
  cbv beta iota delta [fold_left body_fields body_step body_path body_value encode].
  reflexivity.
Qed.

Lemma member_set_member_same {A} (k : string) (v : A) (o : list (string * A)) :
  member k (set_member k v o) = Some v.
Proof.
  induction o as [|[k' v'] o IH]; simpl.
  - rewrite String.eqb_refl; reflexivity.
  - destruct (String.eqb k' k) eqn:E; simpl; rewrite E; [reflexivity|exact IH].
Qed.

Lemma member_set_member_other {A} (k k' : string) (v : A) (o : list (string * A)) :
  k <> k' -> member k' (set_member k v o) = member k' o.
Proof.
  intros Hne. induction o as [|[a w] o IH]; simpl.
  - destruct (String.eqb_spec k k'); [contradiction|reflexivity].
  - destruct (String.eqb_spec a k) as [->|Hak]; simpl.
    + destruct (String.eqb_spec k k'); [contradiction|reflexivity].
    + destruct (String.eqb a k'); [reflexivity|exact IH].
Qed.

Lemma read_after_write (config : TakeOptionsConfig) (f : Field.t)
    (params : list (string * JSON)) (v : JSON) :
  body_value config f = Some v ->
  read_path (body_path f) (body_step config params f) = Some v.
Proof.
  intros Hv. unfold body_step. rewrite Hv.
  destruct (body_path f) as [k|g k]; cbn [read_path put put_in].
  - apply member_set_member_same.
  - rewrite member_set_member_same. cbn [spread]. apply member_set_member_same.
Qed.

Lemma read_after_other_write (config : TakeOptionsConfig) (f : Field.t)
    (params : list (string * JSON)) (path : ParamPath) :
  independent path (body_path f) = true ->
  read_path path (body_step config params f) = read_path path params.
Proof.
  intros Hind. unfold body_step.
  destruct (body_value config f) as [v|];
    [|destruct (body_path f); reflexivity].
  destruct (body_path f) as [k|g k], path as [k'|g' k'];
    cbn [independent read_path put put_in] in *.
  - apply member_set_member_other. apply negb_true_iff in Hind.
    intros ->; rewrite String.eqb_refl in Hind; discriminate.
  - rewrite member_set_member_other; [reflexivity|].
    apply negb_true_iff in Hind.
    intros ->; rewrite String.eqb_refl in Hind; discriminate.
  - apply member_set_member_other. apply negb_true_iff in Hind.
    intros ->; rewrite String.eqb_refl in Hind; discriminate.
  - apply negb_true_iff, andb_false_iff in Hind.
    destruct (String.eqb_spec g' g) as [->|Hg].
    + rewrite member_set_member_same. cbn [spread].
      apply member_set_member_other.
      destruct Hind as [Hind|Hind]; [discriminate|].
      intros ->; rewrite String.eqb_refl in Hind; discriminate.
    + rewrite member_set_member_other by congruence. reflexivity.
Qed.

Lemma read_after_other_writes (config : TakeOptionsConfig) (path : ParamPath)
    (l : list Field.t) :
  forallb (fun g => independent path (body_path g)) l = true ->
  forall params,
    read_path path (fold_left (body_step config) l params) = read_path path params.
Proof.
  induction l as [|g l IH]; intros Hall params; [reflexivity|].
  cbn [forallb] in Hall. apply andb_true_iff in Hall. destruct Hall as [Hg Hl].
  cbn [fold_left]. rewrite IH by assumption.
  apply read_after_other_write, Hg.
Qed.

Lemma independent_sym (p q : ParamPath) : independent p q = independent q p.
Proof.
  destruct p as [a|g a], q as [b|h b]; cbn [independent].
  - rewrite (String.eqb_sym a b); reflexivity.
  - rewrite (String.eqb_sym a h); reflexivity.
  - rewrite (String.eqb_sym g b); reflexivity.
  - rewrite (String.eqb_sym g h), (String.eqb_sym a b); reflexivity.
Qed.

Lemma read_after_fold (config : TakeOptionsConfig) (f : Field.t)
    (l : list Field.t) :
  pairwise_independent l = true -> In f l ->
  forall params,
    read_path (body_path f) (fold_left (body_step config) l params)
    = match body_value config f with
      | Some v => Some v
      | None => read_path (body_path f) params
      end.
Proof.
  induction l as [|g l IH]; intros Hpair Hin params; [destruct Hin|].
  cbn [pairwise_independent] in Hpair. apply andb_true_iff in Hpair.
  destruct Hpair as [Hg Hl]. cbn [fold_left].
  destruct Hin as [->|Hin].
  - rewrite read_after_other_writes.
    + destruct (body_value config f) as [v|] eqn:Hv.
      * apply read_after_write, Hv.
      * unfold body_step; rewrite Hv. destruct (body_path f); reflexivity.
    + rewrite forallb_forall in *. intros h Hh.
      rewrite independent_sym. apply Hg, Hh.
  - rewrite (IH Hl Hin).
    destruct (body_value config f); [reflexivity|].
    apply read_after_other_write.
    rewrite forallb_forall in Hg. apply Hg, Hin.
Qed.

Lemma body_fields_complete (f : Field.t) : In f body_fields.
Proof. destruct f; cbn; tauto. Qed.

Lemma body_fields_independent : pairwise_independent body_fields = true.
Proof. vm_compute; reflexivity. Qed.

Lemma read_toParams (this : TakeOptions) (f : Field.t) :
  read_path (body_path f) (toParams this) = body_value (builder_config this) f.
Proof.
  rewrite toParams_fold.
  rewrite (read_after_fold _ f body_fields body_fields_independent
             (body_fields_complete f) []).
  destruct (body_value (builder_config this) f); [reflexivity|].
  destruct (body_path f); reflexivity.
Qed.

(** X3. [toParams] stores every option where the API expects it: reading
    the option's path back from the params (its top-level key, or its key
    inside the [viewport], [pdf] or [storage] object) gives the JSON form of
    its value when it is defined and [undefined] when it is not. *)
Theorem toParams_read_back (this : TakeOptions) (f : Field.t) :
  read_path (body_path f) (toParams this) = body_value (builder_config this) f.
Proof.
  rewrite toParams_fold.
  rewrite (read_after_fold (builder_config this) f body_fields
             body_fields_independent (body_fields_complete f) []).
  destruct (body_value (builder_config this) f) as [v|]; [reflexivity|].
  destruct (body_path f) as [k|group k]; reflexivity.
Qed.

Lemma map_injective {A B} (g : A -> B) (l l' : list A) :
  (forall x y, g x = g y -> x = y) -> map g l = map g l' -> l = l'.
Proof.
  intros Hg. revert l'; induction l as [|x l IH]; intros [|y l'] H;
    simpl in H; try discriminate; [reflexivity|].
  injection H as Hx Hl. f_equal; auto.
Qed.

Lemma Cookie_json_read (c : Cookie) : Cookie_of_json (Cookie_json c) = Some c.
Proof.
  destruct c as [n v [d|] [p|] [e|] [[]|] [[]|] [[]|]]; reflexivity.
Qed.

Lemma Geolocation_json_read (g : Geolocation) :
  Geolocation_of_json (Geolocation_json g) = Some g.
Proof. destruct g as [lat long [a|]]; reflexivity. Qed.

Ltac enum_injective :=
  let x := fresh in let y := fresh in let H := fresh in
  intros x y H; destruct x, y; (reflexivity || discriminate H).

Lemma encode_injective (f : Field.t) (x y : Field.type f) :
  encode f x = encode f y -> x = y.
Proof.
  destruct f; cbn [encode Field.type] in *; intros H;
    try (injection H; intros; subst; reflexivity; fail).
  - (* format *) injection H as H; revert x y H; enum_injective.
  - (* waitFor *) injection H as H; revert x y H; enum_injective.
  - (* preset *) injection H as H; revert x y H; enum_injective.
  - (* device *) injection H as H; revert x y H; enum_injective.
  - (* blockUrls *) injection H as H.
    apply (map_injective JString); [intros a b E; injection E; auto|exact H].
  - (* blockResources *) injection H as H.
    apply (map_injective (fun r => JString (BlockableResource_to_string r)));
      [|exact H].
    intros a b E; injection E as E; revert a b E; enum_injective.
  - (* hide *) injection H as H.
    apply (map_injective JString); [intros a b E; injection E; auto|exact H].
  - (* remove *) injection H as H.
    apply (map_injective JString); [intros a b E; injection E; auto|exact H].
  - (* mediaType *) injection H as H; revert x y H; enum_injective.
  - (* geolocation *)
    apply (f_equal Geolocation_of_json) in H.
    rewrite !Geolocation_json_read in H; congruence.
  - (* headers *) injection H as H.
    apply (map_injective (fun kv : string * string => (fst kv, JString (snd kv))));
      [|exact H].
    intros [a b] [c d] E; cbn in E; congruence.
  - (* cookies *) injection H as H.
    apply (map_injective Cookie_json); [|exact H].
    intros a b E. apply (f_equal Cookie_of_json) in E.
    rewrite !Cookie_json_read in E; congruence.
  - (* authBasic *)
    destruct x as [u p], y as [u' p']. unfold BasicAuth_json in H.
    cbn [username password] in H. injection H as -> ->. reflexivity.
  - (* pdfPaperSize *) injection H as H; revert x y H; enum_injective.
  - (* storageAcl *) injection H as H; revert x y H; enum_injective.
Qed.

(** X4. [toParams] loses nothing: two builders with the same params hold
    the same value for every option of the configuration. *)
Theorem toParams_injective (a b : TakeOptions) :
  toParams a = toParams b ->
  forall f, builder_config a f = builder_config b f.
Proof.
  intros H f.
  pose proof (read_toParams a f) as Ha.
  rewrite H, read_toParams in Ha. unfold body_value in Ha.
  destruct (builder_config a f) as [x|], (builder_config b f) as [y|];
    cbn [option_map] in Ha; try discriminate; [|reflexivity].
  f_equal. apply (encode_injective f). congruence.
Qed.

Lemma toParams_injective_witness :
  builder_config
    (Builder.width (Number_of_Z 1200) (Builder.url "https://example.com"))
    Field.width
  = builder_config
      (Builder.width (Number_of_Z 1200)
         (Builder.width (Number_of_Z 800) (Builder.url "https://example.com")))
      Field.width.
Proof.
  apply (toParams_injective
           (Builder.width (Number_of_Z 1200) (Builder.url "https://example.com"))
           (Builder.width (Number_of_Z 1200)
              (Builder.width (Number_of_Z 800) (Builder.url "https://example.com")))).
  vm_compute; reflexivity.
Defined.

Example toQueryString_example :
  toQueryString
    (Builder.blockUrls ["*.ads.com/*"; "a b"]
       (Builder.width (Number_of_Z 1200) (Builder.url "https://example.com")))
  = "url=https%3A%2F%2Fexample.com&width=1200&block_urls=*.ads.com%2F*&block_urls=a+b".
Proof. vm_compute; reflexivity. Qed.

(** ** The builder: order of calls *)

Lemma toParams_ext (a b : TakeOptions) :
  (forall f, builder_config a f = builder_config b f) -> toParams a = toParams b.
Proof.
  intros H. rewrite !toParams_fold.
  generalize (@nil (string * JSON)). 
  induction body_fields as [|f l IH]; intros params; [reflexivity|].
  cbn [fold_left]. unfold body_step at 2 4, body_value. rewrite (H f). apply IH.
Qed.

Lemma set_set_same (f : Field.t) (v w : Field.type f) (o : TakeOptions) (g : Field.t) :
  builder_config (Builder.set f v (Builder.set f w o)) g
  = builder_config (Builder.set f v o) g.
Proof.
  cbn [Builder.set Builder.make builder_config].
  destruct (Field.eq_dec f g) as [<-|Hne].
  - rewrite !with_field_same; reflexivity.
  - rewrite !with_field_other by assumption; reflexivity.
Qed.

Lemma set_set_other (f g : Field.t) (v : Field.type f) (w : Field.type g)
    (o : TakeOptions) (h : Field.t) :
  f <> g ->
  builder_config (Builder.set f v (Builder.set g w o)) h
  = builder_config (Builder.set g w (Builder.set f v o)) h.
Proof.
  intros Hne. cbn [Builder.set Builder.make builder_config].
  destruct (Field.eq_dec f h) as [<-|Hf].
  - rewrite with_field_same, (with_field_other g f) by congruence.
    rewrite with_field_same; reflexivity.
  - rewrite (with_field_other f h) by assumption.
    destruct (Field.eq_dec g h) as [<-|Hg].
    + rewrite !with_field_same; reflexivity.
    + rewrite !(with_field_other g h) by assumption.
      rewrite (with_field_other f h) by assumption; reflexivity.
Qed.

(** X5. The order of builder calls for two different options does not
    matter: both orders give the same request params and the same signed
    URL. *)
Theorem builder_calls_commute
    (f g : Field.t) (v : Field.type f) (w : Field.type g) (o : TakeOptions)
    (client : Client) (expiresAt : Date) :
  f <> g ->
  let a := Builder.set f v (Builder.set g w o) in
  let b := Builder.set g w (Builder.set f v o) in
  toParams a = toParams b
  /\ generateUrl client (inl a) expiresAt = generateUrl client (inl b) expiresAt.
Proof.
  intros Hne a b. split.
  - apply toParams_ext. intros h; apply set_set_other, Hne.
  - unfold generateUrl, toConfig. 
    rewrite (signed_message_ext (builder_config a) (builder_config b)); [reflexivity|].
    intros q. destruct q; cbn [Param.value];
      unfold a, b; rewrite (set_set_other f g v w o _ Hne); reflexivity.
Qed.

Lemma builder_calls_commute_witness :
  toParams (Builder.width (Number_of_Z 1200)
              (Builder.format ImageFormat.png (Builder.url "https://example.com")))
  = toParams (Builder.format ImageFormat.png
                (Builder.width (Number_of_Z 1200) (Builder.url "https://example.com"))).
Proof.
  apply (builder_calls_commute Field.width Field.format (Number_of_Z 1200)
           ImageFormat.png (Builder.url "https://example.com") test_client
           (Some 1705708800000)).
  discriminate.
Defined.

(** X6. Of two builder calls for the same option the later one wins: the
    earlier value leaves no trace in the params or in the signed URL. *)
Theorem builder_last_call_wins
    (f : Field.t) (v w : Field.type f) (o : TakeOptions)
    (client : Client) (expiresAt : Date) :
  let a := Builder.set f v (Builder.set f w o) in
  let b := Builder.set f v o in
  toParams a = toParams b
  /\ generateUrl client (inl a) expiresAt = generateUrl client (inl b) expiresAt
  /\ toConfig a f = Some v.
Proof.
  intros a b. split; [|split].
  - apply toParams_ext. intros h; apply set_set_same.
  - unfold generateUrl, toConfig.
    rewrite (signed_message_ext (builder_config a) (builder_config b)); [reflexivity|].
    intros q. destruct q; cbn [Param.value];
      unfold a, b; rewrite (set_set_same f v w o); reflexivity.
  - apply with_field_same.
Qed.

(** ** [TakeOptions.toQueryString] *)

Lemma query_params_fold (this : TakeOptions) :
  query_params this = fold_left run_step (query_steps (builder_config this)) [].
Proof.
  unfold query_params. cbv zeta.
  cbv beta iota delta [fold_left query_steps run_step].
  reflexivity.
Qed.

Lemma member_filter_other {A} (k name : string) (l : list (string * A)) :
  k <> name ->
  member k (filter (fun e => negb (String.eqb (fst e) name)) l) = member k l.
Proof.
  intros Hne. induction l as [|[n v] l IH]; [reflexivity|]. cbn [filter fst].
  destruct (String.eqb_spec n name) as [->|Hn]; cbn [negb member].
  - destruct (String.eqb_spec name k); [congruence|exact IH].
  - destruct (String.eqb n k); [reflexivity|exact IH].
Qed.

Lemma member_usp_set_same (name value : string) (l : URLSearchParams) :
  member name (usp_set name value l) = Some value.
Proof.
  induction l as [|[n v] l IH]; cbn [usp_set member].
  - rewrite String.eqb_refl; reflexivity.
  - destruct (String.eqb n name) eqn:E; cbn [member]; rewrite E;
      [reflexivity|exact IH].
Qed.

Lemma member_usp_set_other (k name value : string) (l : URLSearchParams) :
  k <> name -> member k (usp_set name value l) = member k l.
Proof.
  intros Hne. induction l as [|[n v] l IH]; cbn [usp_set member].
  - destruct (String.eqb_spec name k); [congruence|reflexivity].
  - destruct (String.eqb_spec n name) as [->|Hn]; cbn [member].
    + destruct (String.eqb_spec name k); [congruence|].
      apply member_filter_other, Hne.
    + destruct (String.eqb n k); [reflexivity|exact IH].
Qed.

Lemma member_app_other {A} (k name : string) (v : A) (l : list (string * A)) :
  k <> name -> member k (l ++ [(name, v)]) = member k l.
Proof.
  intros Hne. induction l as [|[n w] l IH]; cbn [app member].
  - destruct (String.eqb_spec name k); [congruence|reflexivity].
  - destruct (String.eqb n k); [reflexivity|exact IH].
Qed.

Lemma member_run_step_other (k : string) (s : QueryStep) (l : URLSearchParams) :
  k <> step_name s -> member k (run_step l s) = member k l.
Proof.
  destruct s as [name [v|]|name [vs|]]; cbn [step_name run_step
    usp_set_if_defined usp_append_each]; intros Hne; try reflexivity.
  - apply member_usp_set_other, Hne.
  - revert l; induction vs as [|v vs IH]; intros l; [reflexivity|].
    cbn [fold_left]. rewrite IH. apply member_app_other, Hne.
Qed.

Lemma member_after_steps (k : string) (value : option string)
    (steps : list QueryStep) :
  NoDup (map step_name steps) -> In (SetStep k value) steps ->
  forall l,
    member k (fold_left run_step steps l)
    = match value with
      | Some v => Some v
      | None => member k l
      end.
Proof.
  induction steps as [|s steps IH]; intros Hnd Hin l; [destruct Hin|].
  inversion Hnd as [|? ? Hs Hrest]; subst. cbn [fold_left].
  destruct Hin as [->|Hin].
  - assert (Hlater : forall l',
               member k (fold_left run_step steps l') = member k l').
    { clear IH Hnd. cbn [step_name] in Hs.
      induction steps as [|s steps IHs]; intros l'; [reflexivity|].
      inversion Hrest; subst. cbn [fold_left].
      rewrite IHs; [|intros Hin; apply Hs; right; exact Hin|assumption].
      apply member_run_step_other. intros ->; apply Hs; left; reflexivity. }
    rewrite Hlater. destruct value as [v|]; cbn [run_step usp_set_if_defined];
      [apply member_usp_set_same|reflexivity].
  - rewrite (IH Hrest Hin). destruct value; [reflexivity|].
    apply member_run_step_other. intros Hk.
    apply Hs. rewrite <- Hk.
    exact (in_map step_name steps (SetStep k None) Hin).
Qed.

Lemma query_step_names_distinct (config : TakeOptionsConfig) :
  NoDup (map step_name (query_steps config)).
Proof. apply nodupb_NoDup; reflexivity. Qed.

Lemma query_step_of_param (config : TakeOptionsConfig) (p : Param.t) :
  In (SetStep (Param.key p) (Param.value config p)) (query_steps config).
Proof.
  destruct p; cbn [Param.key Param.value query_steps];
    repeat (first [left; reflexivity | right]).
Qed.

(** X7. The query string and the signed URL agree on the nineteen
    parameters they share: under each of those keys [toQueryString] holds
    the very string [generateUrl] writes into the signed message (before
    percent-encoding), and no pair when the option is undefined. *)
Theorem query_params_agree_with_signed_params (this : TakeOptions) (p : Param.t) :
  member (Param.key p) (query_params this) = Param.value (toConfig this) p
  /\ member (Param.key p) (query_params this)
     = lookup (Param.key p) (build_params (toConfig this)).
Proof.
  assert (H : member (Param.key p) (query_params this)
              = Param.value (toConfig this) p).
  { rewrite query_params_fold.
    rewrite (member_after_steps _ _ _ (query_step_names_distinct _)
               (query_step_of_param _ p)).
    unfold toConfig. destruct (Param.value (builder_config this) p); reflexivity. }
  split; [exact H|]. rewrite H, build_params_lookup; reflexivity.
Qed.

Lemma form_encode_cons (c : ascii) (r : string) :
  form_encode (String c r) = form_encode (String c "") ++ form_encode r.
Proof. destruct c as [[] [] [] [] [] [] [] []]; reflexivity. Qed.

Lemma form_encode_char (c : ascii) :
  all_chars query_char (form_encode (String c "")) = true.
Proof. destruct c as [[] [] [] [] [] [] [] []]; reflexivity. Qed.

Lemma all_chars_append (ok : ascii -> bool) (a b : string) :
  all_chars ok (a ++ b) = all_chars ok a && all_chars ok b.
Proof.
  induction a as [|c a IH]; cbn [append all_chars]; [reflexivity|].
  rewrite IH, andb_assoc; reflexivity.
Qed.

Lemma form_encode_chars (s : string) : all_chars query_char (form_encode s) = true.
Proof.
  induction s as [|c s IH]; [reflexivity|].
  rewrite form_encode_cons, all_chars_append, form_encode_char, IH; reflexivity.
Qed.

Lemma all_chars_join (ok : ascii -> bool) (sep : string) (l : list string) :
  all_chars ok sep = true ->
  Forall (fun s => all_chars ok s = true) l ->
  all_chars ok (join sep l) = true.
Proof.
  intros Hsep. induction 1 as [|x l Hx Hl IH]; [reflexivity|].
  destruct l as [|y l]; [exact Hx|].
  change (join sep (x :: y :: l)) with (x ++ sep ++ join sep (y :: l)).
  rewrite !all_chars_append, Hx, Hsep, IH; reflexivity.
Qed.

(** X8. Whatever the option values, the result of [toQueryString] holds
    only ASCII letters, digits and the characters [* - . _ % + = &]: every
    other byte of a name or value is percent-encoded. *)
Theorem toQueryString_is_url_safe (this : TakeOptions) :
  all_chars query_char (toQueryString this) = true.
Proof.
  unfold toQueryString, usp_toString.
  apply all_chars_join; [reflexivity|].
  apply Forall_forall. intros s Hs. apply in_map_iff in Hs.
  destruct Hs as ([n v] & <- & _). cbn [fst snd].
  rewrite !all_chars_append, !form_encode_chars; reflexivity.
Qed.

(** ** [generateUrl]: values are signed as they are *)

Lemma join_merge (sep x y : string) (L R : list string) :
  join sep (L ++ (x ++ sep ++ y)%string :: R)%list
  = join sep (L ++ x :: y :: R)%list.
Proof.
  induction L as [|l L IH].
  - destruct R as [|r R]; cbn [app join]; [reflexivity|].
    rewrite !append_assoc; reflexivity.
  - destruct L as [|l' L].
    + cbn [app] in *. change (join sep (l :: ?t :: ?r))
        with (l ++ sep ++ join sep (t :: r)).
      rewrite IH; reflexivity.
    + cbn [app] in *. change (join sep (l :: l' :: ?r))
        with (l ++ sep ++ join sep (l' :: r)).
      rewrite IH; reflexivity.
Qed.

(** X9. [generateUrl] writes option values into the signed message without
    escaping, so the message does not determine the options: a target URL
    that ends in [&wait_for=<condition>] gives the same signed URL as the
    shorter target together with the [waitFor] option. *)
Theorem signed_url_does_not_separate_values (this : Client)
    (config : TakeOptionsConfig) (target : string) (condition : WaitCondition.t)
    (expiresAt : Date) :
  let long :=
    with_field Field.url
      (Some (target ++ "&wait_for=" ++ WaitCondition.to_string condition))
      (with_field Field.waitFor None config) in
  let short :=
    with_field Field.url (Some target)
      (with_field Field.waitFor (Some condition) config) in
  long Field.url <> short Field.url
  /\ long Field.waitFor <> short Field.waitFor
  /\ generateUrl this (inr long) expiresAt = generateUrl this (inr short) expiresAt.
Proof.
  intros long short.
  assert (Hu1 : long Field.url
                = Some (target ++ "&wait_for=" ++ WaitCondition.to_string condition))
    by apply with_field_same.
  assert (Hu2 : short Field.url = Some target) by apply with_field_same.
  assert (Hw1 : long Field.waitFor = None).
  { unfold long. rewrite with_field_other by discriminate. apply with_field_same. }
  assert (Hw2 : short Field.waitFor = Some condition).
  { unfold short. rewrite with_field_other by discriminate. apply with_field_same. }
  assert (Hother : forall q, q <> Param.url -> q <> Param.wait_for ->
                     Param.value long q = Param.value short q).
  { intros q Hq1 Hq2. unfold long, short.
    rewrite !value_with_field_other;
      try reflexivity; destruct q; try discriminate; congruence. }
  split; [|split].
  - rewrite Hu1, Hu2. intros H. injection H as H.
    apply (f_equal String.length) in H.
    rewrite string_length_append in H. simpl String.length in H. lia.
  - rewrite Hw1, Hw2; discriminate.
  - apply generateUrl_same_message. rewrite !signed_message_canonical.
    f_equal. unfold canonical_query.
    change Param.sorted
      with ([ Param.block_ads; Param.block_chat_widgets;
              Param.block_cookie_banners; Param.block_trackers;
              Param.cache_ttl; Param.dark_mode; Param.delay; Param.device;
              Param.element; Param.format; Param.full_page; Param.height;
              Param.mobile; Param.preset; Param.quality; Param.scale ]
            ++ [ Param.url; Param.wait_for; Param.width ])%list.
    rewrite !flat_map_app.
    match goal with
    | |- join _ (_ ++ ?r1)%list = join _ (_ ++ ?r2)%list =>
        match r1 with
        | flat_map _ ?l =>
            fold (pieces long l); fold (pieces short l);
            set (tail1 := pieces long l); set (tail2 := pieces short l)
        end
    end.
    match goal with
    | |- join _ (flat_map _ ?l ++ _)%list = _ =>
        fold (pieces long l); fold (pieces short l);
        rewrite (pieces_ext long short l)
    end.
    2:{ intros q Hq. apply Hother; intros ->; cbn in Hq; intuition discriminate. }
    subst tail1 tail2. unfold pieces at 2 4.
    cbn [flat_map]. rewrite (Hother Param.width) by discriminate.
    cbn [Param.value Param.key].
    rewrite Hu1, Hu2, Hw1, Hw2. cbn [option_map app].
    rewrite <- join_merge. rewrite ?append_assoc. reflexivity.
Qed.

(** ** [Client.request]: how failures are reported *)

Lemma request_settles
    (fetch : string -> RequestInit -> Failure + Response.t)
    (JSON_stringify : JSON -> string) (this : Client) (method path : string)
    (options : RequestOptions) :
  (exists reply, request fetch JSON_stringify this method path options = inr reply)
  \/ (exists e, request fetch JSON_stringify this method path options
                = inl (ApiError e)).
Proof.
  unfold request.
  destruct (request_try fetch JSON_stringify this method path options)
    as [error|reply]; [right|left; exists reply; reflexivity].
  destruct error as [e|[name message|]]; cbn [request_catch].
  - exists e; reflexivity.
  - destruct (String.eqb name "AbortError"); eexists; reflexivity.
  - eexists; reflexivity.
Qed.

(** X10. [request] is rejected with a [RenderScreenshotError] only:
    whatever [fetch] and the reading of the body do, the promise is
    fulfilled or the rejection is an instance of the SDK's error class. *)
Theorem request_rejects_with_api_errors_only
    (fetch : string -> RequestInit -> Failure + Response.t)
    (JSON_stringify : JSON -> string) (this : Client) (method path : string)
    (options : RequestOptions) :
  (exists reply, request fetch JSON_stringify this method path options = inr reply)
  \/ (exists e, request fetch JSON_stringify this method path options
                = inl (ApiError e)).
Proof.
  unfold request.
  destruct (request_try fetch JSON_stringify this method path options)
    as [[e|[name message|]]|reply]; cbn [request_catch].
  - right; exists e; reflexivity.
  - right. destruct (String.eqb name "AbortError"); eexists; reflexivity.
  - right; eexists; reflexivity.
  - left; exists reply; reflexivity.
Qed.

Lemma request_of_error_response
    (fetch : string -> RequestInit -> Failure + Response.t)
    (JSON_stringify : JSON -> string) (this : Client) (method path : string)
    (options : RequestOptions) (response : Response.t) :
  fetch (request_url this path) (fetchOptions JSON_stringify this method options)
  = inr response ->
  Response.ok response = false ->
  request fetch JSON_stringify this method path options
  = inl (request_catch (handleApiError response)).
Proof.
  intros Hfetch Hok. unfold request, request_try. rewrite Hfetch, Hok.
  reflexivity.
Qed.

(** X11. When the body of an error response cannot be read (for instance
    it is announced as JSON and is not), the status of the response is
    lost: [request] is rejected with the internal error, status 500 and
    retryable, that carries the message of the failure. *)
Theorem unreadable_error_body_hides_status
    (fetch : string -> RequestInit -> Failure + Response.t)
    (JSON_stringify : JSON -> string) (this : Client) (method path : string)
    (options : RequestOptions) (response : Response.t) (name message : string) :
  fetch (request_url this path) (fetchOptions JSON_stringify this method options)
  = inr response ->
  Response.ok response = false ->
  parseResponseBody response = inl (ErrorObject name message) ->
  name <> "AbortError" ->
  exists e,
    request fetch JSON_stringify this method path options = inl (ApiError e)
    /\ RenderScreenshotError.httpStatus e = 500
    /\ RenderScreenshotError.code e = "internal_error"
    /\ RenderScreenshotError.message e = message
    /\ RenderScreenshotError.retryable e = true
    /\ RenderScreenshotError.retryAfter e = None.
Proof.
  intros Hfetch Hok Hbody Hname.
  rewrite (request_of_error_response _ _ _ _ _ _ _ Hfetch Hok).
  unfold handleApiError. rewrite Hbody. cbn [request_catch].
  destruct (String.eqb_spec name "AbortError") as [E|_]; [contradiction|].
  eexists; split; [reflexivity|]. repeat split; reflexivity.
Qed.

Lemma unreadable_error_body_hides_status_witness :
  exists e,
    request (answer_with unauthorized_page) opaque_text test_client
      "GET" "/presets" no_options = inl (ApiError e)
    /\ RenderScreenshotError.httpStatus e = 500
    /\ RenderScreenshotError.code e = "internal_error"
    /\ RenderScreenshotError.message e = "Unexpected token < in JSON at position 0"
    /\ RenderScreenshotError.retryable e = true
    /\ RenderScreenshotError.retryAfter e = None.
Proof.
  apply (unreadable_error_body_hides_status (answer_with unauthorized_page)
           opaque_text test_client "GET" "/presets" no_options
           unauthorized_page "SyntaxError").
  - reflexivity.
  - reflexivity.
  - vm_compute; reflexivity.
  - discriminate.
Defined.

(** X12. An error response whose readable body names no string [code]
    (plain text, or JSON without that member) is reported with the status
    of the response and the code [internal_error], and so counts as
    retryable whatever the status. *)
Theorem error_without_code_is_retryable
    (fetch : string -> RequestInit -> Failure + Response.t)
    (JSON_stringify : JSON -> string) (this : Client) (method path : string)
    (options : RequestOptions) (response : Response.t) (body : Body) :
  fetch (request_url this path) (fetchOptions JSON_stringify this method options)
  = inr response ->
  Response.ok response = false ->
  parseResponseBody response = inr body ->
  optional_string (own_property "code" (errorBody_of body)) = None ->
  exists e,
    request fetch JSON_stringify this method path options = inl (ApiError e)
    /\ RenderScreenshotError.httpStatus e = Response.status response
    /\ RenderScreenshotError.code e = "internal_error"
    /\ RenderScreenshotError.retryable e = true.
Proof.
  intros Hfetch Hok Hbody Hcode.
  rewrite (request_of_error_response _ _ _ _ _ _ _ Hfetch Hok).
  unfold handleApiError. rewrite Hbody. cbn [request_catch].
  eexists; split; [reflexivity|].
  unfold RenderScreenshotError.fromResponse.
  cbn [RenderScreenshotError.params_code]. rewrite Hcode.
  repeat split; reflexivity.
Qed.

Lemma error_without_code_is_retryable_witness :
  exists e,
    request (answer_with not_found_text) opaque_text test_client
      "GET" "/batch/b1" no_options = inl (ApiError e)
    /\ RenderScreenshotError.httpStatus e = Response.status not_found_text
    /\ RenderScreenshotError.code e = "internal_error"
    /\ RenderScreenshotError.retryable e = true.
Proof.
  apply (error_without_code_is_retryable (answer_with not_found_text)
           opaque_text test_client "GET" "/batch/b1" no_options
           not_found_text (TextBody "Not Found")).
  - reflexivity.
  - reflexivity.
  - vm_compute; reflexivity.
  - reflexivity.
Defined.



(** ** [CacheManager.get] *)

(** X14. [cache.get] never reports a 404: its promise is fulfilled (with
    the bytes, or with null), or rejected with a [RenderScreenshotError]
    whose status is not 404. *)
Theorem cache_get_never_rejects_with_404
    (fetch : string -> RequestInit -> Failure + Response.t)
    (JSON_stringify : JSON -> string) (this : Client) (key : string) :
  (exists result, cache_get fetch JSON_stringify this key = inr result)
  \/ (exists e, cache_get fetch JSON_stringify this key = inl (ApiError e)
                /\ RenderScreenshotError.httpStatus e <> 404).
Proof.
  unfold cache_get.
  destruct (request_settles fetch JSON_stringify this "GET"
              ("/cache/" ++ key) cache_get_options) as [[reply H]|[e H]];
    fold cache_get_options; rewrite H.
  - left; eexists; reflexivity.
  - cbn [is_not_found].
    destruct (Z.eqb_spec (RenderScreenshotError.httpStatus e) 404) as [E|E].
    + left; eexists; reflexivity.
    + right; exists e; split; [reflexivity|exact E].
Qed.

(** X15. On a 404 answer [cache.get] returns null exactly when the body
    of the answer can be read; otherwise the promise is rejected (with the
    error of status 500 or 408 that [request] substitutes). *)
Theorem cache_get_not_found
    (fetch : string -> RequestInit -> Failure + Response.t)
    (JSON_stringify : JSON -> string) (this : Client) (key : string)
    (response : Response.t) :
  fetch (request_url this ("/cache/" ++ key))
    (fetchOptions JSON_stringify this "GET" cache_get_options)
  = inr response ->
  Response.status response = 404 ->
  (cache_get fetch JSON_stringify this key = inr None
   <-> exists body, parseResponseBody response = inr body).
Proof.
  intros Hfetch Hstatus.
  assert (Hok : Response.ok response = false)
    by (unfold Response.ok; rewrite Hstatus; reflexivity).
  unfold cache_get. fold cache_get_options.
  rewrite (request_of_error_response _ _ _ _ _ _ _ Hfetch Hok).
  unfold handleApiError.
  destruct (parseResponseBody response) as [[name message|]|body];
    cbn [request_catch].
  - destruct (String.eqb name "AbortError"); cbn; split;
      [discriminate|intros [b Hb]; discriminate
      |discriminate|intros [b Hb]; discriminate].
  - cbn; split; [discriminate|intros [b Hb]; discriminate].
  - cbn [is_not_found RenderScreenshotError.fromResponse
         RenderScreenshotError.make RenderScreenshotError.httpStatus].
    rewrite Hstatus. cbn. split; [intros _; exists body; reflexivity|reflexivity].
Qed.

Lemma cache_get_not_found_witness :
  cache_get (answer_with not_found_text) opaque_text test_client "cache_xyz789"
  = inr None
  <-> exists body, parseResponseBody not_found_text = inr body.
Proof.
  apply (cache_get_not_found (answer_with not_found_text) opaque_text
           test_client "cache_xyz789" not_found_text).
  - reflexivity.
  - reflexivity.
Defined.

(** ** The requests the client sends *)

Lemma lookup_assign_same (k v : string) (o : StringRecord) :
  lookup k (assign k v o) = Some v.
Proof.
  induction o as [|[k' v'] o IH]; cbn [assign lookup].
  - rewrite String.eqb_refl; reflexivity.
  - destruct (String.eqb k' k) eqn:E; cbn [lookup]; rewrite E;
      [reflexivity|exact IH].
Qed.

Lemma lookup_assign_other (k k' v : string) (o : StringRecord) :
  k <> k' -> lookup k' (assign k v o) = lookup k' o.
Proof.
  intros Hne. induction o as [|[a w] o IH]; cbn [assign lookup].
  - destruct (String.eqb_spec k k'); [contradiction|reflexivity].
  - destruct (String.eqb_spec a k) as [->|Hak]; cbn [lookup].
    + destruct (String.eqb_spec k k'); [contradiction|reflexivity].
    + destruct (String.eqb a k'); [reflexivity|exact IH].
Qed.

Lemma lookup_spread (name : string) (source : StringRecord) :
  NoDup (Object_keys source) ->
  forall o,
    lookup name
      (fold_left (fun acc kv => assign (fst kv) (snd kv) acc) source o)
    = nullish_option (lookup name source) (lookup name o).
Proof.
  induction source as [|[k v] source IH]; intros Hnd o; [reflexivity|].
  cbn [Object_keys map fst] in Hnd. inversion Hnd as [|? ? Hk Hrest]; subst.
  cbn [fold_left fst snd lookup]. rewrite (IH Hrest).
  destruct (String.eqb_spec k name) as [->|Hne].
  - rewrite (lookup_fresh name source Hk), lookup_assign_same; reflexivity.
  - rewrite lookup_assign_other by assumption; reflexivity.
Qed.

(** X16. A header the caller passes to [request] replaces the client's
    own header of that name, [Authorization] included; only
    [Content-Type] is forced to [application/json] when the request has a
    body. *)
Theorem caller_headers_take_precedence (this : Client) (options : RequestOptions)
    (custom : StringRecord) (name value : string) :
  options_headers options = Some custom ->
  NoDup (Object_keys custom) ->
  lookup name custom = Some value ->
  lookup name (request_headers this options)
  = match options_body options with
    | Some _ =>
        if String.eqb name "Content-Type" then Some "application/json"
        else Some value
    | None => Some value
    end.
Proof.
  intros Hcustom Hnd Hvalue. unfold request_headers, spread_into.
  rewrite Hcustom.
  assert (Hspread :
            lookup name
              (fold_left (fun acc kv => assign (fst kv) (snd kv) acc) custom
                 [ ("Authorization", "Bearer " ++ apiKey this);
                   ("User-Agent", "renderscreenshot-node/1.0.0") ])
            = Some value)
    by (rewrite (lookup_spread name custom Hnd), Hvalue; reflexivity).
  destruct (options_body options) as [b|]; [|exact Hspread].
  destruct (String.eqb_spec name "Content-Type") as [->|Hne].
  - apply lookup_assign_same.
  - rewrite lookup_assign_other by congruence. exact Hspread.
Qed.

Lemma caller_headers_take_precedence_witness :
  lookup "Authorization"
    (request_headers test_client
       {| options_body := Some JNull;
          options_headers := Some [("Authorization", "Bearer other")];
          options_responseType := None |})
  = Some "Bearer other".
Proof.
  apply (caller_headers_take_precedence test_client
           {| options_body := Some JNull;
              options_headers := Some [("Authorization", "Bearer other")];
              options_responseType := None |}
           [("Authorization", "Bearer other")] "Authorization" "Bearer other").
  - reflexivity.
  - repeat constructor; simpl; tauto.
  - reflexivity.
Defined.

Lemma body_path_not_response_type (f : Field.t) (params : list (string * JSON))
    (v : JSON) :
  read_path (body_path f) (set_member "response_type" v params)
  = read_path (body_path f) params.
Proof.
  destruct f; cbn [body_path read_path];
    rewrite member_set_member_other by discriminate; reflexivity.
Qed.

(** X17. The body [takeJson] posts holds every option exactly where
    [toParams] puts it, together with [response_type: 'json']. *)
Theorem takeJson_body_keeps_options (options : TakeOptions + TakeOptionsConfig)
    (f : Field.t) :
  let config := match options with inl o => toConfig o | inr c => c end in
  read_path (body_path f) (takeJson_body options) = body_value config f
  /\ member "response_type" (takeJson_body options) = Some (JString "json").
Proof.
  intros config. unfold takeJson_body. split.
  - rewrite body_path_not_response_type.
    destruct options as [o|c]; cbn [params_of]; apply read_toParams.
  - apply member_set_member_same.
Qed.

Lemma keys_set_member {A} (k : string) (v : A) (o : list (string * A)) :
  map fst (set_member k v o)
  = if existsb (String.eqb k) (map fst o) then map fst o
    else (map fst o ++ [k])%list.
Proof.
  induction o as [|[a w] o IH]; cbn [set_member map fst existsb app];
    [reflexivity|].
  rewrite (String.eqb_sym k a).
  destruct (String.eqb_spec a k) as [->|Hne]; cbn [map fst orb];
    [reflexivity|].
  rewrite IH. destruct (existsb (String.eqb k) (map fst o)); reflexivity.
Qed.

Lemma NoDup_set_member {A} (k : string) (v : A) (o : list (string * A)) :
  NoDup (map fst o) -> NoDup (map fst (set_member k v o)).
Proof.
  intros Hnd. rewrite keys_set_member.
  destruct (existsb (String.eqb k) (map fst o)) eqn:E; [exact Hnd|].
  apply NoDup_app; [exact Hnd|repeat constructor; intros []|].
  intros x Hx [Hk|[]]. subst x.
  assert (existsb (String.eqb k) (map fst o) = true); [|congruence].
  apply existsb_exists. exists k; split; [exact Hx|apply String.eqb_refl].
Qed.

Lemma NoDup_body_step (config : TakeOptionsConfig) (params : list (string * JSON))
    (f : Field.t) :
  NoDup (map fst params) -> NoDup (map fst (body_step config params f)).
Proof.
  intros Hnd. unfold body_step.
  destruct (body_path f) as [k|g k], (body_value config f) as [v|];
    cbn [put put_in]; try exact Hnd; apply NoDup_set_member, Hnd.
Qed.

Lemma NoDup_toParams (this : TakeOptions) : NoDup (map fst (toParams this)).
Proof.
  rewrite toParams_fold.
  assert (H : forall l params, NoDup (map fst params) ->
              NoDup (map fst (fold_left (body_step (builder_config this)) l params))).
  { induction l as [|f l IH]; intros params Hnd; [exact Hnd|].
    cbn [fold_left]. apply IH, NoDup_body_step, Hnd. }
  apply H. constructor.
Qed.

Lemma member_absent {A} (k : string) (o : list (string * A)) :
  ~ In k (map fst o) -> member k o = None.
Proof.
  induction o as [|[a w] o IH]; cbn [member map fst]; intros H; [reflexivity|].
  destruct (String.eqb_spec a k) as [->|Hne]; [exfalso; apply H; left; reflexivity|].
  apply IH. intros Hin; apply H; right; exact Hin.
Qed.

Lemma member_spread {A} (k : string) (source : list (string * A)) :
  NoDup (map fst source) ->
  forall o,
    member k (fold_left (fun acc kv => set_member (fst kv) (snd kv) acc) source o)
    = nullish_option (member k source) (member k o).
Proof.
  induction source as [|[a v] source IH]; intros Hnd o; [reflexivity|].
  cbn [map fst] in Hnd. inversion Hnd as [|? ? Ha Hrest]; subst.
  cbn [fold_left fst snd member]. rewrite (IH Hrest).
  destruct (String.eqb_spec a k) as [->|Hne].
  - rewrite (member_absent k source Ha), member_set_member_same; reflexivity.
  - rewrite member_set_member_other by assumption; reflexivity.
Qed.

(** X18. In a batch of requests each item is posted with its own options
    where [toParams] puts them, and with the item's [url] unless the
    item's options name a [url] themselves, which then takes its place. *)
Theorem batch_request_options_override_url (item : BatchRequestItem)
    (f : Field.t) :
  let config := nullish (item_options item) empty_config in
  read_path (body_path f) (spread (Some (batch_request (inr item))))
  = match body_value config f with
    | Some v => Some v
    | None =>
        if Field.eq_dec f Field.url then Some (JString (item_url item)) else None
    end.
Proof.
  intros config. unfold batch_request. fold config. cbn [spread optional_member].
  set (params := toParams (Builder.from config)).
  assert (Hnd : NoDup (map fst params)) by apply NoDup_toParams.
  assert (Hread : read_path (body_path f) params = body_value config f)
    by apply read_toParams.
  destruct (body_path f) as [k|g k] eqn:Hpath; cbn [read_path] in *.
  - rewrite (member_spread k params Hnd), Hread.
    destruct (body_value config f) as [v|]; [reflexivity|].
    cbn [nullish_option member].
    destruct f; cbn [body_path] in Hpath; try discriminate;
      injection Hpath as <-; reflexivity.
  - rewrite (member_spread g params Hnd).
    assert (Hg : member g [("url", JString (item_url item))] = None)
      by (destruct f; cbn [body_path] in Hpath; try discriminate;
          injection Hpath as <- <-; reflexivity).
    rewrite Hg.
    replace (nullish_option (member g params) None) with (member g params)
      by (destruct (member g params); reflexivity).
    rewrite Hread. destruct (body_value config f) as [v|]; [reflexivity|].
    destruct f; cbn [body_path] in Hpath; try discriminate; reflexivity.
Qed.

(** ** [parseWebhook]: the shape of the parsed event *)

(** X19. A batch event needs no [data] member: when the payload decodes
    to an object whose event is [batch.completed] or [batch.failed] and
    whose timestamp [new Date] can convert, [parseWebhook] returns the event
    with the payload's id as [batchId], whatever else the payload holds. *)
Theorem batch_event_needs_no_data
    (JSON_parse : string -> Result JSON) (Date_parse : string -> Date)
    (payload : string + JSON) (members : list (string * JSON)) (ev : string) :
  decode JSON_parse payload = Ok (JObject members) ->
  own_property "event" members = Some (JString ev) ->
  ev = "batch.completed" \/ ev = "batch.failed" ->
  (forall j, own_property "timestamp" members = Some j -> convertible j = true) ->
  exists d,
    new_Date Date_parse (own_property "timestamp" members) = Ok d
    /\ parseWebhook JSON_parse Date_parse payload
       = Ok {| WebhookEvent.id := own_property "id" members;
               WebhookEvent.type := Some (JString ev);
               WebhookEvent.timestamp := d;
               WebhookEvent.data :=
                 {| EventData.url := None;
                    EventData.batchId := own_property "id" members;
                    EventData.response := None;
                    EventData.error := None |} |}.
Proof.
  intros Hdecode Hevent Hev Hts.
  destruct (new_Date_convertible Date_parse _ Hts) as [d Hd].
  exists d; split; [exact Hd|].
  unfold parseWebhook. rewrite Hdecode. cbn [bind get].
  rewrite Hevent, Hd. cbn [bind].
  destruct Hev as [-> | ->]; reflexivity.
Qed.

Lemma batch_event_needs_no_data_witness :
  exists d,
    new_Date unused_Date_parse
      (own_property "timestamp"
         [ ("event", JString "batch.failed"); ("id", JString "batch_7");
           ("timestamp", JNumber (Number_of_Z 1705579200000)) ]) = Ok d
    /\ parseWebhook unused_JSON_parse unused_Date_parse
         (inr (JObject
                 [ ("event", JString "batch.failed"); ("id", JString "batch_7");
                   ("timestamp", JNumber (Number_of_Z 1705579200000)) ]))
       = Ok {| WebhookEvent.id :=
                 own_property "id"
                   [ ("event", JString "batch.failed"); ("id", JString "batch_7");
                     ("timestamp", JNumber (Number_of_Z 1705579200000)) ];
               WebhookEvent.type := Some (JString "batch.failed");
               WebhookEvent.timestamp := d;
               WebhookEvent.data :=
                 {| EventData.url := None;
                    EventData.batchId :=
                      own_property "id"
                        [ ("event", JString "batch.failed");
                          ("id", JString "batch_7");
                          ("timestamp", JNumber (Number_of_Z 1705579200000)) ];
                    EventData.response := None;
                    EventData.error := None |} |}.
Proof.
  apply (batch_event_needs_no_data unused_JSON_parse unused_Date_parse
           (inr (JObject
                   [ ("event", JString "batch.failed"); ("id", JString "batch_7");
                     ("timestamp", JNumber (Number_of_Z 1705579200000)) ]))
           [ ("event", JString "batch.failed"); ("id", JString "batch_7");
             ("timestamp", JNumber (Number_of_Z 1705579200000)) ]
           "batch.failed").
  - reflexivity.
  - reflexivity.
  - right; reflexivity.
  - intros j Hj. vm_compute in Hj. injection Hj as <-. reflexivity.
Defined.

Lemma strict_equals_string_true (x : JSValue) (s : string) :
  strict_equals_string x s = true <-> x = Some (JString s).
Proof.
  destruct x as [[| | |s'| |]|]; cbn [strict_equals_string];
    try (split; [discriminate|intros H; discriminate H]).
  rewrite String.eqb_eq. split; [intros ->; reflexivity|].
  intros H; injection H as ->; reflexivity.
Qed.

Ltac run_bind :=
  match goal with
  | H : bind ?m _ = Ok _ |- _ =>
      let E := fresh "E" in
      destruct m eqn:E; cbn [bind] in H; [|discriminate H]
  end.

(** X20. The data of a parsed event follows its type: a [response] is
    present exactly for [screenshot.completed], an [error] exactly for
    [screenshot.failed] and then with the code [render_failed] whatever the
    payload says, and a [batchId] or [url] only for the types that have
    one. *)
Theorem parsed_event_shape
    (JSON_parse : string -> Result JSON) (Date_parse : string -> Date)
    (payload : string + JSON) (event : WebhookEvent.t) :
  parseWebhook JSON_parse Date_parse payload = Ok event ->
  let type := WebhookEvent.type event in
  let data := WebhookEvent.data event in
  (EventData.response data <> None
   <-> type = Some (JString "screenshot.completed"))
  /\ (EventData.error data <> None <-> type = Some (JString "screenshot.failed"))
  /\ (forall e, EventData.error data = Some e ->
        EventError.code e = "render_failed")
  /\ (EventData.batchId data <> None ->
      type = Some (JString "batch.completed")
      \/ type = Some (JString "batch.failed"))
  /\ (EventData.url data <> None ->
      type = Some (JString "screenshot.completed")
      \/ type = Some (JString "screenshot.failed")).
Proof.
  unfold parseWebhook. intros H. repeat run_bind.
  match type of H with
  | context [strict_equals_string ?t "screenshot.completed"] => rename t into ty
  end.
  destruct (strict_equals_string ty "screenshot.completed") eqn:T1.
  - repeat run_bind. injection H as <-.
    apply strict_equals_string_true in T1. subst ty.
    cbn. repeat split; try discriminate; try tauto; auto.
  - destruct (strict_equals_string ty "screenshot.failed") eqn:T2.
    + repeat run_bind. injection H as <-.
      apply strict_equals_string_true in T2. subst ty.
      cbn. repeat split; try discriminate; try tauto; auto.
      intros e He; injection He as <-; reflexivity.
    + assert (N1 : ty <> Some (JString "screenshot.completed"))
        by (intros E'; apply strict_equals_string_true in E'; congruence).
      assert (N2 : ty <> Some (JString "screenshot.failed"))
        by (intros E'; apply strict_equals_string_true in E'; congruence).
      destruct (strict_equals_string ty "batch.completed") eqn:T3;
        [|destruct (strict_equals_string ty "batch.failed") eqn:T4];
        cbn [orb] in H; injection H as <-; cbn;
        repeat split; try discriminate; try tauto; try congruence.
      * intros _. left. apply strict_equals_string_true, T3.
      * intros _. right. apply strict_equals_string_true, T4.
Qed.

Lemma parsed_event_shape_witness :
  let type := WebhookEvent.type parsed_failed_event in
  let data := WebhookEvent.data parsed_failed_event in
  (EventData.response data <> None
   <-> type = Some (JString "screenshot.completed"))
  /\ (EventData.error data <> None <-> type = Some (JString "screenshot.failed"))
  /\ (forall e, EventData.error data = Some e ->
        EventError.code e = "render_failed")
  /\ (EventData.batchId data <> None ->
      type = Some (JString "batch.completed")
      \/ type = Some (JString "batch.failed"))
  /\ (EventData.url data <> None ->
      type = Some (JString "screenshot.completed")
      \/ type = Some (JString "screenshot.failed")).
Proof.
  apply (parsed_event_shape unused_JSON_parse unused_Date_parse
           (inr failed_event) parsed_failed_event).
  vm_compute. reflexivity.
Defined.
